(** * agent-memory: the pure core of [@agent-memory/core], embedded in Rocq

    The TypeScript sources embedded here are
    - [storage/sessions.ts]   : [getChunkCount], [getSessionFilePath],
                                [getMetaFilePath]
    - [search/index.ts]       : [normalizeScore]
    - [storage/memories.ts]   : [generateMemoryId], [formatMemoryMarkdown],
                                [parseMemoryMarkdown], [parseFrontmatter],
                                [getMemoryFilePath]
    - [providers/summarizer/index.ts] : [parseSummarizationResponse],
                                [formatMessagesForPrompt]
    - [providers/embeddings/openai.ts], [providers/embeddings/ollama.ts] :
                                the constructors
    - [config.ts], [types.ts] : [validateConfig], [resolvePath],
                                [EMBEDDING_DIMENSIONS], [MemoryConfigSchema]
    - [search/lancedb.ts], [memory.ts] : the (unimplemented) index and facade.

    JavaScript [number]s are IEEE-754 binary64 values and are modelled as
    such (module [F64]); JavaScript strings are sequences of UTF-16 code
    units and are modelled as [list N]. *)

From Stdlib Require Import String Ascii ZArith NArith Lia Bool.
From stdpp Require Import base list gmap.

(** ** IEEE-754 binary64, the JavaScript [number] type *)

Module F64.
Local Open Scope Z_scope.

(** The smallest positive binary64 value is [2^-1074]; every finite
    binary64 value is an integer multiple of it.  A finite value is kept
    as a sign and a magnitude counted in that unit, so [1.0] has
    magnitude [2^1074] and the largest finite value has magnitude
    [(2^53 - 1) * 2^2045]. *)
Inductive t : Type :=
| NaN
| Inf (neg : bool)
| Fin (neg : bool) (mag : Z).

Definition unit_exp : Z := 1074.
Definition U : Z := 2 ^ unit_exp.          (* magnitude of 1.0 *)
Definition overflow : Z := 2 ^ 2098.       (* magnitude of 2^1024 *)

(** Exponent of the grid spacing around a magnitude [q]: magnitudes
    below [2^53] (subnormals and the first normal binade) are spaced by
    one unit, a magnitude in [[2^b, 2^(b+1))] by [2^(b-52)] units. *)
Definition grid_exp (q : Z) : Z := Z.max 0 (Z.log2 q - 52).

(** A magnitude is a binary64 magnitude when it lies on its grid and
    below the overflow threshold. *)
Definition representable (k : Z) : Prop :=
  0 <= k < overflow /\ k mod 2 ^ grid_exp k = 0.

Definition valid (x : t) : Prop :=
  match x with
  | Fin _ k => representable k
  | _ => True
  end.

(** [n / d] rounded to the nearest integer, ties to even ([0 <= n], [0 < d]). *)
Definition rhe (n d : Z) : Z :=
  let q := n / d in
  let r := n mod d in
  if 2 * r <? d then q
  else if d <? 2 * r then q + 1
  else if Z.even q then q else q + 1.

(** The exact quotient [n / d] (in units) rounded to the binary64 grid,
    round-to-nearest, ties-to-even, exponent unbounded above. *)
Definition round_ratio (n d : Z) : Z :=
  let p := grid_exp (n / d) in
  rhe n (d * 2 ^ p) * 2 ^ p.

(** Overflow to infinity after rounding. *)
Definition pack (neg : bool) (k : Z) : t :=
  if k <? overflow then Fin neg k else Inf neg.

Definition signed (neg : bool) (k : Z) : Z := if neg then - k else k.

(** [x + y] *)
Definition add (x y : t) : t :=
  match x, y with
  | NaN, _ | _, NaN => NaN
  | Inf a, Inf b => if Bool.eqb a b then Inf a else NaN
  | Inf a, Fin _ _ => Inf a
  | Fin _ _, Inf b => Inf b
  | Fin a j, Fin b k =>
      let z := signed a j + signed b k in
      if z =? 0 then Fin (a && b) 0
      else pack (z <? 0) (round_ratio (Z.abs z) 1)
  end.

(** [x / y] *)
Definition div (x y : t) : t :=
  match x, y with
  | NaN, _ | _, NaN => NaN
  | Inf _, Inf _ => NaN
  | Inf a, Fin b _ => Inf (xorb a b)
  | Fin a _, Inf b => Fin (xorb a b) 0
  | Fin a j, Fin b k =>
      if k =? 0 then (if j =? 0 then NaN else Inf (xorb a b))
      else pack (xorb a b) (round_ratio (j * U) k)
  end.

(** [Math.ceil(x)]; a negative value above [-1] gives [-0]. *)
Definition ceil (x : t) : t :=
  match x with
  | Fin false k => Fin false ((k + U - 1) / U * U)
  | Fin true k => Fin true (k / U * U)
  | _ => x
  end.

(** The [number] nearest to the integer [z]. *)
Definition of_Z (z : Z) : t :=
  if z =? 0 then Fin false 0
  else pack (z <? 0) (round_ratio (Z.abs z * U) 1).

Definition zero : t := Fin false 0.
Definition one : t := Fin false U.

(** [x < y] and [x <= y]; any comparison with [NaN] is false, and the
    two zeros compare equal. *)
Definition ltb (x y : t) : bool :=
  match x, y with
  | NaN, _ | _, NaN => false
  | Inf a, Inf b => a && negb b
  | Inf a, Fin _ _ => a
  | Fin _ _, Inf b => negb b
  | Fin a j, Fin b k => signed a j <? signed b k
  end.

Definition leb (x y : t) : bool :=
  match x, y with
  | NaN, _ | _, NaN => false
  | Inf a, Inf b => a || negb b
  | Inf a, Fin _ _ => a
  | Fin _ _, Inf b => negb b
  | Fin a j, Fin b k => signed a j <=? signed b k
  end.

(** [x] is finite and its value is exactly the integer [z]
    (both zeros have the value [0]). *)
Definition has_value (x : t) (z : Z) : Prop :=
  match x with Fin s k => 0 <= k /\ signed s k = z * U | _ => False end.

(** Magnitude of [Number.MAX_VALUE]. *)
Definition max_mag : Z := (2 ^ 53 - 1) * 2 ^ 2045.

Definition is_finite (x : t) : bool :=
  match x with Fin _ _ => true | _ => false end.

(** [Number.isInteger(x)] *)
Definition is_integer (x : t) : bool :=
  match x with Fin _ k => k mod U =? 0 | _ => false end.

End F64.

(** ** [storage/sessions.ts] *)

(** [export function getChunkCount(messageCount: number, chunkSize: number): number {
      return Math.ceil(messageCount / chunkSize); }] *)
Definition getChunkCount (messageCount chunkSize : F64.t) : F64.t :=
  F64.ceil (F64.div messageCount chunkSize).

(** ** [search/index.ts] *)

(** A distance is a finite binary64 value that is not below zero. *)
Definition is_distance (d : F64.t) : Prop :=
  F64.valid d /\ F64.is_finite d = true /\ F64.leb F64.zero d = true.

(** [export function normalizeScore(distance: number): number {
      return 1 / (1 + distance); }] *)
Definition normalizeScore (distance : F64.t) : F64.t :=
  F64.div F64.one (F64.add F64.one distance).


(** Reading a score and a distance as the rational numbers they are:
    [score] is exactly the quotient [1 / (1 + distance)]. *)
Definition is_reciprocal (score distance : F64.t) : Prop :=
  match score, distance with
  | F64.Fin a r, F64.Fin s k =>
      (F64.signed a r * (F64.U + F64.signed s k) = F64.U * F64.U)%Z
  | _, _ => False
  end.

(** [score] is the quotient [1 / (1 + distance)] up to a relative error
    of [2^-e]: [|score * (1 + distance) - 1| <= 2^-e]. *)
Definition reciprocal_within (e : Z) (score distance : F64.t) : Prop :=
  match score, distance with
  | F64.Fin a r, F64.Fin s k =>
      (2 ^ e * Z.abs (F64.signed a r * (F64.U + F64.signed s k) - F64.U * F64.U)
       <= F64.U * F64.U)%Z
  | _, _ => False
  end.

(** ** JavaScript strings: sequences of UTF-16 code units *)

Abbreviation jsstring := (list N).

(** The code units of an ASCII literal. *)
Definition str (s : string) : jsstring :=
  map N_of_ascii (list_ascii_of_string s).

Definition LF : N := 10.

(** ECMA-262 [LineTerminator]: LF, CR, U+2028, U+2029. *)
Definition is_line_terminator (c : N) : bool :=
  ((c =? 10) || (c =? 13) || (c =? 8232) || (c =? 8233))%N.

(** ECMA-262 [WhiteSpace] and [LineTerminator], the characters removed by
    [String.prototype.trim] and matched by [\s]. *)
Definition is_white_space (c : N) : bool :=
  ((c =? 9) || (c =? 10) || (c =? 11) || (c =? 12) || (c =? 13) || (c =? 32)
   || (c =? 160) || (c =? 5760) || ((8192 <=? c) && (c <=? 8202))
   || (c =? 8232) || (c =? 8233) || (c =? 8239) || (c =? 8287)
   || (c =? 12288) || (c =? 65279))%N.

Fixpoint drop_while (p : N -> bool) (s : jsstring) : jsstring :=
  match s with
  | c :: s' => if p c then drop_while p s' else s
  | [] => []
  end.

Definition trimStart (s : jsstring) : jsstring := drop_while is_white_space s.
Definition trimEnd (s : jsstring) : jsstring :=
  rev (drop_while is_white_space (rev s)).

(** [s.trim()] *)
Definition trim (s : jsstring) : jsstring := trimEnd (trimStart s).

(** [s.startsWith(p)] *)
Fixpoint startsWith (p s : jsstring) : bool :=
  match p, s with
  | [], _ => true
  | a :: p', b :: s' => (a =? b)%N && startsWith p' s'
  | _ :: _, [] => false
  end.

(** [s.includes(p)] *)
Fixpoint includes (p s : jsstring) : bool :=
  startsWith p s || match s with [] => false | _ :: s' => includes p s' end.

(** [s.indexOf(p)]; [None] stands for [-1]. *)
Fixpoint indexOf (p s : jsstring) : option nat :=
  if startsWith p s then Some O
  else match s with
       | [] => None
       | _ :: s' => S <$> indexOf p s'
       end.

(** [s.slice(from, to)] and [s.slice(from)] for indices [0 <= from <= to]. *)
Definition slice (from to : nat) (s : jsstring) : jsstring :=
  take (to - from) (drop from s).
Definition slice_from (from : nat) (s : jsstring) : jsstring := drop from s.

(** [parts.join(sep)] *)
Fixpoint join (sep : jsstring) (parts : list jsstring) : jsstring :=
  match parts with
  | [] => []
  | [p] => p
  | p :: ps => p ++ sep ++ join sep ps
  end.

(** [s.split(sep)] for a non-empty separator: the pieces between the
    successive leftmost, non-overlapping occurrences of [sep].  [skip]
    counts the code units of a separator still to be passed over and
    [cur] holds the piece being read, last code unit first. *)
Fixpoint split_from (sep : jsstring) (skip : nat) (cur : jsstring) (s : jsstring)
  : list jsstring :=
  match s with
  | [] => [rev cur]
  | c :: s' =>
      match skip with
      | S n => split_from sep n cur s'
      | O =>
          if startsWith sep s
          then rev cur :: split_from sep (length sep - 1) [] s'
          else split_from sep O (c :: cur) s'
      end
  end.

(** [s.split(sep)]; with the empty separator the string falls apart into
    its code units. *)
Definition split (sep s : jsstring) : list jsstring :=
  match sep with
  | [] => map (fun c => [c]) s
  | _ => split_from sep O [] s
  end.

(** The characters of [t] are the ASCII upper case of those of [s]; only
    the letters a-z change. *)
Definition upper (c : N) : N :=
  if ((97 <=? c) && (c <=? 122))%N then (c - 32)%N else c.

(** [s] begins with [p], letter case of ASCII letters aside. *)
Fixpoint startsWith_i (p s : jsstring) : bool :=
  match p, s with
  | [], _ => true
  | a :: p', b :: s' => (upper b =? upper a)%N && startsWith_i p' s'
  | _ :: _, [] => false
  end.

(** [p] occurs in [s], letter case of ASCII letters aside. *)
Fixpoint includes_i (p s : jsstring) : bool :=
  startsWith_i p s || match s with [] => false | _ :: s' => includes_i p s' end.

(** [Boolean(s)] for a string: the empty string is falsy. *)
Definition truthy (s : jsstring) : bool :=
  match s with [] => false | _ => true end.

(** ** Regular expressions (ECMA-262 backtracking semantics, no [u] flag) *)

Module Regex.

Inductive regex : Type :=
| Eps
| Chr (p : N -> bool)                 (* one code unit of a class *)
| Seq (r1 r2 : regex)
| Alt (r1 r2 : regex)                 (* r1|r2 *)
| Star (greedy : bool) (r : regex)    (* r* and r*? *)
| Group (i : nat) (r : regex)         (* the i-th capturing group *)
| Lookahead (r : regex)               (* (?=r) *)
| Bol                                 (* ^ without the m flag *)
| Eol.                                (* $ without the m flag *)

(** A match state: the end index, the input from there on, and the
    captures made so far. *)
Record mstate : Type := MState {
  pos : nat;
  rest : jsstring;
  caps : gmap nat jsstring
}.

Definition cont : Type := mstate -> option mstate.

(** The capturing groups inside a term; a quantifier resets them at each
    iteration. *)
Fixpoint groups (r : regex) : list nat :=
  match r with
  | Seq r1 r2 | Alt r1 r2 => groups r1 ++ groups r2
  | Star _ r1 | Lookahead r1 => groups r1
  | Group i r1 => i :: groups r1
  | _ => []
  end.

Definition clear (gs : list nat) (st : mstate) : mstate :=
  MState (pos st) (rest st) (foldr delete (caps st) gs).

(** ECMA-262 RepeatMatcher for [min = 0], [max = infinity].  An iteration
    that consumes nothing is rejected, so every iteration shortens the
    remaining input; [fuel] starts at its length, and when it reaches [O]
    the input is used up and no further iteration can succeed. *)
Fixpoint repeat_matcher (body : mstate -> cont -> option mstate) (gs : list nat)
  (greedy : bool) (k : cont) (fuel : nat) (st : mstate) : option mstate :=
  match fuel with
  | O => k st
  | S n =>
      let d := fun st' =>
        if (pos st' =? pos st)%nat then None
        else repeat_matcher body gs greedy k n st' in
      if greedy then
        match body (clear gs st) d with
        | Some z => Some z
        | None => k st
        end
      else
        match k st with
        | Some z => Some z
        | None => body (clear gs st) d
        end
  end.

(** The matcher of a term, in continuation-passing style as in ECMA-262:
    [k] is the rest of the pattern, and failure of [k] backtracks. *)
Fixpoint matcher (r : regex) (st : mstate) (k : cont) {struct r} : option mstate :=
  match r with
  | Eps => k st
  | Chr p =>
      match rest st with
      | c :: s' => if p c then k (MState (S (pos st)) s' (caps st)) else None
      | [] => None
      end
  | Seq r1 r2 => matcher r1 st (fun st' => matcher r2 st' k)
  | Alt r1 r2 =>
      match matcher r1 st k with
      | Some z => Some z
      | None => matcher r2 st k
      end
  | Star greedy r1 =>
      repeat_matcher (matcher r1) (groups r1) greedy k (length (rest st)) st
  | Group i r1 =>
      matcher r1 st (fun st' =>
        k (MState (pos st') (rest st')
             (<[i := take (pos st' - pos st) (rest st)]> (caps st'))))
  | Lookahead r1 =>
      match matcher r1 st Some with
      | Some st' => k (MState (pos st) (rest st) (caps st'))
      | None => None
      end
  | Bol => if (pos st =? 0)%nat then k st else None
  | Eol => match rest st with [] => k st | _ :: _ => None end
  end.

(** A successful match: where it starts and the state at its end. *)
Record match_result : Type := MatchResult {
  index : nat;
  final : mstate
}.

(** RegExpBuiltinExec for a pattern without the [g] and [y] flags: the
    match is attempted at index 0, 1, ... up to the length of the input. *)
Fixpoint exec_from (r : regex) (i : nat) (s : jsstring) : option match_result :=
  match matcher r (MState i s ∅) Some with
  | Some st => Some (MatchResult i st)
  | None =>
      match s with
      | [] => None
      | _ :: s' => exec_from r (S i) s'
      end
  end.

Definition exec (r : regex) (s : jsstring) : option match_result :=
  exec_from r 0 s.

(** [m[i]] of a match array: [None] is [undefined]. *)
Definition capture (i : nat) (m : match_result) : option jsstring :=
  caps (final m) !! i.

(** [s.replace(r, '')] for a pattern without the [g] flag. *)
Definition replace_first_empty (r : regex) (s : jsstring) : jsstring :=
  match exec r s with
  | Some m => take (index m) s ++ rest (final m)
  | None => s
  end.

(** Canonicalize of ECMA-262 for the [i] flag without [u], on the code
    units that can match an ASCII pattern character: a code unit of 128
    or more never canonicalizes to an ASCII one. *)
Definition canonicalize (c : N) : N := upper c.

Definition chr (c : N) : regex := Chr (N.eqb c).
Definition chr_i (c : N) : regex :=
  Chr (fun x => (canonicalize x =? canonicalize c)%N).
Definition lit (s : jsstring) : regex := foldr (fun c r => Seq (chr c) r) Eps s.
Definition lit_i (s : jsstring) : regex := foldr (fun c r => Seq (chr_i c) r) Eps s.
Definition dot : regex := Chr (fun c => negb (is_line_terminator c)).      (* . *)
Definition space : regex := Chr is_white_space.                             (* \s *)
Definition any : regex := Chr (fun _ => true).                              (* [\s\S] *)
Definition plus (r : regex) : regex := Seq r (Star true r).                 (* r+ *)
Definition opt (r : regex) : regex := Alt r Eps.                            (* r? *)

End Regex.

(** ** Results of functions that can throw *)

(** The exceptions of [errors.ts] that the embedded code throws, and the
    built-in [Error]. *)
Inductive exn : Type :=
| Error (message : jsstring)              (* new Error(message) *)
| ValidationError (message : jsstring).   (* new ValidationError(message, zodError) *)

(** A function returns, or throws; an [async] function resolves, or
    rejects. *)
Inductive result (A : Type) : Type :=
| Ok (a : A)
| Throw (e : exn).
Arguments Ok {A} a.
Arguments Throw {A} e.

(** ** [storage/memories.ts] *)

(** [WrittenMemory] of [types.ts]. *)
Record WrittenMemory : Type := {
  id : jsstring;
  title : jsstring;
  content : jsstring;
  tags : list jsstring;
  createdAt : jsstring;
  updatedAt : jsstring;
  deleted : bool
}.

(** The template literal [`${b}`] of a boolean. *)
Definition string_of_bool (b : bool) : jsstring :=
  if b then str "true" else str "false".

(** [export function formatMemoryMarkdown(memory: WrittenMemory): string] *)
Definition formatMemoryMarkdown (memory : WrittenMemory) : jsstring :=
  let lines := [
    str "# " ++ title memory;
    [];
    content memory;
    [];
    str "---";
    str "tags: " ++ join (str ", ") (tags memory);
    str "created: " ++ createdAt memory;
    str "updated: " ++ updatedAt memory;
    str "deleted: " ++ string_of_bool (deleted memory)
  ] in
  join [LF] lines.

(** [result[key] = value] on an object created by [{}]: assigning a string
    to [__proto__] goes to the inherited setter and adds no property. *)
Definition set_property (key value : jsstring) (o : gmap jsstring jsstring)
  : gmap jsstring jsstring :=
  if decide (key = str "__proto__") then o else <[key := value]> o.

(** One iteration of the loop of [parseFrontmatter]. *)
Definition parseFrontmatter_line (result : gmap jsstring jsstring) (line : jsstring)
  : gmap jsstring jsstring :=
  match indexOf (str ":") line with
  | Some colonIndex =>
      if (0 <? colonIndex)%nat then
        let key := trim (slice 0 colonIndex line) in
        let value := trim (slice_from (colonIndex + 1) line) in
        set_property key value result
      else result
  | None => result
  end.

(** [function parseFrontmatter(frontmatter: string): Record<string, string>] *)
Definition parseFrontmatter (frontmatter : jsstring) : gmap jsstring jsstring :=
  foldl parseFrontmatter_line ∅ (split [LF] frontmatter).

(** The entry that a footer line holds: the text before its first colon
    and the text after it, both trimmed; a line without a colon, or with
    nothing before it, holds none. *)
Definition line_entry (line : jsstring) : option (jsstring * jsstring) :=
  match indexOf (str ":") line with
  | Some i =>
      if (0 <? i)%nat
      then Some (trim (slice 0 i line), trim (slice_from (i + 1) line))
      else None
  | None => None
  end.

(** No line of the footer holds an entry for [key]. *)
Definition footer_lacks (key fm : jsstring) : Prop :=
  forall line v, line ∈ split [LF] fm -> line_entry line <> Some (key, v).

(** The value that the footer text gives to [key]: the value of the last
    of its lines that holds an entry for [key]; [None] when no line does. *)
Definition footer_value (key fm : jsstring) : option jsstring :=
  last (omap (fun line =>
                match line_entry line with
                | Some (k, v) => if decide (k = key) then Some v else None
                | None => None
                end)
             (split [LF] fm)).

(** The footer separator, ['\n---\n']. *)
Definition separator : jsstring := LF :: str "---" ++ [LF].

(** [/^# (.+)\n/] *)
Definition title_regex : Regex.regex :=
  Regex.Seq Regex.Bol
    (Regex.Seq (Regex.lit (str "# "))
       (Regex.Seq (Regex.Group 1 (Regex.plus Regex.dot)) (Regex.chr LF))).

(** [/^# .+\n\n?/] *)
Definition heading_regex : Regex.regex :=
  Regex.Seq Regex.Bol
    (Regex.Seq (Regex.lit (str "# "))
       (Regex.Seq (Regex.plus Regex.dot)
          (Regex.Seq (Regex.chr LF) (Regex.opt (Regex.chr LF))))).

(** A body begins with a heading line when it reads [# ], then at least
    one character, none of them a line terminator, then a line feed. *)
Definition begins_with_heading (body : jsstring) : Prop :=
  exists t r,
    t <> [] /\ forallb (fun c => negb (is_line_terminator c)) t = true /\
    body = str "# " ++ t ++ LF :: r.

(** [new Date().toISOString()]: the clock is read through a function that
    gives the reading of the n-th call made by the caller. *)
Definition clock : Type := nat -> jsstring.

(** [export function parseMemoryMarkdown(content: string, id: string): WrittenMemory] *)
Definition parseMemoryMarkdown (now : clock) (content id : jsstring)
  : result WrittenMemory :=
  let parts := split separator content in
  let body := default [] (parts !! 0%nat) in
  let frontmatter := parts !! 1%nat in
  if negb (truthy body) || negb (from_option truthy false frontmatter) then
    Throw (Error (str "Invalid memory format: missing frontmatter"))
  else
    let frontmatter := default [] frontmatter in
    let titleMatch := Regex.exec title_regex body in
    let title :=
      default (str "Untitled") (titleMatch ≫= Regex.capture 1) in
    let memoryContent := trim (Regex.replace_first_empty heading_regex body) in
    let meta := parseFrontmatter frontmatter in
    let tags :=
      match meta !! str "tags" with
      | Some t => filter (fun s => truthy s = true) (split (str ", ") t)
      | None => []
      end in
    let (createdAt, ticks) :=
      match meta !! str "created" with
      | Some c => (c, O)
      | None => (now O, 1%nat)
      end in
    let updatedAt :=
      match meta !! str "updated" with
      | Some u => u
      | None => now ticks
      end in
    Ok {| id := id;
          title := title;
          content := memoryContent;
          tags := tags;
          createdAt := createdAt;
          updatedAt := updatedAt;
          deleted := bool_decide (meta !! str "deleted" = Some (str "true")) |}.

(** *** Notes that survive a round trip through the file format *)

(** No line feed in [s]. *)
Definition one_line (s : jsstring) : bool :=
  forallb (fun c => negb (c =? LF)%N) s.

(** A tag the footer can carry: not empty, no white space around it, no
    [", "] inside it, no line feed. *)
Definition valid_tag (t : jsstring) : Prop :=
  t <> [] /\ trim t = t /\ includes (str ", ") t = false /\ one_line t = true.

(** A timestamp the footer can carry; every ISO-8601 timestamp is one. *)
Definition valid_timestamp (t : jsstring) : Prop :=
  trim t = t /\ one_line t = true.

Record valid_note (n : WrittenMemory) : Prop := {
  (* the title is a non-empty single line *)
  title_nonempty : title n <> [];
  title_line : forallb (fun c => negb (is_line_terminator c)) (title n) = true;
  (* the content has no white space around it and no line that reads [---] *)
  content_trimmed : trim (content n) = content n;
  content_no_rule : includes separator (LF :: content n ++ [LF]) = false;
  tags_valid : Forall valid_tag (tags n);
  createdAt_valid : valid_timestamp (createdAt n);
  updatedAt_valid : valid_timestamp (updatedAt n)
}.

(** The content holds no line that reads [---].  A note whose content
    holds such a line (a markdown horizontal rule) is cut there when it is
    read back, although the documentation supports markdown in the
    content: that is a defect of the parser, and the round-trip statement
    says nothing on such notes, for or against. *)
Definition rule_free (c : jsstring) : Prop :=
  includes separator (LF :: c ++ [LF]) = false.

(** The notes that the file format carries by design: the heading line
    holds the title, the content is stored trimmed, the tags are joined
    with [", "] on one line, each timestamp has a line of its own. *)
Record well_formed_note (n : WrittenMemory) : Prop := {
  (* the title is a non-empty single line *)
  wf_title_nonempty : title n <> [];
  wf_title_line : forallb (fun c => negb (is_line_terminator c)) (title n) = true;
  (* the content has no white space around it *)
  wf_content_trimmed : trim (content n) = content n;
  wf_tags : Forall valid_tag (tags n);
  wf_createdAt : valid_timestamp (createdAt n);
  wf_updatedAt : valid_timestamp (updatedAt n)
}.

(** The two halves of a formatted note. *)
Definition format_body (n : WrittenMemory) : jsstring :=
  str "# " ++ title n ++ LF :: LF :: content n ++ [LF].

Definition format_footer (n : WrittenMemory) : jsstring :=
  (str "tags" ++ str ": " ++ join (str ", ") (tags n)) ++ LF ::
  (str "created" ++ str ": " ++ createdAt n) ++ LF ::
  (str "updated" ++ str ": " ++ updatedAt n) ++ LF ::
  (str "deleted" ++ str ": " ++ string_of_bool (deleted n)).

(** *** Sample notes *)

Definition sample_note : WrittenMemory :=
  {| id := str "memory-1a2b3c4d";
     title := str "Preferences";
     content := str "User prefers dark mode";
     tags := [str "preference"; str "ui"];
     createdAt := str "2024-02-02T11:00:00Z";
     updatedAt := str "2024-02-02T11:00:00Z";
     deleted := false |}.

(** Content with a markdown horizontal rule between two paragraphs. *)
Definition rule_note : WrittenMemory :=
  {| id := str "memory-5e6f7a8b";
     title := str "Notes";
     content := str "First paragraph." ++ [LF; LF] ++ str "---" ++ [LF; LF] ++
                str "Second paragraph.";
     tags := [str "misc"];
     createdAt := str "2024-02-02T11:00:00Z";
     updatedAt := str "2024-02-03T09:30:00Z";
     deleted := false |}.

(** Content that starts with an indented code block. *)
Definition indented_note : WrittenMemory :=
  {| id := str "memory-9c0d1e2f";
     title := str "Snippet";
     content := str "    indented code";
     tags := [];
     createdAt := str "2024-02-02T11:00:00Z";
     updatedAt := str "2024-02-02T11:00:00Z";
     deleted := false |}.

(** A clock whose n-th reading is a fixed instant plus n seconds. *)
Definition sample_clock : clock :=
  fun i => str "2030-01-01T00:00:0" ++ [(48 + N.of_nat (i mod 10))%N] ++ str ".000Z".

(** ** [providers/summarizer/index.ts] *)

Record SummarizationResult : Type := {
  summary : jsstring;
  keyFacts : list jsstring
}.

(** [/SUMMARY:\s*\n([\s\S]*?)(?=\n\s*KEY FACTS:|$)/i] *)
Definition summary_regex : Regex.regex :=
  Regex.Seq (Regex.lit_i (str "SUMMARY:"))
    (Regex.Seq (Regex.Star true Regex.space)
       (Regex.Seq (Regex.chr LF)
          (Regex.Seq (Regex.Group 1 (Regex.Star false Regex.any))
             (Regex.Lookahead
                (Regex.Alt
                   (Regex.Seq (Regex.chr LF)
                      (Regex.Seq (Regex.Star true Regex.space)
                         (Regex.lit_i (str "KEY FACTS:"))))
                   Regex.Eol))))).

(** [/KEY FACTS:\s*\n([\s\S]*?)$/i] *)
Definition facts_regex : Regex.regex :=
  Regex.Seq (Regex.lit_i (str "KEY FACTS:"))
    (Regex.Seq (Regex.Star true Regex.space)
       (Regex.Seq (Regex.chr LF)
          (Regex.Seq (Regex.Group 1 (Regex.Star false Regex.any)) Regex.Eol))).

(** [/^-\s*/] *)
Definition bullet_regex : Regex.regex :=
  Regex.Seq Regex.Bol
    (Regex.Seq (Regex.chr 45) (Regex.Star true Regex.space)).

(** [export function parseSummarizationResponse(response: string): SummarizationResult] *)
Definition parseSummarizationResponse (response : jsstring) : SummarizationResult :=
  let summaryMatch := Regex.exec summary_regex response in
  let factsMatch := Regex.exec facts_regex response in
  let summary :=
    match summaryMatch ≫= Regex.capture 1 with
    | Some s => trim s
    | None => trim response
    end in
  let factsText := default [] (factsMatch ≫= Regex.capture 1) in
  let keyFacts :=
    filter (fun s => truthy s = true)
      (map (fun line => trim (Regex.replace_first_empty bullet_regex line))
         (split [LF] factsText)) in
  {| summary := summary; keyFacts := keyFacts |}.

(** ** [types.ts]: configuration schemas *)

(** A JavaScript value as [validateConfig(config: unknown)] can receive it. *)
#[warnings="-register-all"]
Inductive jsvalue : Type :=
| VUndefined
| VNull
| VBool (b : bool)
| VNumber (x : F64.t)
| VString (s : jsstring)
| VArray (items : list jsvalue)
| VObject (fields : gmap jsstring jsvalue).

(** [o[key]] on a plain object. *)
Definition field (key : jsstring) (o : gmap jsstring jsvalue) : jsvalue :=
  default VUndefined (o !! key).

Record EmbeddingsConfig : Type := {
  embeddings_provider : jsstring;
  embeddings_apiKey : option jsstring;
  embeddings_model : option jsstring;
  embeddings_baseUrl : option jsstring
}.

Record SummarizerConfig : Type := {
  summarizer_provider : jsstring;
  summarizer_apiKey : jsstring;
  summarizer_model : option jsstring
}.

Record SearchConfig : Type := {
  hybridWeight : F64.t;
  defaultLimit : F64.t
}.

Record MemoryConfig : Type := {
  storagePath : jsstring;
  embeddings : EmbeddingsConfig;
  summarizer : SummarizerConfig;
  chunkSize : F64.t;
  search : SearchConfig
}.

(** The schemas follow [safeParse] of Zod 3: [Some data] is a successful
    parse, [None] a failed one (the list of issues is not kept).  Keys that
    a schema does not name are dropped. *)
Module Zod.

(** [z.object(...)] accepts objects only, not [null] and not arrays. *)
Definition object (v : jsvalue) : option (gmap jsstring jsvalue) :=
  match v with VObject o => Some o | _ => None end.

(** [z.string()] *)
Definition string (v : jsvalue) : option jsstring :=
  match v with VString s => Some s | _ => None end.

(** [schema.optional()] *)
Definition optional {A} (schema : jsvalue -> option A) (v : jsvalue) : option (option A) :=
  match v with
  | VUndefined => Some None
  | _ => Some <$> schema v
  end.

(** [schema.default(d)], for a default [d] that the schema accepts. *)
Definition default_to {A} (d : A) (schema : jsvalue -> option A) (v : jsvalue) : option A :=
  match v with
  | VUndefined => Some d
  | _ => schema v
  end.

(** [z.number()]: a number other than [NaN]. *)
Definition number (v : jsvalue) : option F64.t :=
  match v with
  | VNumber F64.NaN => None
  | VNumber x => Some x
  | _ => None
  end.

(** [.positive()], [.min(lo)], [.max(hi)] *)
Definition positive (schema : jsvalue -> option F64.t) (v : jsvalue) : option F64.t :=
  x ← schema v; if F64.ltb F64.zero x then Some x else None.
Definition min (lo : F64.t) (schema : jsvalue -> option F64.t) (v : jsvalue) : option F64.t :=
  x ← schema v; if F64.leb lo x then Some x else None.
Definition max (hi : F64.t) (schema : jsvalue -> option F64.t) (v : jsvalue) : option F64.t :=
  x ← schema v; if F64.leb x hi then Some x else None.

(** [z.enum(options)] *)
Definition enum (options : list jsstring) (v : jsvalue) : option jsstring :=
  match v with
  | VString s => if bool_decide (s ∈ options) then Some s else None
  | _ => None
  end.

(** [schema.refine(check)] *)
Definition refine {A} (check : A -> bool) (schema : jsvalue -> option A) (v : jsvalue)
  : option A :=
  data ← schema v; if check data then Some data else None.

End Zod.

(** Truthiness of an optional string: [undefined] and [''] are falsy. *)
Definition truthy_opt (s : option jsstring) : bool := from_option truthy false s.

Definition string_eqb (a b : jsstring) : bool := bool_decide (a = b).

(** [export const EmbeddingsConfigSchema = z.object({...}).refine(...).refine(...)] *)
Definition EmbeddingsConfigSchema : jsvalue -> option EmbeddingsConfig :=
  Zod.refine
    (fun data => negb (string_eqb (embeddings_provider data) (str "ollama"))
                 || truthy_opt (embeddings_baseUrl data))
    (Zod.refine
       (fun data => negb (string_eqb (embeddings_provider data) (str "openai"))
                    || truthy_opt (embeddings_apiKey data))
       (fun v =>
          o ← Zod.object v;
          provider ← Zod.enum [str "openai"; str "ollama"] (field (str "provider") o);
          apiKey ← Zod.optional Zod.string (field (str "apiKey") o);
          model ← Zod.optional Zod.string (field (str "model") o);
          baseUrl ← Zod.optional Zod.string (field (str "baseUrl") o);
          Some {| embeddings_provider := provider;
                  embeddings_apiKey := apiKey;
                  embeddings_model := model;
                  embeddings_baseUrl := baseUrl |})).

(** [export const SummarizerConfigSchema = z.object({...})] *)
Definition SummarizerConfigSchema (v : jsvalue) : option SummarizerConfig :=
  o ← Zod.object v;
  provider ← Zod.enum [str "openai"; str "anthropic"] (field (str "provider") o);
  apiKey ← Zod.string (field (str "apiKey") o);
  model ← Zod.optional Zod.string (field (str "model") o);
  Some {| summarizer_provider := provider;
          summarizer_apiKey := apiKey;
          summarizer_model := model |}.

(** The literals [0.7], [10] and [50]. *)
Definition lit_0_7 : F64.t := F64.div (F64.of_Z 7) (F64.of_Z 10).
Definition lit_10 : F64.t := F64.of_Z 10.
Definition lit_50 : F64.t := F64.of_Z 50.

(** [export const SearchConfigSchema = z.object({...}).default({})] *)
Definition SearchConfigSchema (v : jsvalue) : option SearchConfig :=
  let v := match v with VUndefined => VObject ∅ | _ => v end in
  o ← Zod.object v;
  hybridWeight ←
    Zod.default_to lit_0_7 (Zod.max F64.one (Zod.min F64.zero Zod.number))
      (field (str "hybridWeight") o);
  defaultLimit ←
    Zod.default_to lit_10 (Zod.positive Zod.number) (field (str "defaultLimit") o);
  Some {| hybridWeight := hybridWeight; defaultLimit := defaultLimit |}.

(** [export const MemoryConfigSchema = z.object({...})] *)
Definition MemoryConfigSchema (v : jsvalue) : option MemoryConfig :=
  o ← Zod.object v;
  storagePath ← Zod.default_to (str "~/.agent-memory") Zod.string (field (str "storagePath") o);
  embeddings ← EmbeddingsConfigSchema (field (str "embeddings") o);
  summarizer ← SummarizerConfigSchema (field (str "summarizer") o);
  chunkSize ← Zod.default_to lit_50 (Zod.positive Zod.number) (field (str "chunkSize") o);
  search ← SearchConfigSchema (field (str "search") o);
  Some {| storagePath := storagePath;
          embeddings := embeddings;
          summarizer := summarizer;
          chunkSize := chunkSize;
          search := search |}.

(** ** [config.ts] *)

(** The replacement text of [String.prototype.replace] for a string
    pattern: [$$], [$&], [$`] and [$'] are expanded, everything else is
    copied. *)
Fixpoint get_substitution (matched before after replacement : jsstring) : jsstring :=
  match replacement with
  | [] => []
  | c :: r =>
      if (c =? 36)%N then
        match r with
        | d :: r' =>
            if (d =? 36)%N then 36%N :: get_substitution matched before after r'
            else if (d =? 38)%N then matched ++ get_substitution matched before after r'
            else if (d =? 96)%N then before ++ get_substitution matched before after r'
            else if (d =? 39)%N then after ++ get_substitution matched before after r'
            else c :: get_substitution matched before after r
        | [] => [c]
        end
      else c :: get_substitution matched before after r
  end.

(** [export function resolvePath(path: string): string]; [homedir] is the
    value of [os.homedir()]. *)
Definition resolvePath (homedir : jsstring) (path : jsstring) : jsstring :=
  if startsWith (str "~") path
  then get_substitution (str "~") [] (drop 1 path) homedir ++ drop 1 path
  else path.

(** [export function validateConfig(config: unknown): MemoryConfig] *)
Definition validateConfig (homedir : jsstring) (config : jsvalue) : result MemoryConfig :=
  match MemoryConfigSchema config with
  | None => Throw (ValidationError (str "Invalid configuration"))
  | Some data =>
      Ok {| storagePath := resolvePath homedir (storagePath data);
            embeddings := embeddings data;
            summarizer := summarizer data;
            chunkSize := chunkSize data;
            search := search data |}
  end.

(** *** Sample configurations *)

Definition sample_embeddings : jsvalue :=
  VObject (<[str "provider" := VString (str "openai")]>
             (<[str "apiKey" := VString (str "sk-test")]> ∅)).

Definition sample_summarizer : jsvalue :=
  VObject (<[str "provider" := VString (str "anthropic")]>
             (<[str "apiKey" := VString (str "sk-test")]> ∅)).

(** [{ embeddings: {...}, summarizer: {...} }] *)
Definition sample_config : gmap jsstring jsvalue :=
  <[str "embeddings" := sample_embeddings]>
    (<[str "summarizer" := sample_summarizer]> ∅).

(** The literal [2.5]. *)
Definition lit_2_5 : F64.t := F64.div (F64.of_Z 5) (F64.of_Z 2).

(** ** [search/lancedb.ts] and [memory.ts] *)

Record SearchOptions : Type := {
  limit : option F64.t;
  type : option jsstring
}.

Record SearchResult : Type := {
  result_id : jsstring;
  result_type : jsstring;
  result_summary : jsstring;
  score : F64.t;
  chunks : F64.t;
  timestamp : jsstring
}.

Record ReadOptions : Type := { chunk : F64.t }.

Record ReadResult : Type := {
  read_id : jsstring;
  read_type : jsstring;
  read_content : option jsstring;
  chunkIndex : F64.t;
  totalChunks : F64.t
}.

(** [class LanceDBSearchIndex]: its two fields; there is no connection and
    no table yet. *)
Record LanceDBSearchIndex : Type := {
  dbPath : jsstring;
  dimensions : F64.t
}.

Definition not_implemented {A} : result A := Throw (Error (str "Not implemented")).

(** [async remove(_id: string): Promise<void>] *)
Definition LanceDBSearchIndex_remove (self : LanceDBSearchIndex) (_id : jsstring)
  : result unit := not_implemented.

(** [async search(_query, _queryEmbedding, _options): Promise<SearchResult[]>] *)
Definition LanceDBSearchIndex_search (self : LanceDBSearchIndex) (_query : jsstring)
  (_queryEmbedding : list F64.t) (_options : SearchOptions)
  : result (list SearchResult) := not_implemented.

(** [class Memory]: the constructor stores nothing. *)
Inductive Memory : Type := MkMemory.

(** [async search(_query: string, _options?: SearchOptions): Promise<SearchResult[]>] *)
Definition Memory_search (self : Memory) (_query : jsstring) (_options : option SearchOptions)
  : result (list SearchResult) := not_implemented.

(** [async read(_id: string, _options?: ReadOptions): Promise<ReadResult>] *)
Definition Memory_read (self : Memory) (_id : jsstring) (_options : option ReadOptions)
  : result ReadResult := not_implemented.

(** [async delete(_id: string): Promise<void>] *)
Definition Memory_delete (self : Memory) (_id : jsstring) : result unit := not_implemented.

(** The match state [i] code units further on. *)
Definition ahead (st : Regex.mstate) (i : nat) : Regex.mstate :=
  Regex.MState (Regex.pos st + i) (drop i (Regex.rest st)) (Regex.caps st).

(** A key that a footer line can set: not empty, trimmed, on one line,
    without a colon, and not [__proto__]. *)
Definition footer_key (key : jsstring) : Prop :=
  key <> [] /\ trim key = key /\ one_line key = true /\
  forallb (fun x => negb (x =? 58)%N) key = true /\ key <> str "__proto__".

(** ** More of [providers/summarizer/index.ts] *)

(** [Message] of [types.ts]; the optional timestamp plays no part in the
    functions embedded here. *)
Record Message : Type := {
  role : jsstring;
  message_content : jsstring;
  message_timestamp : option jsstring
}.

(** [export function formatMessagesForPrompt(messages: Message[]): string] *)
Definition formatMessagesForPrompt (messages : list Message) : jsstring :=
  join [LF] (map (fun m => role m ++ str ": " ++ message_content m) messages).

(** A response in the format that [SUMMARIZATION_USER_PROMPT] asks for:
    [SUMMARY:], the summary, a blank line, [KEY FACTS:], and one
    [- fact] line per fact. *)
Definition prompt_response (s : jsstring) (facts : list jsstring) : jsstring :=
  str "SUMMARY:" ++ LF :: s ++ [LF; LF] ++
  str "KEY FACTS:" ++ LF :: join [LF] (map (fun f => str "- " ++ f) facts).

(** A key fact as the prompt format can carry it. *)
Definition valid_fact (f : jsstring) : Prop :=
  f <> [] /\ trim f = f /\ one_line f = true.

(** ** More of [storage/memories.ts] and [storage/sessions.ts] *)

(** [export function generateMemoryId(): string]; [uuid] is the value of
    [crypto.randomUUID()]. *)
Definition generateMemoryId (uuid : jsstring) : jsstring :=
  str "memory-" ++ slice 0 8 uuid.

(** [export function getMemoryFilePath(basePath: string, id: string): string] *)
Definition getMemoryFilePath (basePath id : jsstring) : jsstring :=
  basePath ++ str "/" ++ id ++ str ".md".

(** [export function getSessionFilePath(basePath: string, sessionId: string): string] *)
Definition getSessionFilePath (basePath sessionId : jsstring) : jsstring :=
  basePath ++ str "/" ++ sessionId ++ str ".jsonl".

(** [export function getMetaFilePath(basePath: string, sessionId: string): string] *)
Definition getMetaFilePath (basePath sessionId : jsstring) : jsstring :=
  basePath ++ str "/" ++ sessionId ++ str ".meta.json".

(** ** More of [config.ts] *)

(** No dollar sign in [s]: as a replacement text, [s] stands for itself. *)
Definition no_dollar (s : jsstring) : bool :=
  forallb (fun c => negb (c =? 36)%N) s.

(** The keys that [MemoryConfigSchema] names. *)
Definition config_keys : list jsstring :=
  [str "storagePath"; str "embeddings"; str "summarizer"; str "chunkSize"; str "search"].

(** What [validateConfig] makes of [sample_config] with the home
    directory [/home/agent]. *)
Definition sample_validated : MemoryConfig :=
  {| storagePath := str "/home/agent/.agent-memory";
     embeddings := {| embeddings_provider := str "openai";
                      embeddings_apiKey := Some (str "sk-test");
                      embeddings_model := None;
                      embeddings_baseUrl := None |};
     summarizer := {| summarizer_provider := str "anthropic";
                      summarizer_apiKey := str "sk-test";
                      summarizer_model := None |};
     chunkSize := lit_50;
     search := {| hybridWeight := lit_0_7; defaultLimit := lit_10 |} |}.

(** [DEFAULT_EMBEDDING_MODEL] *)
Definition DEFAULT_EMBEDDING_MODEL : jsstring := str "text-embedding-3-small".

(** The literals [768], [1536] and [3072]. *)
Definition lit_768 : F64.t := F64.of_Z 768.
Definition lit_1536 : F64.t := F64.of_Z 1536.
Definition lit_3072 : F64.t := F64.of_Z 3072.

(** [export const EMBEDDING_DIMENSIONS: Record<string, number> = {...}]:
    the own properties of the object literal. *)
Definition EMBEDDING_DIMENSIONS : gmap jsstring F64.t :=
  <[str "text-embedding-3-small" := lit_1536]>
    (<[str "text-embedding-3-large" := lit_3072]>
       (<[str "text-embedding-ada-002" := lit_1536]>
          (<[str "nomic-embed-text" := lit_768]> ∅))).

(** The names that an object literal inherits from [Object.prototype]. *)
Definition object_prototype_names : list jsstring :=
  [str "constructor"; str "__proto__"; str "hasOwnProperty"; str "isPrototypeOf";
   str "propertyIsEnumerable"; str "toLocaleString"; str "toString"; str "valueOf";
   str "__defineGetter__"; str "__defineSetter__"; str "__lookupGetter__";
   str "__lookupSetter__"].

(** What [EMBEDDING_DIMENSIONS[model]] evaluates to: the number of an own
    property, the member of [Object.prototype] of that name, or
    [undefined]. *)
Inductive property : Type :=
| Own (n : F64.t)
| Inherited (name : jsstring)
| Undefined.

Definition get_property (o : gmap jsstring F64.t) (key : jsstring) : property :=
  match o !! key with
  | Some n => Own n
  | None => if bool_decide (key ∈ object_prototype_names) then Inherited key else Undefined
  end.

(** [p ?? d] *)
Definition nullish_or (p : property) (d : F64.t) : property :=
  match p with Undefined => Own d | _ => p end.

(** [class OpenAIEmbeddings] of [providers/embeddings/openai.ts]: the
    fields that the constructor sets. *)
Record OpenAIEmbeddings : Type := {
  openai_apiKey : jsstring;
  openai_model : jsstring;
  openai_dimensions : property
}.

(** [constructor(config: { apiKey: string; model?: string })] *)
Definition new_OpenAIEmbeddings (apiKey : jsstring) (model : option jsstring)
  : OpenAIEmbeddings :=
  let model := default DEFAULT_EMBEDDING_MODEL model in
  {| openai_apiKey := apiKey;
     openai_model := model;
     openai_dimensions := nullish_or (get_property EMBEDDING_DIMENSIONS model) lit_1536 |}.

(** [class OllamaEmbeddings] of [providers/embeddings/ollama.ts] *)
Record OllamaEmbeddings : Type := {
  ollama_baseUrl : jsstring;
  ollama_model : jsstring;
  ollama_dimensions : property
}.

(** [constructor(config: { baseUrl: string; model?: string })] *)
Definition new_OllamaEmbeddings (baseUrl : jsstring) (model : option jsstring)
  : OllamaEmbeddings :=
  let model := default (str "nomic-embed-text") model in
  {| ollama_baseUrl := baseUrl;
     ollama_model := model;
     ollama_dimensions := nullish_or (get_property EMBEDDING_DIMENSIONS model) lit_768 |}.

(** * Properties *)

(** ** Worked inputs *)

Example format_sample :
  formatMemoryMarkdown sample_note =
  str "# Preferences" ++ [LF; LF] ++ str "User prefers dark mode" ++ [LF; LF] ++
  str "---" ++ [LF] ++ str "tags: preference, ui" ++ [LF] ++
  str "created: 2024-02-02T11:00:00Z" ++ [LF] ++
  str "updated: 2024-02-02T11:00:00Z" ++ [LF] ++ str "deleted: false".
Proof. vm_compute. reflexivity. Qed.

Example parse_format_sample now :
  parseMemoryMarkdown now (formatMemoryMarkdown sample_note) (id sample_note)
  = Ok sample_note.
Proof. vm_compute. reflexivity. Qed.

Example summarization_sample :
  parseSummarizationResponse
    (str "SUMMARY:" ++ [LF] ++ str "They talked." ++ [LF; LF] ++
     str "KEY FACTS:" ++ [LF] ++ str "- one" ++ [LF] ++ str "- two")
  = {| summary := str "They talked."; keyFacts := [str "one"; str "two"] |}.
Proof. vm_compute. reflexivity. Qed.
(** ** Rounding to the binary64 grid *)

Section Rounding.
  Import F64.
Local Open Scope Z_scope.

Lemma rhe_cases n d : 0 < d ->
  let q := n / d in let r := n mod d in
  n = d * q + r /\ 0 <= r < d /\
  ((2 * r < d /\ rhe n d = q) \/ (d < 2 * r /\ rhe n d = q + 1) \/
   (2 * r = d /\ Z.even q = true /\ rhe n d = q) \/
   (2 * r = d /\ Z.even q = false /\ rhe n d = q + 1)).
Proof.
  intros Hd q r. unfold rhe. fold q r.
  pose proof (Z.div_mod n d ltac:(lia)). pose proof (Z.mod_pos_bound n d Hd).
  split; [exact H|]. split; [exact H0|].
  destruct (Z.ltb_spec (2 * r) d); [lia|].
  destruct (Z.ltb_spec d (2 * r)); [lia|].
  destruct (Z.even q) eqn:E; lia.
Qed.

Lemma rhe_mono n1 d1 n2 d2 : 0 < d1 -> 0 < d2 -> 0 <= n1 ->
  n1 * d2 <= n2 * d1 -> rhe n1 d1 <= rhe n2 d2.
Proof.
  intros H1 H2 Hn Hle.
  destruct (rhe_cases n1 d1 H1) as (E1 & B1 & C1).
  destruct (rhe_cases n2 d2 H2) as (E2 & B2 & C2).
  set (q1 := n1 / d1) in *. set (r1 := n1 mod d1) in *.
  set (q2 := n2 / d2) in *. set (r2 := n2 mod d2) in *.
  assert (q1 <= q2).
  { destruct (Z_le_gt_dec q1 q2) as [|G]; [assumption|exfalso].
    assert (d1 * (q2 + 1) <= d1 * q1) by (apply Z.mul_le_mono_nonneg_l; lia).
    assert (d2 * (d1 * (q2 + 1)) <= d2 * n1) by (apply Z.mul_le_mono_nonneg_l; lia).
    assert (d1 * r2 < d1 * d2) by (apply Z.mul_lt_mono_pos_l; lia).
    nia. }
  destruct (Z.eq_dec q1 q2) as [Eq|Ne].
  - assert (r1 * d2 <= r2 * d1) by nia.
    rewrite <- Eq in *.
    destruct C1 as [[? ->]|[[? ->]|[(? & ? & ->)|(? & ? & ->)]]];
    destruct C2 as [[? ->]|[[? ->]|[(? & ? & ->)|(? & ? & ->)]]]; try lia; try nia; congruence.
  - destruct C1 as [[? ->]|[[? ->]|[(? & ? & ->)|(? & ? & ->)]]];
    destruct C2 as [[? ->]|[[? ->]|[(? & ? & ->)|(? & ? & ->)]]]; lia.
Qed.

Lemma grid_exp_nonneg q : 0 <= grid_exp q.
Proof. unfold grid_exp. lia. Qed.

Lemma grid_exp_mono q1 q2 : q1 <= q2 -> grid_exp q1 <= grid_exp q2.
Proof. intros H. unfold grid_exp. pose proof (Z.log2_le_mono _ _ H). lia. Qed.

Lemma pow2_pos p : 0 < 2 ^ p \/ (p < 0 /\ 2 ^ p = 0).
Proof.
  destruct (Z_lt_le_dec p 0).
  - right. split; [lia|]. apply Z.pow_neg_r. lia.
  - left. apply Z.pow_pos_nonneg; lia.
Qed.

Lemma pow2_grid_pos q : 0 < 2 ^ grid_exp q.
Proof. apply Z.pow_pos_nonneg; [lia | apply grid_exp_nonneg]. Qed.

Lemma rhe_lower n d : 0 < d -> n / d <= rhe n d.
Proof. intros Hd. destruct (rhe_cases n d Hd) as (_ & _ & C). cbv zeta in C. lia. Qed.

Lemma rhe_upper n d : 0 < d -> rhe n d <= n / d + 1.
Proof. intros Hd. destruct (rhe_cases n d Hd) as (_ & _ & C). cbv zeta in C. lia. Qed.

Lemma rhe_exact k d : 0 < d -> rhe (k * d) d = k.
Proof.
  intros Hd. unfold rhe. rewrite Z.div_mul, Z.mod_mul by lia.
  destruct (Z.ltb_spec (2 * 0) d); lia.
Qed.

Lemma rhe_scale n d f : 0 < d -> 0 < f -> rhe (n * f) (d * f) = rhe n d.
Proof.
  intros Hd Hf. unfold rhe.
  rewrite Z.div_mul_cancel_r by lia.
  rewrite Zmult_mod_distr_r.
  destruct (Z.ltb_spec (2 * (n mod d)) d), (Z.ltb_spec (2 * (n mod d * f)) (d * f));
    try reflexivity; try nia.
  destruct (Z.ltb_spec d (2 * (n mod d))), (Z.ltb_spec (d * f) (2 * (n mod d * f)));
    try reflexivity; nia.
Qed.

(** the grid exponent bounds its magnitude *)
Lemma grid_exp_gt q : 0 <= q -> q < 2 ^ (grid_exp q + 53).
Proof.
  intros Hq. destruct (Z.eq_dec q 0) as [->|Hn].
  - apply Z.pow_pos_nonneg; [lia|]. pose proof (grid_exp_nonneg 0). lia.
  - destruct (Z.log2_spec q ltac:(lia)) as [_ Hu].
    eapply Z.lt_le_trans; [exact Hu|].
    apply Z.pow_le_mono_r; [lia|]. unfold grid_exp. lia.
Qed.

Lemma grid_exp_le q : 0 < grid_exp q -> 2 ^ (grid_exp q + 52) <= q.
Proof.
  intros Hp. unfold grid_exp in *.
  assert (0 < q).
  { destruct (Z_lt_le_dec 0 q); [assumption|].
    rewrite Z.log2_nonpos in Hp by lia. lia. }
  destruct (Z.log2_spec q ltac:(lia)) as [Hl _].
  replace (Z.max 0 (Z.log2 q - 52) + 52) with (Z.log2 q) by lia. exact Hl.
Qed.

Lemma round_ratio_upper n d :
  0 <= n -> 0 < d -> round_ratio n d <= 2 ^ (grid_exp (n / d) + 53).
Proof.
  intros Hn Hd. unfold round_ratio.
  set (x := n / d). set (p := grid_exp x).
  assert (Hx : 0 <= x) by (apply Z.div_pos; lia).
  pose proof (pow2_grid_pos x) as HP. fold p in HP.
  pose proof (grid_exp_gt x Hx) as Hgt. fold p in Hgt.
  pose proof (grid_exp_nonneg x) as Hp0. fold p in Hp0.
  rewrite Z.pow_add_r in Hgt |- * by lia.
  pose proof (rhe_upper n (d * 2 ^ p) ltac:(nia)) as Hu.
  rewrite <- Z.div_div in Hu by lia. fold x in Hu.
  assert (x / 2 ^ p < 2 ^ 53).
  { apply Z.div_lt_upper_bound; lia. }
  nia.
Qed.

Lemma round_ratio_lower n d :
  0 <= n -> 0 < d -> 0 < grid_exp (n / d) ->
  2 ^ (grid_exp (n / d) + 52) <= round_ratio n d.
Proof.
  intros Hn Hd Hp. unfold round_ratio.
  set (x := n / d) in *. set (p := grid_exp x) in *.
  pose proof (pow2_grid_pos x) as HP. fold p in HP.
  pose proof (grid_exp_le x Hp) as Hle. fold p in Hle.
  rewrite Z.pow_add_r in Hle |- * by lia.
  pose proof (rhe_lower n (d * 2 ^ p) ltac:(nia)) as Hl.
  rewrite <- Z.div_div in Hl by lia. fold x in Hl.
  assert (2 ^ 52 <= x / 2 ^ p).
  { apply Z.div_le_lower_bound; lia. }
  nia.
Qed.

Lemma div_cross_le n1 d1 n2 d2 :
  0 < d1 -> 0 < d2 -> n1 * d2 <= n2 * d1 -> n1 / d1 <= n2 / d2.
Proof.
  intros H1 H2 H.
  apply Z.div_le_lower_bound; [lia|].
  pose proof (Z.mul_div_le n1 d1 H1).
  assert (d1 * (d2 * (n1 / d1)) <= d1 * n2) by nia.
  apply Z.mul_le_mono_pos_l with (p := d1); lia.
Qed.

Lemma round_ratio_mono n1 d1 n2 d2 :
  0 <= n1 -> 0 < d1 -> 0 < d2 -> n1 * d2 <= n2 * d1 ->
  round_ratio n1 d1 <= round_ratio n2 d2.
Proof.
  intros Hn H1 H2 Hle.
  assert (Hn2 : 0 <= n2) by nia.
  pose proof (div_cross_le _ _ _ _ H1 H2 Hle) as Hx.
  pose proof (grid_exp_mono _ _ Hx) as Hp.
  destruct (Z.eq_dec (grid_exp (n1 / d1)) (grid_exp (n2 / d2))) as [E|NE].
  - unfold round_ratio. rewrite E.
    pose proof (pow2_grid_pos (n2 / d2)) as HP.
    apply Z.mul_le_mono_nonneg_r; [lia|].
    apply rhe_mono; nia.
  - pose proof (round_ratio_upper n1 d1 Hn H1) as Hu.
    pose proof (grid_exp_nonneg (n1 / d1)) as Hp1.
    pose proof (round_ratio_lower n2 d2 Hn2 H2 ltac:(lia)) as Hl.
    eapply Z.le_trans; [exact Hu|]. eapply Z.le_trans; [|exact Hl].
    apply Z.pow_le_mono_r; lia.
Qed.

Lemma round_ratio_exact k d :
  0 < d -> k mod 2 ^ grid_exp k = 0 -> round_ratio (k * d) d = k.
Proof.
  intros Hd Hk. unfold round_ratio. rewrite Z.div_mul by lia.
  pose proof (pow2_grid_pos k) as HP.
  apply Z.div_exact in Hk; [|lia].
  rewrite Hk at 1.
  replace (2 ^ grid_exp k * (k / 2 ^ grid_exp k) * d)
    with (k / 2 ^ grid_exp k * (d * 2 ^ grid_exp k)) by ring.
  rewrite rhe_exact by nia. lia.
Qed.

End Rounding.

(** ** Integers as binary64 values *)

Section Integers.
Import F64.
Local Open Scope Z_scope.

Lemma U_pos : 0 < U.
Proof. unfold U, unit_exp. apply Z.pow_pos_nonneg; lia. Qed.

Lemma int_on_grid z : 0 <= z <= 2 ^ 53 -> (z * U) mod 2 ^ grid_exp (z * U) = 0.
Proof.
  intros Hz.
  destruct (Z.eq_dec z 0) as [->|Hz0]; [apply Z.mod_0_l; pose proof (pow2_grid_pos (0 * U)); lia|].
  destruct (Z.eq_dec z (2 ^ 53)) as [->|Hz1]; [vm_compute; reflexivity|].
  assert (Hlog : 0 <= Z.log2 z < 53).
  { split; [apply Z.log2_nonneg|]. apply Z.log2_lt_pow2; lia. }
  unfold grid_exp, U, unit_exp.
  rewrite Z.log2_mul_pow2 by lia.
  replace (Z.max 0 (1074 + Z.log2 z - 52)) with (Z.log2 z + 1022) by lia.
  replace 1074 with ((52 - Z.log2 z) + (Z.log2 z + 1022)) at 1 by lia.
  rewrite Z.pow_add_r by lia.
  rewrite Z.mul_assoc. apply Z.mod_mul.
  apply Z.pow_nonzero; lia.
Qed.

Lemma int_below_overflow z : 0 <= z <= 2 ^ 53 -> z * U < overflow.
Proof.
  intros Hz. unfold overflow, U, unit_exp.
  replace 2098 with (1024 + 1074) by lia. rewrite Z.pow_add_r by lia.
  apply Z.mul_lt_mono_pos_r; [apply Z.pow_pos_nonneg; lia|].
  assert (2 ^ 53 < 2 ^ 1024) by (apply Z.pow_lt_mono_r; lia). lia.
Qed.

Lemma of_Z_exact z : 0 <= z <= 2 ^ 53 -> of_Z z = Fin false (z * U).
Proof.
  intros Hz. unfold of_Z.
  destruct (Z.eqb_spec z 0) as [->|Hz0]; [reflexivity|].
  rewrite Z.abs_eq by lia.
  replace (z * U) with (z * U * 1) at 1 by lia.
  rewrite round_ratio_exact by (try lia; apply int_on_grid; lia).
  unfold pack.
  pose proof (int_below_overflow z Hz).
  destruct (Z.ltb_spec (z * U) overflow); [|lia].
  destruct (Z.ltb_spec z 0); [lia|reflexivity].
Qed.

(** The correctly rounded quotient of two safe integers never falls on or
    below the integer under the exact quotient, and never above the next
    one. *)
Lemma quotient_round m c :
  0 < m < 2 ^ 53 -> 0 < c < 2 ^ 53 ->
  let K := round_ratio (m * U * U) (c * U) in
  (m mod c = 0 -> K = m / c * U) /\
  (m mod c <> 0 -> m / c * U < K <= (m / c + 1) * U).
Proof.
  intros Hm Hc K. pose proof U_pos as HU.
  pose proof (Z.div_mod m c ltac:(lia)) as Em.
  pose proof (Z.mod_pos_bound m c ltac:(lia)) as Br.
  set (q := m / c) in *. set (r := m mod c) in *.
  assert (Hq : 0 <= q < 2 ^ 53).
  { split; [apply Z.div_pos; lia|]. nia. }
  split.
  - intros Hr. unfold K.
    assert (Em' : m * U * U = q * U * (c * U)).
    { transitivity (c * q * U * U); [do 2 f_equal; lia | ring]. }
    rewrite Em'.
    apply round_ratio_exact; [nia|]. apply int_on_grid. lia.
  - intros Hr. split.
    + (* strictly above [q]: the remainder is more than half a grid step *)
      unfold K, round_ratio.
      set (X := m * U * U / (c * U)).
      assert (EX : X = m * U / c) by (unfold X; apply Z.div_mul_cancel_r; lia).
      set (lo := 2 ^ 1021). set (hi := 2 ^ 1127).
      assert (HA : 0 < lo) by (apply Z.pow_pos_nonneg; lia).
      assert (EA : lo * 2 ^ 53 = U)
        by (unfold lo, U, unit_exp; rewrite <- Z.pow_add_r by lia; reflexivity).
      assert (EB : 2 ^ 53 * U = hi)
        by (unfold hi, U, unit_exp; rewrite <- Z.pow_add_r by lia; reflexivity).
      assert (HXl : lo <= X).
      { rewrite EX. apply Z.div_le_lower_bound; [lia|]. clearbody lo hi. nia. }
      assert (HXu : X < hi).
      { rewrite EX. apply Z.div_lt_upper_bound; [lia|]. clearbody lo hi. nia. }
      assert (Hb : 1021 <= Z.log2 X < 1127).
      { split; [apply Z.log2_le_pow2; [lia | exact HXl]
               | apply Z.log2_lt_pow2; [lia | exact HXu]]. }
      assert (HX0 : 0 < X) by lia.
      clearbody lo hi.
      set (p := grid_exp X).
      assert (Ep : p = Z.log2 X - 52) by (unfold p, grid_exp; lia).
      set (P := 2 ^ p). set (S := 2 ^ (1074 - p)).
      assert (HP : 0 < P) by (apply Z.pow_pos_nonneg; lia).
      assert (HS : 0 < S) by (apply Z.pow_pos_nonneg; lia).
      assert (EU : U = S * P).
      { unfold S, P, U, unit_exp. rewrite <- Z.pow_add_r by lia. f_equal; lia. }
      assert (HXp : P * 2 ^ 52 <= X).
      { unfold P. rewrite <- Z.pow_add_r by lia.
        replace (p + 52) with (Z.log2 X) by lia. apply Z.log2_spec; lia. }
      assert (HXc : c * X <= m * U) by (rewrite EX; apply Z.mul_div_le; lia).
      assert (HcS : c < 2 * S).
      { assert (c * (P * 2 ^ 52) <= m * (S * P)) by (rewrite <- EU; nia).
        assert (P * (c * 2 ^ 52) <= P * (m * S)) by lia.
        assert (c * 2 ^ 52 <= m * S) by (apply Z.mul_le_mono_pos_l with (p := P); lia).
        assert (m * S < 2 ^ 53 * S) by (apply Z.mul_lt_mono_pos_r; lia).
        change (2 ^ 53) with (2 * 2 ^ 52) in *. nia. }
      replace (m * U * U) with (m * S * (P * U)) by (rewrite EU; ring).
      replace (c * U * P) with (c * (P * U)) by ring.
      rewrite rhe_scale by nia.
      assert (q * S + 1 <= rhe (m * S) c).
      { destruct (rhe_cases (m * S) c ltac:(lia)) as (E & B & C).
        set (Q := m * S / c) in *. set (R := m * S mod c) in *.
        assert (c * (q * S) + r * S = c * Q + R) by (rewrite <- E, Em; ring).
        assert (q * S <= Q) by nia.
        destruct (Z.eq_dec (q * S) Q) as [EQ|NQ]; [|lia].
        assert (R = r * S) by nia.
        assert (c < 2 * R) by nia.
        lia. }
      rewrite EU. nia.
    + unfold K.
      replace ((q + 1) * U) with (round_ratio ((q + 1) * U * 1) 1)
        by (apply round_ratio_exact; [lia | apply int_on_grid; lia]).
      apply round_ratio_mono; nia.
Qed.

End Integers.

(** ** [getChunkCount] *)

Section ChunkCount.
Import F64.
Local Open Scope Z_scope.

Lemma ceil_between K q :
  q * U < K <= (q + 1) * U -> (K + U - 1) / U * U = (q + 1) * U.
Proof.
  intros H. pose proof U_pos. f_equal.
  symmetry. apply Z.div_unique with (r := K + U - 1 - U * (q + 1)); lia.
Qed.

Lemma round_ratio_0 d : 0 < d -> round_ratio 0 d = 0.
Proof.
  intros Hd. unfold round_ratio, rhe. rewrite (Z.div_0_l d) by lia.
  pose proof (pow2_grid_pos 0).
  rewrite !Z.div_0_l, !Z.mod_0_l by nia.
  destruct (Z.ltb_spec (2 * 0) (d * 2 ^ grid_exp 0)); [reflexivity | nia].
Qed.

Lemma pack_small s k : k < overflow -> pack s k = Fin s k.
Proof. intros H. unfold pack. destruct (Z.ltb_spec k overflow); [reflexivity | lia]. Qed.

Lemma getChunkCount_safe x y m c :
  has_value x m -> has_value y c ->
  0 <= m < 2 ^ 53 -> 0 < c < 2 ^ 53 ->
  exists n, has_value (getChunkCount x y) n /\ (n - 1) * c < m <= n * c.
Proof.
  intros Hx Hy Hm Hc. pose proof U_pos as HU.
  destruct x as [| |sx j]; try contradiction.
  destruct y as [| |sy k]; try contradiction.
  destruct Hx as [Hj0 Hx], Hy as [Hk0 Hy].
  assert (Ek : k = c * U /\ sy = false).
  { destruct sy; simpl in Hy; [nia|]. split; [lia|reflexivity]. }
  destruct Ek as [-> ->].
  unfold getChunkCount, div.
  destruct (Z.eqb_spec (c * U) 0) as [E0|_]; [nia|].
  destruct (Z.eq_dec m 0) as [->|Hm0].
  - (* an empty log: [0 / c] is a zero of either sign *)
    assert (j = 0) by (destruct sx; simpl in Hx; lia). subst j.
    exists 0. split; [|lia].
    change (0 * U) with 0. rewrite round_ratio_0 by nia.
    rewrite pack_small by (vm_compute; reflexivity).
    destruct sx; cbn; rewrite ?Z.div_0_l by lia; split; reflexivity || lia.
  - assert (Ej : j = m * U /\ sx = false).
    { destruct sx; simpl in Hx; [nia|]. split; [lia|reflexivity]. }
    destruct Ej as [-> ->]. cbn [xorb].
    destruct (quotient_round m c ltac:(lia) Hc) as [Hex Hin].
    pose proof (Z.div_mod m c ltac:(lia)) as Em.
    pose proof (Z.mod_pos_bound m c ltac:(lia)) as Br.
    assert (Hq : 0 <= m / c < 2 ^ 53).
    { split; [apply Z.div_pos; lia|]. nia. }
    set (K := round_ratio (m * U * U) (c * U)) in *.
    destruct (Z.eq_dec (m mod c) 0) as [Hr|Hr].
    + specialize (Hex Hr). exists (m / c). rewrite Hex.
      unfold pack. pose proof (int_below_overflow (m / c) ltac:(lia)).
      destruct (Z.ltb_spec (m / c * U) overflow); [|lia].
      cbn. split; [|nia]. split; [apply Z.mul_nonneg_nonneg; [apply Z.div_pos|]; lia|].
      replace (m / c * U + U - 1) with (U - 1 + (m / c) * U) by ring.
      rewrite Z.div_add by lia. rewrite Z.div_small by lia. reflexivity.
    + specialize (Hin Hr). exists (m / c + 1).
      unfold pack. pose proof (int_below_overflow (m / c + 1) ltac:(lia)).
      destruct (Z.ltb_spec K overflow); [|lia].
      cbn. split; [|nia]. rewrite (ceil_between _ _ Hin). split; [nia | reflexivity].
Qed.

End ChunkCount.

(** ** [normalizeScore] *)

Section Score.
Import F64.
Local Open Scope Z_scope.

Lemma max_mag_lt_overflow : max_mag < overflow.
Proof. vm_compute. reflexivity. Qed.

Lemma representable_le_max k : representable k -> k <= max_mag.
Proof.
  intros [[Hk0 Hk] Hg].
  destruct (Z_lt_le_dec k (2 ^ 2097)) as [Hs|Hl].
  - assert (2 ^ 2097 <= max_mag) by (vm_compute; discriminate). lia.
  - assert (El : Z.log2 k = 2097).
    { apply Z.log2_unique; [lia|]. split; [exact Hl | exact Hk]. }
    unfold grid_exp in Hg. rewrite El in Hg.
    change (Z.max 0 (2097 - 52)) with 2045 in Hg.
    assert (0 < 2 ^ 2045) by (apply Z.pow_pos_nonneg; lia).
    apply Z.div_exact in Hg; [|lia].
    assert (k / 2 ^ 2045 < 2 ^ 53).
    { apply Z.div_lt_upper_bound; [lia|].
      change (2 ^ 2045 * 2 ^ 53) with overflow. exact Hk. }
    unfold max_mag. nia.
Qed.

(** [1 + d] for a distance [d] is finite and at least [1]. *)
Lemma one_plus_distance d :
  is_distance d ->
  exists k t, 0 <= k /\ (d = Fin false k \/ (d = Fin true 0 /\ k = 0)) /\
    t = round_ratio (U + k) 1 /\
    add one d = Fin false t /\ U <= t <= max_mag.
Proof.
  intros (Hv & Hf & Hle). pose proof U_pos as HU.
  destruct d as [| |s k]; try discriminate.
  simpl in Hv. pose proof (representable_le_max k Hv) as Hmax.
  destruct Hv as [[Hk0 Hk] Hg].
  assert (Hs : signed s k = k /\ (s = false \/ k = 0)).
  { destruct s; cbn in Hle |- *; [|split; [reflexivity|left; reflexivity]].
    apply Z.leb_le in Hle. split; [lia | right; lia]. }
  destruct Hs as [Es Hs].
  exists k, (round_ratio (U + k) 1).
  assert (Hl : U <= round_ratio (U + k) 1).
  { apply Z.le_trans with (round_ratio U 1);
      [vm_compute; discriminate | apply round_ratio_mono; lia]. }
  assert (Hu : round_ratio (U + k) 1 <= max_mag).
  { apply Z.le_trans with (round_ratio (U + max_mag) 1);
      [apply round_ratio_mono; lia | vm_compute; discriminate]. }
  split; [exact Hk0|]. split.
  { destruct Hs as [->| ->]; [left; reflexivity|].
    destruct s; [right; split; reflexivity | left; reflexivity]. }
  split; [reflexivity|]. split; [|split; assumption].
  unfold add, one. rewrite Es. cbn [signed].
  destruct (Z.eqb_spec (U + k) 0); [lia|].
  destruct (Z.ltb_spec (U + k) 0); [lia|].
  rewrite Z.abs_eq by lia. unfold pack.
  pose proof max_mag_lt_overflow.
  destruct (Z.ltb_spec (round_ratio (U + k) 1) overflow); [reflexivity | lia].
Qed.

(** [1 / t] for a finite [t >= 1] is finite, above zero and at most [1]. *)
Lemma one_over t :
  U <= t <= max_mag ->
  div one (Fin false t) = Fin false (round_ratio (U * U) t) /\
  0 < round_ratio (U * U) t <= U.
Proof.
  intros Ht. pose proof U_pos as HU.
  assert (Hu : round_ratio (U * U) t <= U).
  { apply Z.le_trans with (round_ratio U 1);
      [apply round_ratio_mono; nia | vm_compute; discriminate]. }
  assert (Hl : 2 ^ 50 <= round_ratio (U * U) t).
  { apply Z.le_trans with (round_ratio (2 ^ 50) 1); [vm_compute; discriminate|].
    apply round_ratio_mono; try lia.
    pose proof max_mag_lt_overflow.
    assert (2 ^ 50 * overflow = U * U) by (vm_compute; reflexivity).
    assert (0 < 2 ^ 50) by (apply Z.pow_pos_nonneg; lia).
    nia. }
  assert (0 < 2 ^ 50) by (apply Z.pow_pos_nonneg; lia).
  split; [|lia].
  unfold div, one. destruct (Z.eqb_spec t 0); [lia|].
  cbn [xorb]. unfold pack.
  assert (U < overflow) by (vm_compute; reflexivity).
  destruct (Z.ltb_spec (round_ratio (U * U) t) overflow); [reflexivity | lia].
Qed.

End Score.

(** ** The error of one rounding *)

Section RoundingError.
Import F64.
Local Open Scope Z_scope.

Lemma rhe_error n D : 0 < D -> 2 * Z.abs (rhe n D * D - n) <= D.
Proof.
  intros HD. destruct (rhe_cases n D HD) as (E & B & C).
  set (q := n / D) in *. set (r := n mod D) in *.
  destruct C as [[H ->]|[[H ->]|[(H & _ & ->)|(H & _ & ->)]]].
  - replace (q * D - n) with (- r) by lia. lia.
  - replace ((q + 1) * D - n) with (D - r) by lia. lia.
  - replace (q * D - n) with (- r) by lia. lia.
  - replace ((q + 1) * D - n) with (D - r) by lia. lia.
Qed.

(** Rounding to the grid moves a quotient by at most half a grid step. *)
Lemma round_ratio_error n d :
  0 <= n -> 0 < d ->
  2 * Z.abs (round_ratio n d * d - n) <= d * 2 ^ grid_exp (n / d).
Proof.
  intros Hn Hd. unfold round_ratio.
  set (p := grid_exp (n / d)).
  pose proof (pow2_grid_pos (n / d)) as HP. fold p in HP.
  pose proof (rhe_error n (d * 2 ^ p) ltac:(nia)) as H.
  replace (rhe n (d * 2 ^ p) * 2 ^ p * d) with (rhe n (d * 2 ^ p) * (d * 2 ^ p)) by ring.
  exact H.
Qed.

(** Above the subnormal range the relative error is at most [2^-53]. *)
Lemma round_ratio_relative n d :
  0 <= n -> 0 < d -> 0 < grid_exp (n / d) ->
  2 ^ 53 * Z.abs (round_ratio n d * d - n) <= n.
Proof.
  intros Hn Hd Hp.
  pose proof (round_ratio_error n d Hn Hd) as He.
  pose proof (grid_exp_le (n / d) Hp) as Hg.
  pose proof (grid_exp_nonneg (n / d)) as H0.
  rewrite Z.pow_add_r in Hg by lia.
  pose proof (Z.mul_div_le n d Hd) as Hq.
  set (P := 2 ^ grid_exp (n / d)) in *. set (x := n / d) in *.
  set (a := Z.abs (round_ratio n d * d - n)) in *.
  assert (d * (P * 2 ^ 52) <= d * x) by (apply Z.mul_le_mono_nonneg_l; lia).
  assert (2 ^ 52 * (2 * a) <= 2 ^ 52 * (d * P)) by (apply Z.mul_le_mono_nonneg_l; lia).
  lia.
Qed.

End RoundingError.

Section NumberClaims.
Import F64.
Local Open Scope Z_scope.

(** C3, as stated, fails above [2^53]: [3 * 2^54 + 8] and [3] are both
    binary64 integers, the quotient [2^54 + 8/3] rounds to the binary64
    value [2^54 + 4], and the ceiling of the exact quotient is [2^54 + 3]. *)
Lemma getChunkCount_large_counterexample :
  valid (of_Z (3 * 2 ^ 54 + 8)) /\ valid (of_Z 3) /\
  has_value (of_Z (3 * 2 ^ 54 + 8)) (3 * 2 ^ 54 + 8) /\
  has_value (of_Z 3) 3 /\
  ~ (exists n, has_value (getChunkCount (of_Z (3 * 2 ^ 54 + 8)) (of_Z 3)) n /\
               (n - 1) * 3 < 3 * 2 ^ 54 + 8 <= n * 3).
Proof.
  split; [vm_compute; repeat split; congruence|].
  split; [vm_compute; repeat split; congruence|].
  split; [vm_compute; repeat split; congruence|].
  split; [vm_compute; repeat split; congruence|].
  intros (n & Hv & Hc).
  assert (E : getChunkCount (of_Z (3 * 2 ^ 54 + 8)) (of_Z 3) = Fin false ((2 ^ 54 + 4) * U))
    by (vm_compute; reflexivity).
  rewrite E in Hv. destruct Hv as [_ Hv]. cbn [signed] in Hv.
  pose proof U_pos.
  assert (n = 2 ^ 54 + 4) by nia.
  subst n. vm_compute in Hc. destruct Hc as [Hc _]. discriminate Hc.
Qed.

(** C3 (amended): for every messageCount [m] and chunkSize [c] that are
    safe integers ([0 <= m < 2^53], [0 < c < 2^53]), [getChunkCount(m, c)]
    is exactly the ceiling of [m / c]: the integer [n] with
    [(n - 1) * c < m <= n * c]. *)
Theorem getChunkCount_ceiling x y m c :
  has_value x m -> has_value y c ->
  0 <= m < 2 ^ 53 -> 0 < c < 2 ^ 53 ->
  exists n, has_value (getChunkCount x y) n /\ (n - 1) * c < m <= n * c.
Proof. apply getChunkCount_safe. Qed.

Lemma getChunkCount_ceiling_witness :
  exists n, has_value (getChunkCount (of_Z 51) (of_Z 50)) n /\ (n - 1) * 50 < 51 <= n * 50.
Proof.
  apply (getChunkCount_ceiling (of_Z 51) (of_Z 50) 51 50).
  - vm_compute. split; [discriminate | reflexivity].
  - vm_compute. split; [discriminate | reflexivity].
  - vm_compute. split; [discriminate | reflexivity].
  - vm_compute. split; reflexivity.
Defined.

(** C4, as stated, fails: for the distance [2^-53] the sum [1 + d]
    rounds to [1] and the score is [1], while [1 / (1 + d)] is not [1];
    the binary64 value nearest to it is [1 - 2^-53]. *)
Lemma normalizeScore_inexact_counterexample :
  is_distance (Fin false (2 ^ 1021)) /\
  normalizeScore (Fin false (2 ^ 1021)) = one /\
  ~ is_reciprocal (normalizeScore (Fin false (2 ^ 1021))) (Fin false (2 ^ 1021)) /\
  pack false (round_ratio (U * U) (U + 2 ^ 1021)) = Fin false (U - 2 ^ 1021).
Proof.
  split; [vm_compute; repeat split; congruence|].
  split; [vm_compute; reflexivity|].
  split; [|vm_compute; reflexivity].
  intros H. vm_compute in H. discriminate H.
Qed.

(** The two roundings of [1 / (1 + d)], for a sum [1 + d] of exact value
    [A] that rounds to [t] and a quotient that rounds to [r]. *)
Lemma two_roundings A t r V :
  0 <= r ->
  2 ^ 53 * Z.abs (t - A) <= A ->
  2 ^ 51 * Z.abs (r * t - V) <= V ->
  2 ^ 50 * Z.abs (r * A - V) <= V.
Proof.
  intros Hr Hx Hy.
  assert (Hrx : 2 ^ 53 * Z.abs (r * (t - A)) <= r * A).
  { rewrite Z.abs_mul, (Z.abs_eq r) by exact Hr.
    replace (2 ^ 53 * (r * Z.abs (t - A))) with (r * (2 ^ 53 * Z.abs (t - A))) by ring.
    apply Z.mul_le_mono_nonneg_l; assumption. }
  assert (Hid : r * A - V = (r * t - V) - r * (t - A)) by ring.
  rewrite Hid.
  set (a := r * (t - A)) in *. set (y := r * t - V) in *. set (W := r * A) in *.
  lia.
Qed.

(** C4 (amended): for every distance [d] (a finite number not below
    zero), [normalizeScore(d)] is the binary64 result of [1 / (1 + d)],
    which is the quotient up to a relative error of [2^-50] (the sum and
    the division are each rounded); it lies in the half-open interval
    (0, 1], and [normalizeScore(0)] is [1]. *)
Theorem normalizeScore_reciprocal d :
  is_distance d ->
  reciprocal_within 50 (normalizeScore d) d /\
  ltb zero (normalizeScore d) = true /\
  leb (normalizeScore d) one = true /\
  normalizeScore zero = one.
Proof.
  intros Hd. pose proof U_pos as HU.
  destruct (one_plus_distance d Hd) as (k & t & Hk & Hdk & Et & Ea & Ht).
  destruct (one_over t Ht) as (Ed & Hr).
  unfold normalizeScore. rewrite Ea, Ed. cbn [ltb leb zero one signed].
  split; [|split; [apply Z.ltb_lt; lia|split; [apply Z.leb_le; lia|vm_compute; reflexivity]]].
  assert (Hs : exists s, d = Fin s k /\ signed s k = k).
  { destruct Hdk as [->|[-> ->]]; [exists false | exists true]; split; reflexivity. }
  destruct Hs as (s & -> & Hs). unfold reciprocal_within. rewrite Hs. cbn [signed].
  (* the sum *)
  assert (E1 : 2 ^ 53 * Z.abs (t - (U + k)) <= U + k).
  { pose proof (round_ratio_relative (U + k) 1 ltac:(lia) ltac:(lia)) as H.
    rewrite Z.div_1_r, Z.mul_1_r, <- Et in H. apply H.
    apply Z.lt_le_trans with (grid_exp U); [vm_compute; reflexivity|].
    apply grid_exp_mono. lia. }
  (* the quotient *)
  set (V := U * U) in *.
  assert (HV : 0 <= V) by (unfold V; nia).
  assert (E2 : 2 ^ 51 * Z.abs (round_ratio V t * t - V) <= V).
  { destruct (Z_lt_le_dec 0 (grid_exp (V / t))) as [Hp|Hp].
    - pose proof (round_ratio_relative V t HV ltac:(lia) Hp). lia.
    - pose proof (round_ratio_error V t HV ltac:(lia)) as H.
      pose proof (grid_exp_nonneg (V / t)) as H0.
      replace (grid_exp (V / t)) with 0 in H by lia.
      change (2 ^ 0) with 1 in H. rewrite Z.mul_1_r in H.
      assert (Hm : 2 ^ 50 * max_mag <= V) by (vm_compute; discriminate).
      lia. }
  apply (two_roundings (U + k) t (round_ratio V t) V); [lia | exact E1 | exact E2].
Qed.

Lemma normalizeScore_reciprocal_witness :
  reciprocal_within 50 (normalizeScore (of_Z 3)) (of_Z 3) /\
  ltb zero (normalizeScore (of_Z 3)) = true /\
  leb (normalizeScore (of_Z 3)) one = true /\
  normalizeScore zero = one.
Proof.
  apply (normalizeScore_reciprocal (of_Z 3)).
  vm_compute. repeat split; congruence.
Defined.

(** C5, as stated, fails: the distances [0] and [2^-60] differ, yet
    [1 + 2^-60] rounds to [1] and both scores are [1]. *)
Lemma normalizeScore_not_strict_counterexample :
  is_distance zero /\ is_distance (Fin false (2 ^ 1014)) /\
  ltb zero (Fin false (2 ^ 1014)) = true /\
  ltb (normalizeScore (Fin false (2 ^ 1014))) (normalizeScore zero) = false.
Proof. vm_compute. repeat split; congruence. Qed.

(** C5 (amended): for distances [d1 < d2] the score does not increase:
    [normalizeScore(d1) >= normalizeScore(d2)]. *)
Theorem normalizeScore_antitone d1 d2 :
  is_distance d1 -> is_distance d2 -> ltb d1 d2 = true ->
  leb (normalizeScore d2) (normalizeScore d1) = true.
Proof.
  intros H1 H2 Hlt. pose proof U_pos as HU.
  destruct (one_plus_distance d1 H1) as (k1 & t1 & Hk1 & Hd1 & Et1 & Ea1 & Ht1).
  destruct (one_plus_distance d2 H2) as (k2 & t2 & Hk2 & Hd2 & Et2 & Ea2 & Ht2).
  destruct (one_over t1 Ht1) as (Ed1 & Hr1).
  destruct (one_over t2 Ht2) as (Ed2 & Hr2).
  assert (Hk : k1 <= k2).
  { destruct Hd1 as [->|[-> ->]], Hd2 as [->|[-> ->]]; cbn in Hlt;
      try apply Z.ltb_lt in Hlt; lia. }
  assert (Ht : t1 <= t2) by (subst t1 t2; apply round_ratio_mono; lia).
  unfold normalizeScore. rewrite Ea1, Ea2, Ed1, Ed2. cbn [leb signed].
  apply Z.leb_le. apply round_ratio_mono; nia.
Qed.

Lemma normalizeScore_antitone_witness :
  leb (normalizeScore (of_Z 3)) (normalizeScore one) = true.
Proof.
  apply (normalizeScore_antitone one (of_Z 3)).
  - vm_compute. repeat split; congruence.
  - vm_compute. repeat split; congruence.
  - vm_compute. reflexivity.
Defined.

End NumberClaims.

(** ** JavaScript string operations *)

Section StringFacts.

Lemma startsWith_app p t : startsWith p (p ++ t) = true.
Proof. induction p as [|a p IH]; [reflexivity|]. cbn. rewrite N.eqb_refl. exact IH. Qed.

Lemma startsWith_true p s : startsWith p s = true -> exists t, s = p ++ t.
Proof.
  revert s. induction p as [|a p IH]; intros s H; [exists s; reflexivity|].
  destruct s as [|b s]; [discriminate|]. cbn in H.
  apply andb_prop in H as [Hab H]. apply N.eqb_eq in Hab. subst b.
  destruct (IH s H) as [t ->]. exists t. reflexivity.
Qed.

Lemma startsWith_short p x y :
  startsWith p (x ++ y) = true -> length p <= length x -> startsWith p x = true.
Proof.
  revert x. induction p as [|a p IH]; intros x H L; [reflexivity|].
  destruct x as [|b x]; [cbn in L; lia|]. cbn in H |- *.
  apply andb_prop in H as [Hab H]. rewrite Hab. cbn.
  apply IH; [exact H | cbn in L; lia].
Qed.

Lemma startsWith_head a p b s : startsWith (a :: p) (b :: s) = true -> a = b.
Proof. cbn. intros H. apply andb_prop in H as [H _]. apply N.eqb_eq in H. exact H. Qed.

Lemma includes_cons p c s :
  includes p (c :: s) = startsWith p (c :: s) || includes p s.
Proof. reflexivity. Qed.

(** No occurrence at all means no occurrence at any split point. *)
Lemma includes_false_at p s1 s2 :
  includes p (s1 ++ s2) = false -> startsWith p s2 = false.
Proof.
  induction s1 as [|c s1 IH]; cbn [app].
  - destruct s2; cbn; intros H; apply orb_false_elim in H as [H _]; exact H.
  - rewrite includes_cons. intros H. apply orb_false_elim in H as [_ H]. auto.
Qed.

Lemma includes_false_tail p s1 s2 :
  includes p (s1 ++ s2) = false -> includes p s2 = false.
Proof.
  induction s1 as [|c s1 IH]; cbn [app]; [auto|].
  rewrite includes_cons. intros H. apply orb_false_elim in H as [_ H]. auto.
Qed.

Lemma includes_true p s :
  includes p s = true -> exists s1 s2, s = s1 ++ p ++ s2.
Proof.
  induction s as [|c s IH].
  - cbn. rewrite orb_false_r. intros H. apply startsWith_true in H as [t ->].
    exists [], t. reflexivity.
  - rewrite includes_cons. intros H. apply orb_prop in H as [H|H].
    + apply startsWith_true in H as [t ->]. exists [], t. reflexivity.
    + destruct (IH H) as (s1 & s2 & ->). exists (c :: s1), s2. reflexivity.
Qed.

Lemma includes_app_r p s1 s2 : includes p (s1 ++ p ++ s2) = true.
Proof.
  induction s1 as [|c s1 IH]; cbn [app].
  - destruct (p ++ s2) eqn:E; cbn; rewrite <- ?E, startsWith_app; reflexivity.
  - rewrite includes_cons, IH. apply orb_true_r.
Qed.

(** A prefix free of the first code unit of [p] cannot host an occurrence. *)
Lemma includes_skip a p x z :
  forallb (fun c => negb (c =? a)%N) x = true ->
  includes (a :: p) (x ++ z) = includes (a :: p) z.
Proof.
  induction x as [|c x IH]; [reflexivity|]. cbn [forallb app].
  intros H. apply andb_prop in H as [Hc Hx].
  rewrite includes_cons, (IH Hx).
  replace (startsWith (a :: p) (c :: x ++ z)) with false; [reflexivity|].
  cbn. rewrite N.eqb_sym. apply negb_true_iff in Hc. rewrite Hc. reflexivity.
Qed.

(** With no occurrence inside [w], an occurrence that starts in [w] and
    runs into what follows starts in its last [length p - 1] code units. *)
Lemma occurrence_straddles p w1 w2 y :
  includes p (w1 ++ w2) = false -> startsWith p (w2 ++ y) = true ->
  length w2 < length p.
Proof.
  intros Hn Hs. destruct (Nat.lt_ge_cases (length w2) (length p)) as [|L]; [assumption|].
  apply startsWith_short in Hs; [|exact L].
  apply includes_false_at in Hn. congruence.
Qed.

Lemma split_from_skip sep cur x y :
  split_from sep (length x) cur (x ++ y) = split_from sep 0 cur y.
Proof. induction x as [|c x IH]; [reflexivity|]. cbn. exact IH. Qed.

(** The leftmost occurrence of the separator ends the first piece. *)
Lemma split_from_first sep cur a b :
  sep <> [] ->
  (forall a1 a2, a = a1 ++ a2 -> a2 <> [] -> startsWith sep (a2 ++ sep ++ b) = false) ->
  split_from sep 0 cur (a ++ sep ++ b) = (rev cur ++ a) :: split_from sep 0 [] b.
Proof.
  intros Hsep. revert cur. induction a as [|c a IH]; intros cur Hfree.
  - cbn [app]. destruct sep as [|s0 sep]; [contradiction|].
    pose proof (startsWith_app (s0 :: sep) b) as E.
    cbn [app split_from] in E |- *. rewrite E.
    rewrite app_nil_r. f_equal.
    cbn [length]. rewrite Nat.sub_succ, Nat.sub_0_r. apply split_from_skip.
  - pose proof (Hfree [] (c :: a) eq_refl ltac:(discriminate)) as E.
    cbn [app split_from] in E |- *. rewrite E.
    rewrite IH.
    + cbn [rev]. rewrite <- app_assoc. reflexivity.
    + intros a1 a2 -> Hne. apply (Hfree (c :: a1) a2); [reflexivity | exact Hne].
Qed.

Lemma split_from_none sep cur s :
  sep <> [] -> includes sep s = false -> split_from sep 0 cur s = [rev cur ++ s].
Proof.
  intros Hsep. revert cur. induction s as [|c s IH]; intros cur Hn.
  - cbn. rewrite app_nil_r. reflexivity.
  - rewrite includes_cons in Hn. apply orb_false_elim in Hn as [Hs Hn].
    cbn [split_from]. rewrite Hs, (IH _ Hn). cbn [rev].
    rewrite <- app_assoc. reflexivity.
Qed.

Lemma split_first sep a b :
  sep <> [] ->
  (forall a1 a2, a = a1 ++ a2 -> a2 <> [] -> startsWith sep (a2 ++ sep ++ b) = false) ->
  split sep (a ++ sep ++ b) = a :: split sep b.
Proof.
  intros Hsep Hfree. destruct sep as [|s0 sep]; [contradiction|].
  unfold split. apply (split_from_first (s0 :: sep) [] a b Hsep Hfree).
Qed.

Lemma split_none sep s :
  sep <> [] -> includes sep s = false -> split sep s = [s].
Proof.
  intros Hsep Hn. destruct sep as [|s0 sep]; [contradiction|].
  unfold split. apply (split_from_none (s0 :: sep) [] s Hsep Hn).
Qed.

End StringFacts.

(** ** Trimming *)

Section TrimFacts.

Lemma drop_while_length p s : length (drop_while p s) <= length s.
Proof. induction s as [|c s IH]; cbn; [lia|]. destruct (p c); cbn; lia. Qed.

Lemma drop_while_all p x y :
  forallb p x = true -> drop_while p (x ++ y) = drop_while p y.
Proof.
  induction x as [|c x IH]; [reflexivity|]. cbn. intros H.
  apply andb_prop in H as [-> H]. auto.
Qed.

Lemma drop_while_some p x y :
  drop_while p x <> [] -> drop_while p (x ++ y) = drop_while p x ++ y.
Proof.
  induction x as [|c x IH]; cbn; [contradiction|].
  destruct (p c); [exact IH | reflexivity].
Qed.

Lemma drop_while_nil p x : drop_while p x = [] -> forallb p x = true.
Proof.
  induction x as [|c x IH]; [reflexivity|]. cbn.
  destruct (p c); [exact IH | discriminate].
Qed.

Lemma trim_cons_space c s : is_white_space c = true -> trim (c :: s) = trim s.
Proof. intros H. unfold trim, trimStart. cbn. rewrite H. reflexivity. Qed.

Lemma trimEnd_snoc_space s c : is_white_space c = true -> trimEnd (s ++ [c]) = trimEnd s.
Proof. intros H. unfold trimEnd. rewrite rev_app_distr. cbn. rewrite H. reflexivity. Qed.

Lemma trim_snoc_space s c : is_white_space c = true -> trim (s ++ [c]) = trim s.
Proof.
  intros H. unfold trim, trimStart.
  destruct (drop_while is_white_space s) eqn:E.
  - apply drop_while_nil in E. rewrite (drop_while_all _ _ _ E).
    cbn. rewrite H. reflexivity.
  - rewrite drop_while_some by (rewrite E; discriminate).
    rewrite E. apply trimEnd_snoc_space. exact H.
Qed.

Lemma trimmed_intro s :
  (forall c s', s = c :: s' -> is_white_space c = false) ->
  (forall d r, rev s = d :: r -> is_white_space d = false) ->
  trim s = s.
Proof.
  intros Hh Hl. unfold trim, trimStart, trimEnd.
  assert (E : drop_while is_white_space s = s).
  { destruct s as [|c s']; [reflexivity|]. cbn. rewrite (Hh c s' eq_refl). reflexivity. }
  rewrite E.
  assert (E' : drop_while is_white_space (rev s) = rev s).
  { destruct (rev s) as [|d r] eqn:Er; [reflexivity|]. cbn.
    rewrite (Hl d r eq_refl). reflexivity. }
  rewrite E'. apply rev_involutive.
Qed.

Lemma trim_length s : length (trim s) <= length s.
Proof.
  unfold trim, trimEnd, trimStart. rewrite length_rev.
  pose proof (drop_while_length is_white_space (rev (drop_while is_white_space s))).
  rewrite length_rev in H.
  pose proof (drop_while_length is_white_space s). lia.
Qed.

Lemma trimmed_head s c s' : trim s = s -> s = c :: s' -> is_white_space c = false.
Proof.
  intros Ht ->. destruct (is_white_space c) eqn:E; [|reflexivity].
  rewrite trim_cons_space in Ht by exact E.
  pose proof (trim_length s'). rewrite Ht in H. cbn in H. lia.
Qed.

Lemma trimmed_last s d r : trim s = s -> rev s = d :: r -> is_white_space d = false.
Proof.
  intros Ht Hr. destruct (is_white_space d) eqn:E; [|reflexivity].
  assert (Es : s = rev r ++ [d]).
  { rewrite <- (rev_involutive s), Hr. reflexivity. }
  rewrite Es in Ht. rewrite trim_snoc_space in Ht by exact E.
  pose proof (trim_length (rev r)). rewrite Ht in H.
  rewrite length_app in H. cbn in H. lia.
Qed.

(** A string that begins and ends with trimmed, non-empty strings is
    trimmed. *)
Lemma trimmed_sandwich x m y :
  x <> [] -> y <> [] -> trim x = x -> trim y = y ->
  trim (x ++ m ++ y) = x ++ m ++ y.
Proof.
  intros Hx Hy Tx Ty. apply trimmed_intro.
  - intros c s' E. destruct x as [|c0 x']; [contradiction|].
    injection E as -> _. apply (trimmed_head _ _ _ Tx eq_refl).
  - intros d r E. rewrite !rev_app_distr in E.
    destruct (rev y) as [|d0 ry] eqn:Ey.
    + exfalso. apply Hy. rewrite <- (rev_involutive y), Ey. reflexivity.
    + rewrite <- !app_assoc in E. cbn in E. injection E as -> _.
      apply (trimmed_last _ _ _ Ty Ey).
Qed.

End TrimFacts.

(** ** The regular-expression matcher *)

Section RegexFacts.
Import Regex.

Lemma mstate_eta st : MState (pos st) (rest st) (caps st) = st.
Proof. destruct st; reflexivity. Qed.

Lemma clear_nil st : clear [] st = st.
Proof. unfold clear. cbn. apply mstate_eta. Qed.

(** The defining equations of the matcher, for rewriting one step at a time. *)
Lemma matcher_chr p st k :
  matcher (Chr p) st k =
  match rest st with
  | c :: s' => if p c then k (MState (S (pos st)) s' (caps st)) else None
  | [] => None
  end.
Proof. reflexivity. Qed.

Lemma matcher_seq r1 r2 st k :
  matcher (Seq r1 r2) st k = matcher r1 st (fun st' => matcher r2 st' k).
Proof. reflexivity. Qed.

Lemma matcher_alt r1 r2 st k :
  matcher (Alt r1 r2) st k =
  match matcher r1 st k with Some z => Some z | None => matcher r2 st k end.
Proof. reflexivity. Qed.

Lemma matcher_star g r st k :
  matcher (Star g r) st k =
  repeat_matcher (matcher r) (groups r) g k (length (rest st)) st.
Proof. reflexivity. Qed.

Lemma matcher_group i r st k :
  matcher (Group i r) st k =
  matcher r st (fun st' =>
    k (MState (pos st') (rest st')
         (<[i := take (pos st' - pos st) (rest st)]> (caps st')))).
Proof. reflexivity. Qed.

Lemma matcher_bol st k :
  matcher Bol st k = if (pos st =? 0)%nat then k st else None.
Proof. reflexivity. Qed.

Lemma matcher_eps st k : matcher Eps st k = k st.
Proof. reflexivity. Qed.

Lemma repeat_matcher_S body gs k n st :
  repeat_matcher body gs true k (S n) st =
  match body (clear gs st)
          (fun st' => if (pos st' =? pos st)%nat then None
                      else repeat_matcher body gs true k n st') with
  | Some z => Some z
  | None => k st
  end.
Proof. reflexivity. Qed.

(** A literal matches exactly when the input starts with it. *)
Lemma matcher_lit w st k :
  matcher (lit w) st k =
  if startsWith w (rest st)
  then k (MState (pos st + length w) (drop (length w) (rest st)) (caps st))
  else None.
Proof.
  revert st. induction w as [|a w IH]; intros st.
  - cbn. rewrite Nat.add_0_r, mstate_eta. reflexivity.
  - cbn [lit foldr]. fold (lit w). unfold chr. rewrite matcher_seq, matcher_chr.
    destruct (rest st) as [|c s'] eqn:E; [reflexivity|].
    cbn [startsWith]. destruct (a =? c)%N; [|reflexivity].
    rewrite IH. cbn [pos rest caps andb length drop].
    rewrite Nat.add_succ_r. reflexivity.
Qed.

Lemma matcher_lit_i w st k :
  matcher (lit_i w) st k =
  if startsWith_i w (rest st)
  then k (MState (pos st + length w) (drop (length w) (rest st)) (caps st))
  else None.
Proof.
  revert st. induction w as [|a w IH]; intros st.
  - cbn. rewrite Nat.add_0_r, mstate_eta. reflexivity.
  - cbn [lit_i foldr]. fold (lit_i w). unfold chr_i. rewrite matcher_seq, matcher_chr.
    destruct (rest st) as [|c s'] eqn:E; [reflexivity|].
    cbn [startsWith_i]. unfold canonicalize.
    destruct (upper c =? upper a)%N; [|reflexivity].
    rewrite IH. cbn [pos rest caps andb length drop].
    rewrite Nat.add_succ_r. reflexivity.
Qed.

(** [^] fails everywhere but at index 0. *)
Lemma exec_from_bol r i s : i <> 0 -> exec_from (Seq Bol r) i s = None.
Proof.
  revert i. induction s as [|c s IH]; intros i Hi; cbn.
  - destruct (Nat.eqb_spec i 0); [contradiction | reflexivity].
  - destruct (Nat.eqb_spec i 0); [contradiction|]. apply IH. lia.
Qed.

Lemma exec_bol r s :
  exec (Seq Bol r) s =
  match matcher r (MState 0 s ∅) Some with
  | Some st => Some (MatchResult 0 st)
  | None => None
  end.
Proof.
  unfold exec. destruct s as [|c s]; cbn.
  - destruct (matcher r _ Some); reflexivity.
  - destruct (matcher r _ Some); [reflexivity|]. apply exec_from_bol. lia.
Qed.

(** A pattern that begins with a case-insensitive literal matches only
    where the literal occurs. *)
Lemma exec_from_lit_i w r i s :
  includes_i w s = false -> exec_from (Seq (lit_i w) r) i s = None.
Proof.
  revert i. induction s as [|c s IH]; intros i H.
  - cbn [exec_from]. rewrite matcher_seq, matcher_lit_i. cbn [rest].
    cbn in H. rewrite orb_false_r in H. rewrite H. reflexivity.
  - cbn [includes_i] in H. apply orb_false_elim in H as [Hs Hi].
    cbn [exec_from]. rewrite matcher_seq, matcher_lit_i. cbn [rest].
    rewrite Hs. apply IH. exact Hi.
Qed.

(** The greedy star of a character class takes the whole run of the class
    when what follows matches there. *)
Lemma repeat_class_run p k fuel st xs tail z :
  rest st = xs ++ tail ->
  forallb p xs = true ->
  match tail with c :: _ => p c = false | [] => True end ->
  length (rest st) <= fuel ->
  k (MState (pos st + length xs) tail (caps st)) = Some z ->
  repeat_matcher (matcher (Chr p)) [] true k fuel st = Some z.
Proof.
  revert fuel st. induction xs as [|x xs IH]; intros fuel st Hr Hp Ht Hf Hk.
  - cbn [app length] in *. rewrite Nat.add_0_r, <- Hr, mstate_eta in Hk.
    destruct fuel as [|n]; [exact Hk|].
    rewrite repeat_matcher_S, clear_nil, matcher_chr, Hr.
    destruct tail as [|c t]; [exact Hk|]. rewrite Ht. exact Hk.
  - cbn [app length forallb] in *. apply andb_prop in Hp as [Hx Hp].
    destruct fuel as [|n]; [rewrite Hr in Hf; cbn in Hf; lia|].
    rewrite repeat_matcher_S, clear_nil, matcher_chr, Hr, Hx.
    cbn [pos]. destruct (Nat.eqb_spec (S (pos st)) (pos st)) as [E|_]; [lia|].
    rewrite (IH n (MState (S (pos st)) (xs ++ tail) (caps st))); [reflexivity| | | | |].
    + reflexivity.
    + exact Hp.
    + exact Ht.
    + cbn [rest]. rewrite Hr in Hf. cbn in Hf. lia.
    + cbn [pos caps]. rewrite <- Hk. do 2 f_equal. lia.
Qed.

(** Whatever the greedy star of a class matches is a run of the class. *)
Lemma repeat_class_sound p k fuel st z :
  repeat_matcher (matcher (Chr p)) [] true k fuel st = Some z ->
  exists xs tail,
    rest st = xs ++ tail /\ forallb p xs = true /\
    k (MState (pos st + length xs) tail (caps st)) = Some z.
Proof.
  revert st. induction fuel as [|n IH]; intros st H.
  - cbn in H. exists [], (rest st). cbn [app length forallb].
    rewrite Nat.add_0_r, mstate_eta. auto.
  - rewrite repeat_matcher_S, clear_nil, matcher_chr in H.
    destruct (rest st) as [|c s'] eqn:Er.
    + exists [], []. cbn [app length forallb].
      rewrite Nat.add_0_r, <- Er, mstate_eta. auto.
    + destruct (p c) eqn:Ec.
      * cbn [pos] in H.
        destruct (Nat.eqb_spec (S (pos st)) (pos st)) as [E|_]; [lia|].
        destruct (repeat_matcher _ _ _ _ n _) eqn:Eq.
        -- injection H as <-. apply IH in Eq as (xs & tail & Hr & Hp & Hk).
           cbn [rest pos caps] in *. exists (c :: xs), tail.
           cbn [app length forallb]. rewrite Hr, Ec, Hp.
           split; [reflexivity|]. split; [reflexivity|].
           rewrite <- Hk. do 2 f_equal. lia.
        -- exists [], (c :: s'). cbn [app length forallb].
           rewrite Nat.add_0_r, <- Er, mstate_eta. auto.
      * exists [], (c :: s'). cbn [app length forallb].
        rewrite Nat.add_0_r, <- Er, mstate_eta. auto.
Qed.

(** [.+] on a line: it takes the line up to its terminator. *)
Lemma matcher_plus_dot_run c t tail st k z :
  rest st = c :: t ++ tail ->
  is_line_terminator c = false ->
  forallb (fun c => negb (is_line_terminator c)) t = true ->
  match tail with d :: _ => is_line_terminator d = true | [] => True end ->
  k (MState (pos st + S (length t)) tail (caps st)) = Some z ->
  matcher (plus dot) st k = Some z.
Proof.
  intros Hr Hc Ht Htail Hk. unfold plus, dot.
  rewrite matcher_seq, matcher_chr, Hr, Hc. cbn [negb]. rewrite matcher_star.
  cbn [groups rest].
  apply (repeat_class_run _ k _ _ t tail z); cbn [rest pos caps].
  - reflexivity.
  - exact Ht.
  - destruct tail; [exact I|]. rewrite Htail. reflexivity.
  - reflexivity.
  - rewrite <- Hk. do 2 f_equal. lia.
Qed.

Lemma matcher_plus_dot_sound st k z :
  matcher (plus dot) st k = Some z ->
  exists c t tail,
    rest st = c :: t ++ tail /\ is_line_terminator c = false /\
    forallb (fun c => negb (is_line_terminator c)) t = true /\
    k (MState (pos st + S (length t)) tail (caps st)) = Some z.
Proof.
  unfold plus, dot. rewrite matcher_seq, matcher_chr. intros H.
  destruct (rest st) as [|c s'] eqn:Er; [discriminate|].
  destruct (is_line_terminator c) eqn:Ec; [discriminate|]. cbn [negb] in H.
  rewrite matcher_star in H. cbn [groups] in H.
  apply repeat_class_sound in H as (xs & tail & Hr & Hp & Hk).
  cbn [rest pos caps] in *. exists c, xs, tail. rewrite Hr.
  split; [reflexivity|]. split; [exact Ec|]. split; [exact Hp|].
  rewrite <- Hk. do 2 f_equal. lia.
Qed.

End RegexFacts.

(** ** The two heading patterns of [parseMemoryMarkdown] *)

Section HeadingFacts.
Import Regex.

Lemma title_regex_heading t r :
  t <> [] -> forallb (fun c => negb (is_line_terminator c)) t = true ->
  exec title_regex (str "# " ++ t ++ LF :: r) ≫= capture 1 = Some t.
Proof.
  intros Hne Ht. destruct t as [|c t]; [contradiction|].
  cbn [forallb] in Ht. apply andb_prop in Ht as [Hc Ht].
  apply negb_true_iff in Hc.
  unfold title_regex. rewrite exec_bol, matcher_seq, matcher_lit. cbn [rest pos caps].
  rewrite startsWith_app, drop_app_length, matcher_seq, matcher_group.
  rewrite (matcher_plus_dot_run c t (LF :: r) _ _
             (MState (S (length (str "# ") + S (length t))) r (<[1%nat := c :: t]> ∅)));
    cbn [rest pos caps].
  - unfold capture. cbn [mbind option_bind final caps]. apply lookup_insert_eq.
  - reflexivity.
  - exact Hc.
  - exact Ht.
  - reflexivity.
  - unfold chr. rewrite matcher_chr. cbn [rest]. rewrite N.eqb_refl. cbn [pos caps].
    replace (0 + length (str "# ") + S (length t) - (0 + length (str "# ")))
      with (length (c :: t)) by (cbn [length]; lia).
    change (c :: t ++ LF :: r) with ((c :: t) ++ LF :: r).
    rewrite take_app_length. reflexivity.
Qed.

Lemma heading_regex_heading t r :
  t <> [] -> forallb (fun c => negb (is_line_terminator c)) t = true ->
  replace_first_empty heading_regex (str "# " ++ t ++ LF :: r) =
  match r with
  | d :: r' => if (LF =? d)%N then r' else r
  | [] => r
  end.
Proof.
  intros Hne Ht. destruct t as [|c t]; [contradiction|].
  cbn [forallb] in Ht. apply andb_prop in Ht as [Hc Ht].
  apply negb_true_iff in Hc.
  unfold replace_first_empty, heading_regex.
  rewrite exec_bol, matcher_seq, matcher_lit. cbn [rest pos caps].
  rewrite startsWith_app, drop_app_length, matcher_seq.
  rewrite (matcher_plus_dot_run c t (LF :: r) _ _
             (match r with
              | d :: r' =>
                  if (LF =? d)%N
                  then MState (S (S (length (str "# ") + S (length t)))) r' ∅
                  else MState (S (length (str "# ") + S (length t))) r ∅
              | [] => MState (S (length (str "# ") + S (length t))) r ∅
              end));
    cbn [rest pos caps].
  - cbn [index final take app]. destruct r as [|d r']; [reflexivity|].
    destruct (LF =? d)%N; reflexivity.
  - reflexivity.
  - exact Hc.
  - exact Ht.
  - reflexivity.
  - unfold opt, chr. rewrite matcher_seq, matcher_chr. cbn [rest].
    rewrite N.eqb_refl. rewrite matcher_alt, matcher_chr. cbn [rest pos caps].
    destruct r as [|d r']; [reflexivity|].
    destruct (LF =? d)%N; reflexivity.
Qed.

(** Both patterns match only a body that begins with a heading line. *)
Lemma heading_prefix_sound body (r : regex) z :
  matcher (Seq (lit (str "# ")) (Seq (plus dot) (Seq (chr LF) r)))
    (MState 0 body ∅) Some = Some z ->
  begins_with_heading body.
Proof.
  rewrite matcher_seq, matcher_lit. cbn [rest pos caps]. intros H.
  destruct (startsWith (str "# ") body) eqn:Es; [|discriminate].
  apply startsWith_true in Es as [x ->].
  rewrite drop_app_length, matcher_seq in H.
  apply matcher_plus_dot_sound in H as (c & t & tail & Hr & Hc & Ht & Hk).
  cbn [rest pos caps] in *. subst x.
  unfold chr in Hk. rewrite matcher_seq, matcher_chr in Hk. cbn [rest] in Hk.
  destruct tail as [|d tail]; [discriminate|].
  destruct (N.eqb_spec LF d) as [<-|]; [|discriminate].
  exists (c :: t), tail. split; [discriminate|]. split; [|reflexivity].
  cbn [forallb]. rewrite Hc, Ht. reflexivity.
Qed.

Lemma title_regex_sound body m :
  exec title_regex body = Some m -> begins_with_heading body.
Proof.
  unfold title_regex. rewrite exec_bol. intros H.
  destruct (matcher _ _ Some) as [z|] eqn:E; [clear H|discriminate].
  rewrite matcher_seq, matcher_lit in E. cbn [rest pos caps] in E.
  destruct (startsWith (str "# ") body) eqn:Es; [|discriminate].
  apply startsWith_true in Es as [x ->].
  rewrite drop_app_length, matcher_seq, matcher_group in E.
  apply matcher_plus_dot_sound in E as (c & t & tail & Hr & Hc & Ht & Hk).
  cbn [rest pos caps] in *. subst x.
  unfold chr in Hk. rewrite matcher_chr in Hk. cbn [rest] in Hk.
  destruct tail as [|d tail]; [discriminate|].
  destruct (N.eqb_spec LF d) as [<-|]; [|discriminate].
  exists (c :: t), tail. split; [discriminate|]. split; [|reflexivity].
  cbn [forallb]. rewrite Hc, Ht. reflexivity.
Qed.

Lemma heading_regex_sound body m :
  exec heading_regex body = Some m -> begins_with_heading body.
Proof.
  unfold heading_regex. rewrite exec_bol. intros H.
  destruct (matcher _ _ Some) as [z|] eqn:E; [|discriminate].
  exact (heading_prefix_sound body _ z E).
Qed.

Lemma title_regex_no_heading body :
  ~ begins_with_heading body -> exec title_regex body = None.
Proof.
  intros Hn. destruct (exec title_regex body) as [m|] eqn:E; [|reflexivity].
  exfalso. exact (Hn (title_regex_sound body m E)).
Qed.

Lemma heading_regex_no_heading body :
  ~ begins_with_heading body -> replace_first_empty heading_regex body = body.
Proof.
  intros Hn. unfold replace_first_empty.
  destruct (exec heading_regex body) as [m|] eqn:E; [|reflexivity].
  exfalso. exact (Hn (heading_regex_sound body m E)).
Qed.

End HeadingFacts.

(** ** The footer *)

Section FooterFacts.

Lemma format_shape n :
  formatMemoryMarkdown n = format_body n ++ separator ++ format_footer n.
Proof.
  unfold formatMemoryMarkdown, format_body, format_footer, separator.
  change (str "tags: ") with (str "tags" ++ str ": ").
  change (str "created: ") with (str "created" ++ str ": ").
  change (str "updated: ") with (str "updated" ++ str ": ").
  change (str "deleted: ") with (str "deleted" ++ str ": ").
  cbn [join]. repeat first [rewrite <- app_assoc | progress cbn [app]]. reflexivity.
Qed.

Lemma one_line_app x y : one_line (x ++ y) = one_line x && one_line y.
Proof. unfold one_line. apply forallb_app. Qed.

Lemma one_line_includes x : one_line x = true -> includes [LF] x = false.
Proof.
  induction x as [|c x IH]; [reflexivity|]. unfold one_line in *. cbn [forallb].
  intros H. apply andb_prop in H as [Hc Hx]. rewrite includes_cons, (IH Hx).
  cbn [startsWith]. rewrite N.eqb_sym. apply negb_true_iff in Hc. rewrite Hc. reflexivity.
Qed.

(** Splitting into lines. *)
Lemma split_line x r :
  one_line x = true -> split [LF] (x ++ LF :: r) = x :: split [LF] r.
Proof.
  intros Hx. apply (split_first [LF] x r); [discriminate|].
  intros a1 a2 -> Hne. destruct a2 as [|c a2]; [contradiction|].
  rewrite one_line_app in Hx. apply andb_prop in Hx as [_ Hx].
  unfold one_line in Hx. cbn [forallb] in Hx. apply andb_prop in Hx as [Hc _].
  cbn [app startsWith]. rewrite N.eqb_sym. apply negb_true_iff in Hc. rewrite Hc. reflexivity.
Qed.

Lemma split_last_line x : one_line x = true -> split [LF] x = [x].
Proof. intros Hx. apply split_none; [discriminate | apply one_line_includes, Hx]. Qed.

Lemma indexOf_char c key r :
  forallb (fun x => negb (x =? c)%N) key = true ->
  indexOf [c] (key ++ c :: r) = Some (length key).
Proof.
  induction key as [|k key IH]; cbn [forallb app length].
  - intros _. cbn [indexOf startsWith]. rewrite N.eqb_refl. reflexivity.
  - intros H. apply andb_prop in H as [Hk Hkey]. cbn [indexOf startsWith].
    rewrite N.eqb_sym. apply negb_true_iff in Hk. rewrite Hk. cbn [andb].
    rewrite (IH Hkey). reflexivity.
Qed.

(** A [key: value] line sets the key to the trimmed value. *)
Lemma parseFrontmatter_key_value key v m :
  key <> [] -> trim key = key ->
  forallb (fun x => negb (x =? 58)%N) key = true ->
  parseFrontmatter_line m (key ++ str ": " ++ v) = set_property key (trim v) m.
Proof.
  intros Hne Ht Hc. unfold parseFrontmatter_line.
  change (str ": " ++ v) with (58%N :: 32%N :: v).
  change (str ":") with [58%N].
  rewrite (indexOf_char 58 key (32%N :: v) Hc).
  assert (Hlen : (0 <? length key)%nat = true)
    by (destruct key; [contradiction | reflexivity]).
  rewrite Hlen. unfold slice, slice_from.
  rewrite Nat.sub_0_r, drop_0, take_app_length, Ht.
  replace (key ++ 58%N :: 32%N :: v) with ((key ++ [58%N]) ++ 32%N :: v)
    by (rewrite <- app_assoc; reflexivity).
  replace (length key + 1) with (length (key ++ [58%N]))
    by (rewrite length_app; reflexivity).
  rewrite drop_app_length, trim_cons_space by reflexivity.
  reflexivity.
Qed.

(** The tags line. *)
Lemma join_cons2 sep (t t' : jsstring) ts :
  join sep (t :: t' :: ts) = t ++ sep ++ join sep (t' :: ts).
Proof. reflexivity. Qed.

Lemma join_tags_one_line ts :
  Forall valid_tag ts -> one_line (join (str ", ") ts) = true.
Proof.
  induction 1 as [|t ts (_ & _ & _ & Ht) Hts IH]; [reflexivity|].
  destruct ts as [|t' ts]; [exact Ht|].
  rewrite join_cons2, !one_line_app, Ht, IH. reflexivity.
Qed.

Lemma join_tags_ends t ts :
  Forall valid_tag (t :: ts) ->
  let j := join (str ", ") (t :: ts) in
  (forall c s', j = c :: s' -> is_white_space c = false) /\
  (forall d r, rev j = d :: r -> is_white_space d = false) /\
  j <> [].
Proof.
  revert t. induction ts as [|t' ts IH]; intros t Hv j.
  - apply Forall_cons in Hv as [(Hne & Ht & _) _]. subst j. cbn [join].
    split; [|split].
    + intros c s' E. exact (trimmed_head _ _ _ Ht E).
    + intros d r E. exact (trimmed_last _ _ _ Ht E).
    + exact Hne.
  - apply Forall_cons in Hv as [(Hne & Ht & _) Hv].
    destruct (IH t' Hv) as (_ & Hl & Hn). subst j. rewrite join_cons2.
    split; [|split].
    + intros c s' E. destruct t as [|c0 t0]; [contradiction|].
      injection E as -> _. exact (trimmed_head _ _ _ Ht eq_refl).
    + intros d r E. rewrite !rev_app_distr in E.
      destruct (rev (join (str ", ") (t' :: ts))) as [|d0 r0] eqn:Er.
      * exfalso. apply Hn. rewrite <- (rev_involutive (join _ _)), Er. reflexivity.
      * rewrite <- !app_assoc in E. cbn [app] in E. injection E as <- _.
        exact (Hl d0 r0 eq_refl).
    + destruct t; [contradiction | discriminate].
Qed.

Lemma join_tags_trimmed ts :
  Forall valid_tag ts -> trim (join (str ", ") ts) = join (str ", ") ts.
Proof.
  intros Hv. destruct ts as [|t ts]; [reflexivity|].
  destruct (join_tags_ends t ts Hv) as (Hh & Hl & _).
  apply trimmed_intro; assumption.
Qed.

Lemma split_join_tags ts :
  Forall valid_tag ts ->
  filter (fun s => truthy s = true) (split (str ", ") (join (str ", ") ts)) = ts.
Proof.
  intros Hv. destruct ts as [|t ts]; [reflexivity|].
  assert (E : split (str ", ") (join (str ", ") (t :: ts)) = t :: ts).
  { revert t Hv. induction ts as [|t' ts IH]; intros t Hv.
    - apply Forall_cons in Hv as [(_ & _ & Hi & _) _]. cbn [join].
      apply split_none; [discriminate | exact Hi].
    - apply Forall_cons in Hv as [(_ & _ & Hi & _) Hv].
      rewrite join_cons2, split_first, (IH t' Hv); [reflexivity | discriminate |].
      intros a1 a2 -> Hne.
      destruct (startsWith (str ", ") (a2 ++ str ", " ++ _)) eqn:Es; [|reflexivity].
      pose proof (occurrence_straddles _ _ _ _ Hi Es) as Hlen.
      destruct a2 as [|c [|c' a2]]; [contradiction| |cbn in Hlen; lia].
      change (str ", ") with [44%N; 32%N] in Es. cbn [app startsWith] in Es.
      rewrite andb_false_r in Es. discriminate Es. }
  rewrite E. clear E.
  induction Hv as [|t0 ts0 (Hne & _) _ IH]; [reflexivity|].
  rewrite filter_cons_True; [rewrite IH; reflexivity|].
  destruct t0; [contradiction | reflexivity].
Qed.

(** A further line at the end of a text is a further piece. *)
Lemma split_from_snoc_line cur fm line :
  one_line line = true ->
  split_from [LF] 0 cur (fm ++ LF :: line) = split_from [LF] 0 cur fm ++ [line].
Proof.
  intros Hl. revert cur. induction fm as [|c fm IH]; intros cur.
  - cbn [app split_from startsWith]. rewrite N.eqb_refl. cbn [andb length Nat.sub].
    rewrite (split_from_none [LF] [] line) by (discriminate || apply one_line_includes, Hl).
    reflexivity.
  - cbn [app split_from startsWith]. destruct (LF =? c)%N; cbn [andb length Nat.sub].
    + rewrite IH. reflexivity.
    + apply IH.
Qed.

Lemma split_snoc_line fm line :
  one_line line = true -> split [LF] (fm ++ LF :: line) = split [LF] fm ++ [line].
Proof. apply split_from_snoc_line. Qed.

End FooterFacts.

(** ** Where the separator falls in a formatted note *)

Section SeparatorFacts.

Lemma separator_skip_line x r :
  one_line x = true -> includes separator (x ++ r) = includes separator r.
Proof. intros Hx. unfold separator. apply includes_skip. exact Hx. Qed.

(** A line feed followed by a line that does not start with a dash does
    not start the separator. *)
Lemma separator_after_lf c x r :
  c <> 45%N -> one_line (c :: x) = true ->
  includes separator (LF :: (c :: x) ++ r) = includes separator r.
Proof.
  intros Hc Hx. rewrite includes_cons, (separator_skip_line _ _ Hx).
  unfold separator. change (str "---") with [45%N; 45%N; 45%N].
  cbn [app startsWith]. destruct (N.eqb_spec 45 c) as [E|_]; [congruence|].
  rewrite andb_false_r. reflexivity.
Qed.

Lemma separator_after_last_lf c x :
  c <> 45%N -> one_line (c :: x) = true -> includes separator (LF :: c :: x) = false.
Proof.
  intros Hc Hx. rewrite <- (app_nil_r (c :: x)).
  rewrite (separator_after_lf c x [] Hc Hx). reflexivity.
Qed.

Lemma no_terminator_one_line t :
  forallb (fun c => negb (is_line_terminator c)) t = true -> one_line t = true.
Proof.
  induction t as [|c t IH]; [reflexivity|]. unfold one_line in *. cbn [forallb].
  intros H. apply andb_prop in H as [Hc Ht]. rewrite (IH Ht), andb_true_r.
  destruct (N.eqb_spec c LF) as [->|]; [discriminate Hc | reflexivity].
Qed.

Lemma one_line_bool b : one_line (string_of_bool b) = true.
Proof. destruct b; reflexivity. Qed.

Section Footer.
Variable n : WrittenMemory.
Hypothesis Hn : valid_note n.

Lemma footer_lines :
  one_line (str "tags" ++ str ": " ++ join (str ", ") (tags n)) = true /\
  one_line (str "created" ++ str ": " ++ createdAt n) = true /\
  one_line (str "updated" ++ str ": " ++ updatedAt n) = true /\
  one_line (str "deleted" ++ str ": " ++ string_of_bool (deleted n)) = true.
Proof.
  destruct Hn as [_ _ _ _ Htags [_ Hc] [_ Hu]].
  rewrite !one_line_app, (join_tags_one_line _ Htags), Hc, Hu, one_line_bool.
  repeat split; reflexivity.
Qed.

Lemma footer_has_no_separator : includes separator (format_footer n) = false.
Proof.
  destruct footer_lines as (H1 & H2 & H3 & H4). unfold format_footer.
  rewrite (separator_skip_line _ _ H1).
  change (str "created") with (99%N :: str "reated") in *.
  change (str "updated") with (117%N :: str "pdated") in *.
  change (str "deleted") with (100%N :: str "eleted") in *.
  cbn [app] in H2, H3, H4.
  rewrite (separator_after_lf 99 _ _ ltac:(discriminate) H2).
  rewrite (separator_after_lf 117 _ _ ltac:(discriminate) H3).
  apply (separator_after_last_lf 100 _ ltac:(discriminate) H4).
Qed.

Lemma footer_parsed :
  parseFrontmatter (format_footer n) =
  <[str "deleted" := string_of_bool (deleted n)]>
    (<[str "updated" := updatedAt n]>
       (<[str "created" := createdAt n]>
          (<[str "tags" := join (str ", ") (tags n)]> ∅))).
Proof.
  destruct footer_lines as (H1 & H2 & H3 & H4).
  destruct Hn as [_ _ _ _ Htags [Hc _] [Hu _]].
  unfold parseFrontmatter, format_footer.
  rewrite (split_line _ _ H1), (split_line _ _ H2), (split_line _ _ H3),
    (split_last_line _ H4).
  cbn [foldl].
  rewrite !parseFrontmatter_key_value by (discriminate || reflexivity).
  rewrite (join_tags_trimmed _ Htags), Hc, Hu.
  replace (trim (string_of_bool (deleted n))) with (string_of_bool (deleted n))
    by (destruct (deleted n); reflexivity).
  unfold set_property.
  rewrite !decide_False by discriminate. reflexivity.
Qed.

(** Up to the end of the body, the separator does not start anywhere. *)
Lemma body_has_no_separator b a1 a2 :
  format_body n = a1 ++ a2 -> a2 <> [] ->
  startsWith separator (a2 ++ separator ++ b) = false.
Proof.
  destruct Hn as [_ Htitle _ Hrule _ _ _].
  unfold format_body. intros E Hne.
  change (str "# " ++ title n ++ LF :: LF :: content n ++ [LF])
    with ((35%N :: 32%N :: title n) ++ LF :: (LF :: content n ++ [LF])) in E.
  assert (Hline : one_line (35%N :: 32%N :: title n) = true).
  { change (35%N :: 32%N :: title n) with ([35%N; 32%N] ++ title n).
    rewrite one_line_app, (no_terminator_one_line _ Htitle). reflexivity. }
  destruct (startsWith separator (a2 ++ separator ++ b)) eqn:Es; [exfalso|reflexivity].
  destruct a2 as [|c a2]; [contradiction|].
  pose proof (startsWith_head _ _ _ _ Es) as <-.
  apply app_eq_inv in E as [(k & E1 & E2)|(k & E1 & E2)].
  - (* the split point lies in the heading *)
    destruct k as [|c k].
    + cbn [app] in E2. injection E2 as ->.
      unfold separator in Es. change (str "---") with [45%N; 45%N; 45%N] in Es.
      cbn [app startsWith] in Es. rewrite andb_false_r in Es. discriminate Es.
    + rewrite E1, one_line_app in Hline. apply andb_prop in Hline as [_ Hline].
      cbn [app] in E2. injection E2 as <- _. discriminate Hline.
  - (* the split point lies in the content *)
    destruct k as [|c k]; cbn [app] in E2.
    { (* the line feed that closes the heading *)
      injection E2 as E2. rewrite <- E2 in Es. unfold separator in Es.
      change (str "---") with [45%N; 45%N; 45%N] in Es.
      cbn [app startsWith] in Es. rewrite andb_false_r in Es. discriminate Es. }
    injection E2 as _ E2.
    assert (Hlast : last (LF :: a2) = Some LF).
    { assert (L : last (LF :: content n ++ [LF]) = Some LF)
        by (rewrite last_cons, last_snoc; reflexivity).
      rewrite E2, last_app in L.
      destruct (last (LF :: a2)) eqn:El; [exact L|].
      apply last_None in El. discriminate El. }
    rewrite E2 in Hrule.
    pose proof (occurrence_straddles _ _ _ _ Hrule Es) as Hlen.
    unfold separator in Es, Hlen. change (str "---") with [45%N; 45%N; 45%N] in Es, Hlen.
    cbn [app length] in Hlen.
    destruct a2 as [|c2 [|c3 [|c4 [|c5 a2]]]]; cbn [length] in Hlen; try lia;
      cbn [app startsWith] in Es; cbn in Hlast;
      repeat match type of Es with
             | (_ && _) = true => apply andb_prop in Es as [? Es]
             end;
      repeat match goal with
             | H : (_ =? _)%N = true |- _ => apply N.eqb_eq in H
             end; unfold LF in *; congruence.
Qed.

Lemma format_split :
  split separator (formatMemoryMarkdown n) = [format_body n; format_footer n].
Proof.
  rewrite format_shape, split_first.
  - rewrite split_none; [reflexivity | discriminate | exact footer_has_no_separator].
  - discriminate.
  - apply body_has_no_separator.
Qed.

End Footer.

End SeparatorFacts.

(** ** [parseMemoryMarkdown] after [formatMemoryMarkdown] *)

Section RoundTrip.

Ltac str_neq := let E := fresh in intros E; vm_compute in E; discriminate E.

Lemma valid_note_intro n : well_formed_note n -> rule_free (content n) -> valid_note n.
Proof. intros [H1 H2 H3 H4 H5 H6] Hr. constructor; assumption. Qed.

(** C1, as stated, fails: the content is stored trimmed, so a note whose
    markdown content begins with an indented code block comes back without
    the indentation. *)
Lemma round_trip_indented_counterexample :
  parseMemoryMarkdown sample_clock (formatMemoryMarkdown indented_note) (id indented_note)
  = Ok {| id := id indented_note;
          title := title indented_note;
          content := str "indented code";
          tags := tags indented_note;
          createdAt := createdAt indented_note;
          updatedAt := updatedAt indented_note;
          deleted := deleted indented_note |}
  /\ parseMemoryMarkdown sample_clock (formatMemoryMarkdown indented_note) (id indented_note)
     <> Ok indented_note.
Proof.
  assert (E : parseMemoryMarkdown sample_clock (formatMemoryMarkdown indented_note)
                (id indented_note)
     = Ok {| id := id indented_note;
          title := title indented_note;
          content := str "indented code";
          tags := tags indented_note;
          createdAt := createdAt indented_note;
          updatedAt := updatedAt indented_note;
          deleted := deleted indented_note |}) by (vm_compute; reflexivity).
  split; [exact E|]. rewrite E. intros H. vm_compute in H. discriminate H.
Qed.

(** C1 (amended): a note round-trips, [parseMemoryMarkdown(formatMemoryMarkdown(n), n.id) == n]
    with title, content, tags, timestamps and tombstone preserved, when its
    title is a non-empty single line, its content has no white space around
    it, each tag is non-empty, has no white space around it, no [", "]
    inside and no line feed, and its timestamps are single lines without
    white space around them (as every ISO-8601 timestamp is).  The
    statement is about content without a line that reads [---]; on content
    with such a line it is silent. *)
Theorem round_trip now n :
  well_formed_note n -> rule_free (content n) ->
  parseMemoryMarkdown now (formatMemoryMarkdown n) (id n) = Ok n.
Proof.
  intros Hw Hr. pose proof (valid_note_intro n Hw Hr) as Hn.
  unfold parseMemoryMarkdown.
  rewrite (format_split n Hn).
  change ([format_body n; format_footer n] !! 0%nat) with (Some (format_body n)).
  change ([format_body n; format_footer n] !! 1%nat) with (Some (format_footer n)).
  cbn [default from_option Datatypes.id].
  replace (truthy (format_body n)) with true by reflexivity.
  cbn [negb orb].
  rewrite (footer_parsed n Hn).
  destruct Hn as [Hne Hline Htrim _ Htags _ _].
  unfold format_body.
  rewrite (title_regex_heading _ _ Hne Hline).
  rewrite (heading_regex_heading _ _ Hne Hline).
  rewrite N.eqb_refl, (trim_snoc_space _ LF eq_refl), Htrim.
  repeat first [rewrite lookup_insert_eq | rewrite lookup_insert_ne by str_neq].
  rewrite (split_join_tags _ Htags).
  cbn [default].
  replace (bool_decide (Some (string_of_bool (deleted n)) = Some (str "true")))
    with (deleted n).
  - destruct n; reflexivity.
  - destruct (deleted n); symmetry.
    + apply bool_decide_eq_true_2. reflexivity.
    + apply bool_decide_eq_false_2. str_neq.
Qed.

Lemma sample_note_valid : valid_note sample_note.
Proof.
  constructor.
  - discriminate.
  - reflexivity.
  - reflexivity.
  - reflexivity.
  - repeat constructor; discriminate.
  - split; reflexivity.
  - split; reflexivity.
Defined.

Lemma sample_note_well_formed : well_formed_note sample_note.
Proof.
  constructor.
  - discriminate.
  - reflexivity.
  - reflexivity.
  - repeat constructor; discriminate.
  - split; reflexivity.
  - split; reflexivity.
Defined.

Lemma round_trip_witness :
  parseMemoryMarkdown sample_clock (formatMemoryMarkdown sample_note) (id sample_note)
  = Ok sample_note.
Proof.
  apply (round_trip sample_clock sample_note).
  - exact sample_note_well_formed.
  - reflexivity.
Defined.

(** A note whose markdown content holds a horizontal rule between two
    paragraphs is cut at the rule when it is read back: what follows the
    rule is read as the footer, so the tags are lost and the timestamps
    come from the clock.  The documentation supports markdown in the
    content, so this is a defect of the parser and no part of the
    round-trip statement above. *)
Lemma round_trip_rule_cut :
  parseMemoryMarkdown sample_clock (formatMemoryMarkdown rule_note) (id rule_note)
  = Ok {| id := id rule_note;
          title := title rule_note;
          content := str "First paragraph.";
          tags := [];
          createdAt := sample_clock 0;
          updatedAt := sample_clock 1;
          deleted := false |}.
Proof. vm_compute. reflexivity. Qed.

End RoundTrip.

(** ** [parseMemoryMarkdown] on arbitrary input *)

Section Parse.

(** What [parseMemoryMarkdown] does once the input has split into a
    non-empty body and a non-empty footer. *)
Lemma parse_split now text id0 body fm more :
  split separator text = body :: fm :: more ->
  body <> [] -> fm <> [] ->
  parseMemoryMarkdown now text id0 =
  Ok {| id := id0;
        title := default (str "Untitled")
                   (Regex.exec title_regex body ≫= Regex.capture 1);
        content := trim (Regex.replace_first_empty heading_regex body);
        tags := match parseFrontmatter fm !! str "tags" with
                | Some t => filter (fun s => truthy s = true) (split (str ", ") t)
                | None => []
                end;
        createdAt := match parseFrontmatter fm !! str "created" with
                     | Some c => c
                     | None => now 0
                     end;
        updatedAt := match parseFrontmatter fm !! str "updated" with
                     | Some u => u
                     | None =>
                         now (match parseFrontmatter fm !! str "created" with
                              | Some _ => 0
                              | None => 1
                              end)
                     end;
        deleted := bool_decide (parseFrontmatter fm !! str "deleted" = Some (str "true")) |}.
Proof.
  intros Hs Hb Hf. unfold parseMemoryMarkdown. rewrite Hs.
  change ((body :: fm :: more) !! 0%nat) with (Some body).
  change ((body :: fm :: more) !! 1%nat) with (Some fm).
  cbn [default from_option Datatypes.id].
  destruct body as [|b0 body]; [contradiction|].
  destruct fm as [|f0 fm]; [contradiction|].
  cbn [truthy negb orb].
  destruct (parseFrontmatter (f0 :: fm) !! str "created"); reflexivity.
Qed.

Lemma parseFrontmatter_line_entry (m : gmap jsstring jsstring) (line : jsstring) :
  parseFrontmatter_line m line =
  match line_entry line with
  | Some (k, v) => set_property k v m
  | None => m
  end.
Proof.
  unfold parseFrontmatter_line, line_entry.
  destruct (indexOf (str ":") line) as [i|]; [|reflexivity].
  destruct (0 <? i)%nat; reflexivity.
Qed.

Lemma set_property_other (k v : jsstring) (m : gmap jsstring jsstring) (key : jsstring) :
  k <> key -> set_property k v m !! key = m !! key.
Proof.
  intros Hk. unfold set_property. destruct (decide (k = str "__proto__")); [reflexivity|].
  apply lookup_insert_ne. exact Hk.
Qed.

(** A footer without an entry for a key leaves the key unset. *)
Lemma footer_lacks_lookup (key fm : jsstring) :
  footer_lacks key fm -> parseFrontmatter fm !! key = None.
Proof.
  unfold footer_lacks, parseFrontmatter.
  assert (G : forall ls (m : gmap jsstring jsstring),
             m !! key = None ->
             (forall line v, line ∈ ls -> line_entry line <> Some (key, v)) ->
             foldl parseFrontmatter_line m ls !! key = None).
  { induction ls as [|l ls IH]; intros m Hm Hl; [exact Hm|].
    cbn [foldl]. apply IH.
    - rewrite parseFrontmatter_line_entry.
      destruct (line_entry l) as [[k v]|] eqn:El; [|exact Hm].
      rewrite set_property_other; [exact Hm|].
      intros ->. apply (Hl l v); [left | exact El].
    - intros line v Hin. apply Hl. right. exact Hin. }
  intros H. apply G; [apply lookup_empty | exact H].
Qed.

(** C7: an input that does not contain the footer separator is rejected
    with an error; no note with defaulted footer fields is returned. *)
Theorem parse_without_separator now text id0 :
  includes separator text = false ->
  parseMemoryMarkdown now text id0 = Throw (Error (str "Invalid memory format: missing frontmatter")).
Proof.
  intros H. unfold parseMemoryMarkdown.
  rewrite (split_none separator text) by (discriminate || exact H).
  change ([text] !! 1%nat) with (@None jsstring).
  cbn [from_option negb]. rewrite orb_true_r. reflexivity.
Qed.

Lemma parse_without_separator_witness :
  parseMemoryMarkdown sample_clock (str "# Preferences" ++ [LF; LF] ++ str "User prefers dark mode")
    (str "memory-1a2b3c4d")
  = Throw (Error (str "Invalid memory format: missing frontmatter")).
Proof. apply parse_without_separator. vm_compute. reflexivity. Defined.

(** C9, as stated, fails: the separator is present in a file that ends
    right after it, and the empty footer is rejected. *)
Lemma parse_empty_footer_counterexample :
  includes separator (str "# Preferences" ++ [LF; LF] ++ str "Dark mode" ++ separator) = true /\
  parseMemoryMarkdown sample_clock
    (str "# Preferences" ++ [LF; LF] ++ str "Dark mode" ++ separator) (str "memory-1a2b3c4d")
  = Throw (Error (str "Invalid memory format: missing frontmatter")).
Proof. split; vm_compute; reflexivity. Qed.

(** What [parseFrontmatter] binds to a key is what the footer text gives
    to it: the value of the last line that holds an entry for the key. *)
Lemma parseFrontmatter_footer_value (key fm : jsstring) :
  key <> str "__proto__" ->
  parseFrontmatter fm !! key = footer_value key fm.
Proof.
  intros Hk. unfold parseFrontmatter, footer_value.
  induction (split [LF] fm) as [|line ls IH] using rev_ind; [reflexivity|].
  rewrite foldl_app, omap_app. cbn [foldl omap list_omap].
  rewrite parseFrontmatter_line_entry.
  destruct (line_entry line) as [[k v]|]; [|rewrite app_nil_r; exact IH].
  destruct (decide (k = key)) as [->|Hne].
  - unfold set_property. rewrite decide_False by exact Hk.
    rewrite lookup_insert_eq, last_snoc. reflexivity.
  - rewrite set_property_other by exact Hne. rewrite app_nil_r. exact IH.
Qed.

(** The entry of a [key: value] line. *)
Lemma line_entry_key_value (key v : jsstring) :
  key <> [] -> trim key = key ->
  forallb (fun x => negb (x =? 58)%N) key = true ->
  line_entry (key ++ str ": " ++ v) = Some (key, trim v).
Proof.
  intros Hne Ht Hc. unfold line_entry.
  change (str ": " ++ v) with (58%N :: 32%N :: v).
  change (str ":") with [58%N].
  rewrite (indexOf_char 58 key (32%N :: v) Hc).
  assert (Hlen : (0 <? length key)%nat = true)
    by (destruct key; [contradiction | reflexivity]).
  rewrite Hlen. unfold slice, slice_from.
  rewrite Nat.sub_0_r, drop_0, take_app_length, Ht.
  replace (key ++ 58%N :: 32%N :: v) with ((key ++ [58%N]) ++ 32%N :: v)
    by (rewrite <- app_assoc; reflexivity).
  replace (length key + 1) with (length (key ++ [58%N]))
    by (rewrite length_app; reflexivity).
  rewrite drop_app_length, trim_cons_space by reflexivity.
  reflexivity.
Qed.

(** A footer whose last line reads [key: value] gives the key that
    value, trimmed, whatever came before. *)
Lemma footer_value_last_line (fm key v : jsstring) (ls : list jsstring) :
  key <> [] -> trim key = key ->
  forallb (fun x => negb (x =? 58)%N) key = true ->
  split [LF] fm = ls ++ [key ++ str ": " ++ v] ->
  footer_value key fm = Some (trim v).
Proof.
  intros Hne Ht Hc Hs. unfold footer_value.
  rewrite Hs, omap_app. cbn [omap list_omap].
  rewrite (line_entry_key_value key v Hne Ht Hc), decide_True by reflexivity.
  apply last_snoc.
Qed.

(** A footer none of whose lines holds an entry for a key gives it no value. *)
Lemma footer_value_lacks (key fm : jsstring) :
  footer_lacks key fm -> footer_value key fm = None.
Proof.
  unfold footer_lacks, footer_value. intros H.
  induction (split [LF] fm) as [|line ls IH]; [reflexivity|].
  cbn [omap list_omap].
  destruct (line_entry line) as [[k v]|] eqn:E.
  - destruct (decide (k = key)) as [->|_].
    + exfalso. apply (H line v); [left | exact E].
    + apply IH. intros l w Hin. apply H. right. exact Hin.
  - apply IH. intros l w Hin. apply H. right. exact Hin.
Qed.

(** C9 (amended): when the text before the first separator and the text
    after it are both non-empty, [parseMemoryMarkdown] succeeds even if the
    footer has no [created] or [updated] entry, each missing timestamp
    being read from the clock (in that order), and a timestamp that the
    footer text gives being taken from it; the deleted flag is true
    exactly when the footer's [deleted] value, trimmed, is the string
    [true].  The footer's value for a key is read off the footer text: it
    is the text after the first colon, trimmed, of the last line whose
    text before the first colon, trimmed, is the key; so for a footer
    whose last line reads [deleted: v] the flag is true exactly when [v],
    trimmed, is [true]. *)
Theorem parse_footer_defaults now text id0 body fm more :
  split separator text = body :: fm :: more ->
  body <> [] -> fm <> [] ->
  exists note,
    parseMemoryMarkdown now text id0 = Ok note /\
    createdAt note = default (now 0) (footer_value (str "created") fm) /\
    updatedAt note =
      default (now (match footer_value (str "created") fm with Some _ => 0 | None => 1 end))
        (footer_value (str "updated") fm) /\
    (deleted note = true <-> footer_value (str "deleted") fm = Some (str "true")) /\
    (footer_lacks (str "created") fm -> createdAt note = now 0) /\
    (footer_lacks (str "created") fm -> footer_lacks (str "updated") fm ->
     updatedAt note = now 1) /\
    (footer_lacks (str "deleted") fm -> deleted note = false) /\
    (forall ls v, split [LF] fm = ls ++ [str "deleted" ++ str ": " ++ v] ->
                  (deleted note = true <-> trim v = str "true")).
Proof.
  intros Hs Hb Hf. eexists. split; [exact (parse_split now _ id0 _ _ _ Hs Hb Hf)|].
  cbn [createdAt updatedAt deleted].
  rewrite !parseFrontmatter_footer_value by (intros E; vm_compute in E; discriminate E).
  split; [destruct (footer_value (str "created") fm); reflexivity|].
  split.
  { destruct (footer_value (str "updated") fm); [reflexivity|].
    destruct (footer_value (str "created") fm); reflexivity. }
  split; [apply bool_decide_eq_true|].
  split; [intros Hc; rewrite (footer_value_lacks _ _ Hc); reflexivity|].
  split.
  { intros Hc Hu. rewrite (footer_value_lacks _ _ Hc), (footer_value_lacks _ _ Hu).
    reflexivity. }
  split.
  - intros Hd. rewrite (footer_value_lacks _ _ Hd). apply bool_decide_eq_false_2.
    discriminate.
  - intros ls v Hl.
    rewrite (footer_value_last_line fm (str "deleted") v ls) by (discriminate || reflexivity || exact Hl).
    rewrite bool_decide_eq_true. split; [intros E; apply (inj Some) in E; exact E | intros ->; reflexivity].
Qed.

Lemma parse_footer_defaults_witness :
  exists note,
    parseMemoryMarkdown sample_clock
      (str "# Preferences" ++ [LF; LF] ++ str "Dark mode" ++ separator ++ str "deleted:  true ")
      (str "memory-1a2b3c4d") = Ok note /\
    createdAt note = default (sample_clock 0) (footer_value (str "created") (str "deleted:  true ")) /\
    updatedAt note =
      default (sample_clock (match footer_value (str "created") (str "deleted:  true ") with
                             | Some _ => 0 | None => 1 end))
        (footer_value (str "updated") (str "deleted:  true ")) /\
    (deleted note = true <->
     footer_value (str "deleted") (str "deleted:  true ") = Some (str "true")) /\
    (footer_lacks (str "created") (str "deleted:  true ") ->
     createdAt note = sample_clock 0) /\
    (footer_lacks (str "created") (str "deleted:  true ") ->
     footer_lacks (str "updated") (str "deleted:  true ") ->
     updatedAt note = sample_clock 1) /\
    (footer_lacks (str "deleted") (str "deleted:  true ") -> deleted note = false) /\
    (forall ls v,
       split [LF] (str "deleted:  true ") = ls ++ [str "deleted" ++ str ": " ++ v] ->
       (deleted note = true <-> trim v = str "true")).
Proof.
  apply (parse_footer_defaults sample_clock _ _
           (str "# Preferences" ++ [LF; LF] ++ str "Dark mode") (str "deleted:  true ") []).
  - vm_compute. reflexivity.
  - discriminate.
  - discriminate.
Defined.

(** On that footer text the value of [deleted] is [true] and there is no
    timestamp. *)
Example footer_value_sample :
  footer_value (str "deleted") (str "deleted:  true ") = Some (str "true") /\
  footer_value (str "created") (str "deleted:  true ") = None /\
  footer_value (str "updated")
    (str "updated: 2024-02-02T11:00:00Z" ++ LF :: str "updated: 2024-03-01T08:15:00Z")
  = Some (str "2024-03-01T08:15:00Z").
Proof. vm_compute. repeat split; reflexivity. Qed.

(** The same input, evaluated: both timestamps come from the clock, one
    reading after the other, and the tombstone is set. *)
Example parse_footer_defaults_run :
  parseMemoryMarkdown sample_clock
    (str "# Preferences" ++ [LF; LF] ++ str "Dark mode" ++ separator ++ str "deleted:  true ")
    (str "memory-1a2b3c4d")
  = Ok {| id := str "memory-1a2b3c4d";
          title := str "Preferences";
          content := str "Dark mode";
          tags := [];
          createdAt := str "2030-01-01T00:00:00.000Z";
          updatedAt := str "2030-01-01T00:00:01.000Z";
          deleted := true |}.
Proof. vm_compute. reflexivity. Qed.

(** C10, as stated, fails: the separator is present and the (empty) body
    does not begin with a heading line, yet the input is rejected. *)
Lemma parse_empty_body_counterexample :
  includes separator (separator ++ str "tags: ui") = true /\
  split separator (separator ++ str "tags: ui") = [[]; str "tags: ui"] /\
  ~ begins_with_heading [] /\
  parseMemoryMarkdown sample_clock (separator ++ str "tags: ui") (str "memory-1a2b3c4d")
  = Throw (Error (str "Invalid memory format: missing frontmatter")).
Proof.
  split; [vm_compute; reflexivity|]. split; [vm_compute; reflexivity|].
  split; [|vm_compute; reflexivity].
  intros (t & r & _ & _ & E). discriminate E.
Qed.

(** C10 (amended): when the text before the first separator and the text
    after it are both non-empty and the former does not begin with a
    [# ] heading line, [parseMemoryMarkdown] succeeds with the title
    [Untitled] and with the body, trimmed, as the content. *)
Theorem parse_untitled now text id0 body fm more :
  split separator text = body :: fm :: more ->
  body <> [] -> fm <> [] ->
  ~ begins_with_heading body ->
  exists note,
    parseMemoryMarkdown now text id0 = Ok note /\
    title note = str "Untitled" /\
    content note = trim body.
Proof.
  intros Hs Hb Hf Hh. eexists. split; [exact (parse_split now _ id0 _ _ _ Hs Hb Hf)|].
  cbn [title content].
  rewrite (title_regex_no_heading body Hh), (heading_regex_no_heading body Hh).
  split; reflexivity.
Qed.

Lemma parse_untitled_witness :
  exists note,
    parseMemoryMarkdown sample_clock
      (str "Dark mode, always. " ++ separator ++ str "tags: ui") (str "memory-1a2b3c4d")
    = Ok note /\
    title note = str "Untitled" /\
    content note = trim (str "Dark mode, always. ").
Proof.
  apply (parse_untitled sample_clock _ _ (str "Dark mode, always. ") (str "tags: ui") []).
  - vm_compute. reflexivity.
  - discriminate.
  - discriminate.
  - intros (t & r & _ & _ & E). discriminate E.
Defined.

(** A line that starts with [# ] but has nothing after it is no heading
    line, and stays in the content. *)
Example parse_bare_hash :
  parseMemoryMarkdown sample_clock
    (str "# " ++ [LF; LF] ++ str "Dark mode" ++ separator ++ str "tags: ui")
    (str "memory-1a2b3c4d")
  = Ok {| id := str "memory-1a2b3c4d";
          title := str "Untitled";
          content := str "# " ++ [LF; LF] ++ str "Dark mode";
          tags := [str "ui"];
          createdAt := str "2030-01-01T00:00:00.000Z";
          updatedAt := str "2030-01-01T00:00:01.000Z";
          deleted := false |}.
Proof. vm_compute. reflexivity. Qed.

End Parse.

(** ** [parseSummarizationResponse] *)

Section Summarizer.
Import Regex.

Lemma no_facts_header response :
  includes_i (str "KEY FACTS:") response = false ->
  exec facts_regex response = None.
Proof. intros H. unfold exec, facts_regex. apply exec_from_lit_i. exact H. Qed.

Lemma no_summary_header response :
  includes_i (str "SUMMARY:") response = false ->
  exec summary_regex response = None.
Proof. intros H. unfold exec, summary_regex. apply exec_from_lit_i. exact H. Qed.

(** C6, as stated, fails: without a [SUMMARY:] header the summary is the
    response with the white space around it removed, not the response
    verbatim. *)
Lemma summary_not_verbatim_counterexample :
  includes_i (str "SUMMARY:") (str "They talked about themes." ++ [LF]) = false /\
  summary (parseSummarizationResponse (str "They talked about themes." ++ [LF]))
  = str "They talked about themes." /\
  summary (parseSummarizationResponse (str "They talked about themes." ++ [LF]))
  <> str "They talked about themes." ++ [LF].
Proof.
  split; [vm_compute; reflexivity|]. split; [vm_compute; reflexivity|].
  intros H. vm_compute in H. discriminate H.
Qed.

(** C6 (amended): when the response has no [KEY FACTS:] header (in any
    letter case) the key facts are empty, and when it has no [SUMMARY:]
    header (in any letter case) the summary is the whole response with
    leading and trailing white space removed. *)
Theorem summarization_fallbacks response :
  (includes_i (str "KEY FACTS:") response = false ->
   keyFacts (parseSummarizationResponse response) = []) /\
  (includes_i (str "SUMMARY:") response = false ->
   summary (parseSummarizationResponse response) = trim response).
Proof.
  split; intros H; unfold parseSummarizationResponse.
  - cbn [keyFacts]. rewrite (no_facts_header response H). vm_compute. reflexivity.
  - cbn [summary]. rewrite (no_summary_header response H). reflexivity.
Qed.

Lemma summarization_fallbacks_witness :
  keyFacts (parseSummarizationResponse (str "  The user likes dark mode. ")) = [] /\
  summary (parseSummarizationResponse (str "  The user likes dark mode. "))
  = trim (str "  The user likes dark mode. ").
Proof.
  destruct (summarization_fallbacks (str "  The user likes dark mode. ")) as [Hf Hs].
  split; [apply Hf | apply Hs]; vm_compute; reflexivity.
Defined.

(** The headers are found in any letter case, and a header that is not
    followed by a line break is no header. *)
Example summarization_lower_case :
  parseSummarizationResponse
    (str "summary:" ++ [LF] ++ str "They talked." ++ [LF] ++
     str "key facts:" ++ [LF] ++ str "- one")
  = {| summary := str "They talked."; keyFacts := [str "one"] |}.
Proof. vm_compute. reflexivity. Qed.

Example summarization_inline_header :
  parseSummarizationResponse (str "SUMMARY: They talked. KEY FACTS: one")
  = {| summary := str "SUMMARY: They talked. KEY FACTS: one"; keyFacts := [] |}.
Proof. vm_compute. reflexivity. Qed.

End Summarizer.

(** ** [validateConfig] *)

Section Config.

Lemma positive_number v x :
  Zod.positive Zod.number v = Some x -> v = VNumber x /\ F64.ltb F64.zero x = true.
Proof.
  unfold Zod.positive, Zod.number. destruct v as [| | |y| | |]; try discriminate.
  destruct y as [| |s k]; cbn [mbind option_bind]; try discriminate;
    match goal with |- context [F64.ltb ?a ?b] => destruct (F64.ltb a b) eqn:E end;
    intros [= <-] || discriminate; split; reflexivity || exact E.
Qed.

Lemma chunkSize_schema v x :
  Zod.default_to lit_50 (Zod.positive Zod.number) v = Some x ->
  F64.ltb F64.zero x = true /\
  ((v = VUndefined /\ x = lit_50) \/ v = VNumber x).
Proof.
  destruct v as [| | |y| | |]; cbn [Zod.default_to]; intros H;
    try (apply positive_number in H as [H _]; discriminate H).
  - apply (inj Some) in H. subst x.
    split; [vm_compute; reflexivity | left; split; reflexivity].
  - apply positive_number in H as [H Hp]. split; [exact Hp | right; exact H].
Qed.

Lemma MemoryConfigSchema_chunkSize config data :
  MemoryConfigSchema config = Some data ->
  exists o, config = VObject o /\
    Zod.default_to lit_50 (Zod.positive Zod.number) (field (str "chunkSize") o)
    = Some (chunkSize data).
Proof.
  unfold MemoryConfigSchema. destruct config as [| | | | | |o]; try discriminate.
  cbn [Zod.object mbind option_bind]. intros H. exists o. split; [reflexivity|].
  destruct (Zod.default_to (str "~/.agent-memory") _ _); [|discriminate H].
  destruct (EmbeddingsConfigSchema _); [|discriminate H].
  destruct (SummarizerConfigSchema _); [|discriminate H].
  destruct (Zod.default_to lit_50 _ _); [|discriminate H].
  destruct (SearchConfigSchema _); [|discriminate H].
  injection H as <-. reflexivity.
Qed.

(** C8, as stated, fails: a chunkSize of [2.5] passes
    [z.number().positive()], so the configuration is accepted with a
    chunkSize that is not an integer. *)
Lemma validateConfig_fraction_counterexample :
  exists cfg,
    validateConfig (str "/home/agent")
      (VObject (<[str "chunkSize" := VNumber lit_2_5]> sample_config)) = Ok cfg /\
    chunkSize cfg = lit_2_5 /\
    F64.is_integer (chunkSize cfg) = false.
Proof. eexists. split; [vm_compute; reflexivity|]. split; vm_compute; reflexivity. Qed.

(** C8 (amended): in every configuration that [validateConfig] accepts the
    chunkSize is a number greater than zero, which need not be an integer:
    the given one, or the default [50] when it was omitted; and a
    configuration whose chunkSize is given and is not a number greater than
    zero is rejected with a [ValidationError]. *)
Theorem validateConfig_chunkSize homedir config :
  (forall cfg,
     validateConfig homedir config = Ok cfg ->
     F64.ltb F64.zero (chunkSize cfg) = true /\
     exists o, config = VObject o /\
       ((field (str "chunkSize") o = VUndefined /\ chunkSize cfg = lit_50) \/
        field (str "chunkSize") o = VNumber (chunkSize cfg))) /\
  (forall o,
     config = VObject o ->
     field (str "chunkSize") o <> VUndefined ->
     (forall x, field (str "chunkSize") o = VNumber x -> F64.ltb F64.zero x = false) ->
     validateConfig homedir config = Throw (ValidationError (str "Invalid configuration"))).
Proof.
  assert (A : forall cfg,
     validateConfig homedir config = Ok cfg ->
     F64.ltb F64.zero (chunkSize cfg) = true /\
     exists o, config = VObject o /\
       ((field (str "chunkSize") o = VUndefined /\ chunkSize cfg = lit_50) \/
        field (str "chunkSize") o = VNumber (chunkSize cfg))).
  { intros cfg. unfold validateConfig.
    destruct (MemoryConfigSchema config) as [data|] eqn:E; [|discriminate].
    intros [= <-]. cbn [chunkSize].
    apply MemoryConfigSchema_chunkSize in E as (o & -> & E).
    apply chunkSize_schema in E as [Hp Hv].
    split; [exact Hp|]. exists o. split; [reflexivity | exact Hv]. }
  split; [exact A|].
  intros o -> Hdef Hneg.
  destruct (validateConfig homedir (VObject o)) as [cfg|e] eqn:E.
  - exfalso. destruct (A cfg eq_refl) as (Hp & o' & [= <-] & [[Hu _]|Hx]).
    + exact (Hdef Hu).
    + rewrite (Hneg _ Hx) in Hp. discriminate Hp.
  - unfold validateConfig in E.
    destruct (MemoryConfigSchema (VObject o)); [discriminate E|].
    injection E as <-. reflexivity.
Qed.

Lemma validateConfig_chunkSize_witness :
  exists cfg,
    validateConfig (str "/home/agent") (VObject sample_config) = Ok cfg /\
    chunkSize cfg = lit_50 /\ F64.ltb F64.zero (chunkSize cfg) = true.
Proof.
  destruct (validateConfig (str "/home/agent") (VObject sample_config)) as [cfg|e] eqn:E;
    [|vm_compute in E; discriminate E].
  exists cfg. split; [reflexivity|].
  destruct (validateConfig_chunkSize (str "/home/agent") (VObject sample_config)) as [A _].
  destruct (A cfg E) as (Hp & o & [= <-] & [[_ H]|H]).
  - split; assumption.
  - vm_compute in H. discriminate H.
Defined.

Example validateConfig_sample :
  validateConfig (str "/home/agent") (VObject sample_config)
  = Ok {| storagePath := str "/home/agent/.agent-memory";
          embeddings := {| embeddings_provider := str "openai";
                           embeddings_apiKey := Some (str "sk-test");
                           embeddings_model := None;
                           embeddings_baseUrl := None |};
          summarizer := {| summarizer_provider := str "anthropic";
                           summarizer_apiKey := str "sk-test";
                           summarizer_model := None |};
          chunkSize := lit_50;
          search := {| hybridWeight := lit_0_7; defaultLimit := lit_10 |} |}.
Proof. vm_compute. reflexivity. Qed.

Example validateConfig_zero :
  validateConfig (str "/home/agent")
    (VObject (<[str "chunkSize" := VNumber F64.zero]> sample_config))
  = Throw (ValidationError (str "Invalid configuration")).
Proof. vm_compute. reflexivity. Qed.

End Config.

(** ** The search index and the facade *)

Section Unimplemented.

(** The index and the facade are stubs: for every id, query and options,
    [delete], [remove], [search] and [read] reject with
    [Error('Not implemented')].  No delete completes and nothing is ever
    stored, so the code gives no behaviour after a delete to reason about. *)
Lemma tombstone_operations_not_implemented
  (memory : Memory) (index : LanceDBSearchIndex) (id0 query : jsstring)
  (queryEmbedding : list F64.t) (options : SearchOptions)
  (options' : option SearchOptions) (readOptions : option ReadOptions) :
  Memory_delete memory id0 = Throw (Error (str "Not implemented")) /\
  LanceDBSearchIndex_remove index id0 = Throw (Error (str "Not implemented")) /\
  Memory_search memory query options' = Throw (Error (str "Not implemented")) /\
  LanceDBSearchIndex_search index query queryEmbedding options
    = Throw (Error (str "Not implemented")) /\
  Memory_read memory id0 readOptions = Throw (Error (str "Not implemented")).
Proof. repeat split; reflexivity. Qed.

End Unimplemented.

(** * Further properties *)

(** ** Backtracking and lazy repetition *)

Section RepeatFacts.
Import Regex.

Lemma ahead_0 st : ahead st 0 = st.
Proof. unfold ahead. rewrite Nat.add_0_r, drop_0. apply mstate_eta. Qed.

Lemma repeat_matcher_lazy_S body gs k n st :
  repeat_matcher body gs false k (S n) st =
  match k st with
  | Some z => Some z
  | None =>
      body (clear gs st)
        (fun st' => if (pos st' =? pos st)%nat then None
                    else repeat_matcher body gs false k n st')
  end.
Proof. reflexivity. Qed.

(** When what follows fails after every prefix of the run, so does the
    greedy star. *)
Lemma repeat_class_fail p k fuel st xs tail :
  rest st = xs ++ tail ->
  forallb p xs = true ->
  match tail with c :: _ => p c = false | [] => True end ->
  (forall i, i <= length xs -> k (ahead st i) = None) ->
  repeat_matcher (matcher (Chr p)) [] true k fuel st = None.
Proof.
  revert fuel st. induction xs as [|x xs IH]; intros fuel st Hr Hp Ht Hk.
  - pose proof (Hk 0 (Nat.le_refl _)) as H0. rewrite ahead_0 in H0.
    destruct fuel as [|n]; [exact H0|].
    rewrite repeat_matcher_S, clear_nil, matcher_chr, Hr. cbn [app].
    destruct tail as [|c t]; [exact H0|]. rewrite Ht. exact H0.
  - cbn [forallb] in Hp. apply andb_prop in Hp as [Hx Hp].
    pose proof (Hk 0 (Nat.le_0_l _)) as H0. rewrite ahead_0 in H0.
    destruct fuel as [|n]; [exact H0|].
    rewrite repeat_matcher_S, clear_nil, matcher_chr, Hr. cbn [app]. rewrite Hx.
    cbn [pos]. destruct (Nat.eqb_spec (S (pos st)) (pos st)) as [E|_]; [lia|].
    rewrite (IH n (MState (S (pos st)) (xs ++ tail) (caps st))); [exact H0|..].
    + reflexivity.
    + exact Hp.
    + exact Ht.
    + intros i Hi. unfold ahead. cbn [pos rest caps].
      specialize (Hk (S i) ltac:(cbn [length]; lia)). unfold ahead in Hk.
      rewrite Hr in Hk. cbn [app drop] in Hk.
      rewrite <- Hk. do 2 f_equal. lia.
Qed.

(** The greedy star gives back code units until what follows matches. *)
Lemma repeat_class_backtrack p k fuel st xs tail z j :
  rest st = xs ++ tail ->
  forallb p xs = true ->
  match tail with c :: _ => p c = false | [] => True end ->
  length (rest st) <= fuel ->
  j <= length xs ->
  (forall i, j < i <= length xs -> k (ahead st i) = None) ->
  k (ahead st j) = Some z ->
  repeat_matcher (matcher (Chr p)) [] true k fuel st = Some z.
Proof.
  revert fuel st j. induction xs as [|x xs IH]; intros fuel st j Hr Hp Ht Hf Hj Hn Hk.
  - cbn [length] in Hj. assert (j = 0) as -> by lia.
    apply (repeat_class_run p k fuel st [] tail z); try assumption.
    cbn [length app] in *. rewrite ahead_0 in Hk. rewrite Nat.add_0_r, <- Hr, mstate_eta. exact Hk.
  - cbn [forallb] in Hp. apply andb_prop in Hp as [Hx Hp].
    destruct fuel as [|n]; [rewrite Hr in Hf; cbn in Hf; lia|].
    rewrite repeat_matcher_S, clear_nil, matcher_chr, Hr. cbn [app]. rewrite Hx.
    cbn [pos]. destruct (Nat.eqb_spec (S (pos st)) (pos st)) as [E|_]; [lia|].
    destruct j as [|j].
    + rewrite (repeat_class_fail p k n (MState (S (pos st)) (xs ++ tail) (caps st)) xs tail);
        try assumption; try reflexivity.
      * rewrite ahead_0 in Hk. exact Hk.
      * intros i Hi. unfold ahead in *. cbn [pos rest caps].
        specialize (Hn (S i) ltac:(cbn [length]; lia)).
        rewrite Hr in Hn. cbn [app drop] in Hn.
        rewrite <- Hn. do 2 f_equal. lia.
    + rewrite (IH n (MState (S (pos st)) (xs ++ tail) (caps st)) j); try assumption;
        try reflexivity.
      * cbn [rest]. rewrite Hr in Hf. cbn in Hf. lia.
      * cbn [length] in Hj. lia.
      * intros i Hi. unfold ahead in *. cbn [pos rest caps].
        specialize (Hn (S i) ltac:(cbn [length]; lia)).
        rewrite Hr in Hn. cbn [app drop] in Hn.
        rewrite <- Hn. do 2 f_equal. lia.
      * unfold ahead in *. cbn [pos rest caps]. rewrite Hr in Hk. cbn [app drop] in Hk.
        rewrite <- Hk. do 2 f_equal. lia.
Qed.

(** The lazy star of [[\s\S]] stops at the first place where what follows
    matches. *)
Lemma repeat_any_lazy k fuel st xs tail z :
  rest st = xs ++ tail ->
  length (rest st) <= fuel ->
  (forall i, i < length xs -> k (ahead st i) = None) ->
  k (ahead st (length xs)) = Some z ->
  repeat_matcher (matcher any) [] false k fuel st = Some z.
Proof.
  revert fuel st. induction xs as [|x xs IH]; intros fuel st Hr Hf Hn Hk.
  - cbn [length] in Hk. rewrite ahead_0 in Hk.
    destruct fuel as [|n]; [exact Hk|].
    rewrite repeat_matcher_lazy_S, Hk. reflexivity.
  - destruct fuel as [|n]; [rewrite Hr in Hf; cbn in Hf; lia|].
    pose proof (Hn 0 ltac:(cbn [length]; lia)) as H0. rewrite ahead_0 in H0.
    rewrite repeat_matcher_lazy_S, H0, clear_nil. unfold any at 1.
    rewrite matcher_chr, Hr. cbn [app pos].
    destruct (Nat.eqb_spec (S (pos st)) (pos st)) as [E|_]; [lia|].
    apply (IH n (MState (S (pos st)) (xs ++ tail) (caps st))).
    + reflexivity.
    + cbn [rest]. rewrite Hr in Hf. cbn in Hf. lia.
    + intros i Hi. unfold ahead in *. cbn [pos rest caps].
      specialize (Hn (S i) ltac:(cbn [length]; lia)).
      rewrite Hr in Hn. cbn [app drop] in Hn.
      rewrite <- Hn. do 2 f_equal. lia.
    + unfold ahead in *. cbn [pos rest caps]. rewrite Hr in Hk. cbn [app drop length] in Hk.
      rewrite <- Hk. do 2 f_equal. lia.
Qed.

End RepeatFacts.

(** ** Case-insensitive occurrences *)

Section HeaderFacts.
Import Regex.

Lemma startsWith_i_app w t : startsWith_i w (w ++ t) = true.
Proof. induction w as [|a w IH]; [reflexivity|]. cbn. rewrite N.eqb_refl. exact IH. Qed.

Lemma startsWith_i_short w x y :
  startsWith_i w (x ++ y) = true -> length w <= length x -> startsWith_i w x = true.
Proof.
  revert x. induction w as [|a w IH]; intros x H L; [reflexivity|].
  destruct x as [|b x]; [cbn in L; lia|]. cbn [app startsWith_i] in H |- *.
  apply andb_prop in H as [Hab H]. rewrite Hab. cbn [andb].
  apply IH; [exact H | cbn in L; lia].
Qed.

(** A code unit that matches no character of [w] stops every occurrence
    of [w] that starts before it. *)
Lemma startsWith_i_barrier w x c y :
  forallb (fun a => negb (upper c =? upper a)%N) w = true ->
  startsWith_i w (x ++ c :: y) = true ->
  startsWith_i w x = true.
Proof.
  revert x. induction w as [|a w IH]; intros x Hw H; [reflexivity|].
  cbn [forallb] in Hw. apply andb_prop in Hw as [Ha Hw].
  destruct x as [|b x]; cbn [app startsWith_i] in H |- *.
  - apply andb_prop in H as [Hc _]. rewrite Hc in Ha. discriminate Ha.
  - apply andb_prop in H as [Hb H]. rewrite Hb. cbn [andb]. exact (IH x Hw H).
Qed.

Lemma includes_i_false_at w s1 s2 :
  includes_i w (s1 ++ s2) = false -> startsWith_i w s2 = false.
Proof.
  induction s1 as [|c s1 IH]; cbn [app].
  - destruct s2; cbn [includes_i]; intros H; apply orb_false_elim in H as [H _]; exact H.
  - cbn [includes_i]. intros H. apply orb_false_elim in H as [_ H]. auto.
Qed.

(** The search for a pattern that begins with a literal passes over a
    stretch in which the literal starts nowhere. *)
Lemma exec_from_pass w r i x tail :
  (forall x1 x2, x = x1 ++ x2 -> x2 <> [] -> startsWith_i w (x2 ++ tail) = false) ->
  exec_from (Seq (lit_i w) r) i (x ++ tail) =
  exec_from (Seq (lit_i w) r) (i + length x) tail.
Proof.
  revert i. induction x as [|c x IH]; intros i Hfree.
  - cbn [app length]. rewrite Nat.add_0_r. reflexivity.
  - cbn [app exec_from]. rewrite matcher_seq, matcher_lit_i. cbn [rest].
    pose proof (Hfree [] (c :: x) eq_refl ltac:(discriminate)) as E.
    cbn [app] in E. rewrite E, IH.
    + f_equal. cbn [length]. lia.
    + intros x1 x2 -> Hne. exact (Hfree (c :: x1) x2 eq_refl Hne).
Qed.

Lemma matcher_eol st k :
  matcher Eol st k = match rest st with [] => k st | _ :: _ => None end.
Proof. reflexivity. Qed.

Lemma matcher_lookahead r st k :
  matcher (Lookahead r) st k =
  match matcher r st Some with
  | Some st' => k (MState (pos st) (rest st) (caps st'))
  | None => None
  end.
Proof. reflexivity. Qed.

(** White space at the end of a string means the string is not trimmed. *)
Lemma trimmed_no_space_suffix s s1 x :
  trim s = s -> s = s1 ++ x -> x <> [] -> forallb is_white_space x = true -> False.
Proof.
  intros Ht -> Hne Hx.
  destruct (rev x) as [|d r] eqn:Er.
  - apply Hne. rewrite <- (rev_involutive x), Er. reflexivity.
  - assert (Hd : is_white_space d = true).
    { rewrite forallb_forall in Hx. apply Hx. apply in_rev. rewrite Er. left. reflexivity. }
    assert (E : rev (s1 ++ x) = d :: (r ++ rev s1))
      by (rewrite rev_app_distr, Er; reflexivity).
    rewrite (trimmed_last _ _ _ Ht E) in Hd. discriminate Hd.
Qed.

End HeaderFacts.

(** ** [parseSummarizationResponse] on a response in the prompt's format *)

Section PromptFormat.
Import Regex.

(** The lookahead [(?=\n\s*KEY FACTS:|$)] fails inside a summary that has
    no such header. *)
Lemma facts_lookahead_inside s s1 x y p c :
  trim s = s -> includes_i (str "KEY FACTS:") s = false ->
  s = s1 ++ x -> x <> [] ->
  matcher (Alt (Seq (chr LF) (Seq (Star true space) (lit_i (str "KEY FACTS:")))) Eol)
    (MState p (x ++ LF :: y) c) Some = None.
Proof.
  intros Ht Hi Hs Hne. rewrite matcher_alt.
  destruct x as [|x0 x]; [contradiction|].
  destruct (matcher (Seq _ _) _ Some) as [z|] eqn:E.
  - exfalso. unfold chr in E. rewrite matcher_seq, matcher_chr in E. cbn [rest app] in E.
    destruct (N.eqb_spec LF x0) as [<-|]; [|discriminate E].
    rewrite matcher_seq, matcher_star in E. cbn [groups] in E. unfold space in E.
    apply repeat_class_sound in E as (xs & tl & Hr & Hp & Hk).
    cbn [rest pos caps] in *. rewrite matcher_lit_i in Hk. cbn [rest] in Hk.
    destruct (startsWith_i (str "KEY FACTS:") tl) eqn:Es; [|discriminate Hk].
    apply app_eq_inv in Hr as [(k' & E1 & E2)|(k' & E1 & E2)].
    + (* the header would lie inside the summary *)
      subst tl. apply startsWith_i_barrier in Es; [|reflexivity].
      rewrite Hs, E1 in Hi.
      replace (s1 ++ LF :: xs ++ k') with ((s1 ++ LF :: xs) ++ k') in Hi
        by (rewrite <- app_assoc; reflexivity).
      apply includes_i_false_at in Hi. rewrite Hi in Es. discriminate Es.
    + (* the run of white space reaches the end of the summary *)
      apply (trimmed_no_space_suffix s s1 (LF :: x) Ht Hs); [discriminate|].
      cbn [forallb]. rewrite E1 in Hp. rewrite forallb_app in Hp.
      apply andb_prop in Hp as [Hp _]. rewrite Hp. reflexivity.
  - rewrite matcher_eol. reflexivity.
Qed.

(** It succeeds, leaving the captures alone, right before the header. *)
Lemma facts_lookahead_at_header y p c :
  matcher (Alt (Seq (chr LF) (Seq (Star true space) (lit_i (str "KEY FACTS:")))) Eol)
    (MState p (LF :: LF :: str "KEY FACTS:" ++ y) c) Some
  = Some (MState (S (S p) + length (str "KEY FACTS:")) y c).
Proof.
  rewrite matcher_alt. unfold chr. rewrite matcher_seq, matcher_chr. cbn [rest pos caps].
  rewrite N.eqb_refl, matcher_seq, matcher_star. cbn [groups rest]. unfold space.
  rewrite (repeat_class_run is_white_space _ _ _ [LF] (str "KEY FACTS:" ++ y)
             (MState (S (S p) + length (str "KEY FACTS:")) y c)); try reflexivity.
  cbn [pos rest caps length]. rewrite matcher_lit_i. cbn [pos rest caps].
  rewrite startsWith_i_app, drop_app_length. do 2 f_equal. lia.
Qed.

(** [\s*\n] right after a header that is followed by a single line feed
    and then a line that does not start with white space. *)
Lemma header_line_break (r : regex) (k : cont) p tail c z :
  match tail with d :: _ => is_white_space d = false | [] => True end ->
  matcher r (MState (S p) tail c) k = Some z ->
  matcher (Seq (Star true space) (Seq (chr LF) r)) (MState p (LF :: tail) c) k = Some z.
Proof.
  intros Ht Hk. rewrite matcher_seq, matcher_star. cbn [groups rest]. unfold space.
  apply (repeat_class_backtrack is_white_space _ _ _ [LF] tail z 0); cbn [rest pos caps length].
  - reflexivity.
  - reflexivity.
  - exact Ht.
  - reflexivity.
  - lia.
  - intros i Hi. assert (i = 1) as -> by lia. unfold ahead. cbn [pos rest caps drop].
    rewrite drop_0. unfold chr. rewrite matcher_seq, matcher_chr. cbn [rest].
    destruct tail as [|d tail]; [reflexivity|].
    destruct (N.eqb_spec LF d) as [<-|]; [discriminate Ht | reflexivity].
  - rewrite ahead_0. unfold chr. rewrite matcher_seq, matcher_chr. cbn [rest pos caps].
    rewrite N.eqb_refl. exact Hk.
Qed.

(** A lazy [([\s\S]*?)] group captures up to the first place where the
    rest of the pattern matches. *)
Lemma lazy_group (k : cont) p xs tail c z :
  (forall i, i < length xs ->
     k (MState (p + i) (drop i (xs ++ tail)) (<[1%nat := take i (xs ++ tail)]> c)) = None) ->
  k (MState (p + length xs) tail (<[1%nat := xs]> c)) = Some z ->
  matcher (Group 1 (Star false any)) (MState p (xs ++ tail) c) k = Some z.
Proof.
  intros Hn Hk. rewrite matcher_group, matcher_star. cbn [groups rest pos].
  apply (repeat_any_lazy _ _ _ xs tail z); cbn [rest pos caps].
  - reflexivity.
  - reflexivity.
  - intros i Hi. unfold ahead. cbn [pos rest caps].
    replace (p + i - p) with i by lia. exact (Hn i Hi).
  - unfold ahead. cbn [pos rest caps].
    replace (p + length xs - p) with (length xs) by lia.
    rewrite drop_app_length, take_app_length. exact Hk.
Qed.

Section Response.
Variables (s : jsstring) (facts : list jsstring).
Hypothesis Hne : s <> [].
Hypothesis Htrim : trim s = s.
Hypothesis Hfree : includes_i (str "KEY FACTS:") s = false.

Lemma summary_captured :
  exec summary_regex (prompt_response s facts) ≫= capture 1 = Some s.
Proof.
  unfold exec, prompt_response, summary_regex.
  set (tail := [LF; LF] ++ str "KEY FACTS:" ++ LF :: join [LF] (map (fun f => str "- " ++ f) facts)).
  set (z := MState (S (length (str "SUMMARY:")) + length s) tail (<[1%nat := s]> ∅)).
  assert (E : exec_from
    (Seq (lit_i (str "SUMMARY:"))
       (Seq (Star true space)
          (Seq (chr LF)
             (Seq (Group 1 (Star false any))
                (Lookahead
                   (Alt (Seq (chr LF) (Seq (Star true space) (lit_i (str "KEY FACTS:")))) Eol))))))
    0 (str "SUMMARY:" ++ LF :: s ++ tail) = Some (MatchResult 0 z)).
  { destruct (str "SUMMARY:" ++ LF :: s ++ tail) as [|r0 rs] eqn:Er;
      [destruct (str "SUMMARY:"); discriminate Er|].
    rewrite <- Er. clear Er r0 rs.
    assert (M : matcher
      (Seq (lit_i (str "SUMMARY:"))
         (Seq (Star true space)
            (Seq (chr LF)
               (Seq (Group 1 (Star false any))
                  (Lookahead
                     (Alt (Seq (chr LF) (Seq (Star true space) (lit_i (str "KEY FACTS:")))) Eol))))))
      (MState 0 (str "SUMMARY:" ++ LF :: s ++ tail) ∅) Some = Some z).
    { rewrite matcher_seq, matcher_lit_i. cbn [rest pos caps].
      rewrite startsWith_i_app, drop_app_length.
      apply header_line_break.
      - destruct s as [|d s'] eqn:Es; [contradiction|]. cbn [app].
        rewrite <- Es in Htrim. exact (trimmed_head _ _ _ Htrim Es).
      - rewrite matcher_seq. apply lazy_group.
        + intros i Hi. rewrite matcher_lookahead.
          rewrite drop_app_le by lia.
          unfold tail. cbn [app].
          rewrite (facts_lookahead_inside s (take i s) (drop i s)); try assumption.
          * reflexivity.
          * symmetry. apply take_drop.
          * intros E0. apply (f_equal length) in E0. rewrite length_drop in E0.
            cbn [length] in E0. lia.
        + rewrite matcher_lookahead. unfold tail at 1. cbn [app].
          rewrite facts_lookahead_at_header. cbn [pos rest caps]. reflexivity. }
    destruct (str "SUMMARY:" ++ LF :: s ++ tail); cbn [exec_from]; rewrite M; reflexivity. }
  rewrite E. unfold capture. cbn [mbind option_bind final caps z].
  apply lookup_insert_eq.
Qed.

Lemma suffix_snoc (x1 x2 q : jsstring) (c : N) :
  x1 ++ x2 = q ++ [c] -> x2 <> [] -> exists a, x2 = a ++ [c] /\ q = x1 ++ a.
Proof.
  intros E Hx. destruct (exists_last Hx) as (a & d & ->).
  rewrite app_assoc in E. apply app_inj_tail in E as [E ->].
  exists a. split; [reflexivity | symmetry; exact E].
Qed.

Lemma startsWith_i_length w x : startsWith_i w x = true -> length w <= length x.
Proof.
  revert x. induction w as [|a w IH]; intros x H; [cbn; lia|].
  destruct x as [|b x]; [discriminate H|]. cbn [startsWith_i] in H.
  apply andb_prop in H as [_ H]. apply IH in H. cbn [length]. lia.
Qed.

(** Before its header line, the response has no [KEY FACTS:]. *)
Lemma facts_header_first tail x1 x2 :
  str "SUMMARY:" ++ LF :: s ++ [LF; LF] = x1 ++ x2 -> x2 <> [] ->
  startsWith_i (str "KEY FACTS:") (x2 ++ tail) = false.
Proof.
  intros E Hx.
  destruct (startsWith_i (str "KEY FACTS:") (x2 ++ tail)) eqn:Es; [exfalso|reflexivity].
  replace (str "SUMMARY:" ++ LF :: s ++ [LF; LF])
    with ((str "SUMMARY:" ++ LF :: s ++ [LF]) ++ [LF]) in E
    by (rewrite <- !app_assoc; cbn [app]; rewrite <- app_assoc; reflexivity).
  symmetry in E. apply suffix_snoc in E as (a & -> & E); [|exact Hx].
  rewrite <- app_assoc in Es. cbn [app] in Es.
  apply startsWith_i_barrier in Es; [|reflexivity].
  destruct a as [|a0 a]; [discriminate Es|].
  replace (str "SUMMARY:" ++ LF :: s ++ [LF])
    with ((str "SUMMARY:" ++ LF :: s) ++ [LF]) in E
    by (rewrite <- !app_assoc; reflexivity).
  symmetry in E. apply suffix_snoc in E as (a' & Ea & E); [|discriminate].
  rewrite Ea in Es. apply startsWith_i_barrier in Es; [|reflexivity].
  apply app_eq_inv in E as [(k & E1 & E2)|(k & E1 & E2)].
  - (* inside the SUMMARY: header *)
    rewrite E2 in Es. apply startsWith_i_barrier in Es; [|reflexivity].
    apply startsWith_i_length in Es.
    apply (f_equal length) in E1. rewrite length_app in E1.
    change (length (str "KEY FACTS:")) with 10 in Es.
    change (length (str "SUMMARY:")) with 8 in E1. lia.
  - destruct k as [|k0 k]; cbn [app] in E2.
    + rewrite <- E2 in Es. discriminate Es.
    + injection E2 as _ E2. rewrite E2 in Hfree.
      apply includes_i_false_at in Hfree. rewrite Hfree in Es. discriminate Es.
Qed.

Lemma exec_from_here r i (text : jsstring) z :
  matcher r (MState i text ∅) Some = Some z ->
  exec_from r i text = Some (MatchResult i z).
Proof. intros M. destruct text; cbn [exec_from]; rewrite M; reflexivity. Qed.

Lemma facts_text_head :
  match join [LF] (map (fun f => str "- " ++ f) facts) with
  | d :: _ => is_white_space d = false
  | [] => True
  end.
Proof. destruct facts as [|f [|f' fs]]; [exact I | reflexivity | reflexivity]. Qed.

Lemma facts_captured :
  exec facts_regex (prompt_response s facts) ≫= capture 1
  = Some (join [LF] (map (fun f => str "- " ++ f) facts)).
Proof.
  unfold exec, prompt_response, facts_regex.
  set (F := join [LF] (map (fun f => str "- " ++ f) facts)).
  replace (str "SUMMARY:" ++ LF :: s ++ [LF; LF] ++ str "KEY FACTS:" ++ LF :: F)
    with ((str "SUMMARY:" ++ LF :: s ++ [LF; LF]) ++ str "KEY FACTS:" ++ LF :: F)
    by (rewrite <- !app_assoc; cbn [app]; rewrite <- !app_assoc; reflexivity).
  rewrite exec_from_pass by (intros x1 x2 E Hx; exact (facts_header_first _ x1 x2 E Hx)).
  set (i := 0 + length (str "SUMMARY:" ++ LF :: s ++ [LF; LF])).
  rewrite (exec_from_here _ i _
             (MState (S (i + length (str "KEY FACTS:")) + length F) [] (<[1%nat := F]> ∅))).
  - unfold capture. cbn [mbind option_bind final caps]. apply lookup_insert_eq.
  - rewrite matcher_seq, matcher_lit_i. cbn [rest pos caps].
    rewrite startsWith_i_app, drop_app_length.
    apply header_line_break; [exact facts_text_head|].
    rewrite matcher_seq. rewrite <- (app_nil_r F) at 1. apply lazy_group.
    + intros j Hj. rewrite matcher_eol. cbn [rest]. rewrite app_nil_r.
      destruct (drop j F) eqn:Ed; [|reflexivity].
      apply (f_equal length) in Ed. rewrite length_drop in Ed. cbn [length] in Ed. lia.
    + rewrite matcher_eol. reflexivity.
Qed.

End Response.

Lemma split_join_lines (ls : list jsstring) :
  ls <> [] -> Forall (fun l => one_line l = true) ls ->
  split [LF] (join [LF] ls) = ls.
Proof.
  intros Hne Hl. induction Hl as [|l ls Hline Hls IH]; [contradiction|].
  destruct ls as [|l' ls].
  - cbn [join]. apply split_last_line. exact Hline.
  - rewrite join_cons2. cbn [app]. rewrite (split_line _ _ Hline), IH; [reflexivity|discriminate].
Qed.

(** [line.replace(/^-\s*/, '')] removes the dash and the blank of a
    [- fact] line. *)
Lemma bullet_removed f :
  match f with d :: _ => is_white_space d = false | [] => True end ->
  replace_first_empty bullet_regex (str "- " ++ f) = f.
Proof.
  intros Hf. unfold replace_first_empty, bullet_regex. rewrite exec_bol.
  change (str "- " ++ f) with (45%N :: 32%N :: f).
  unfold chr. rewrite matcher_seq, matcher_chr. cbn [rest pos caps].
  rewrite N.eqb_refl, matcher_star. cbn [groups rest]. unfold space.
  rewrite (repeat_class_run is_white_space Some _ _ [32%N] f (MState 2 f ∅));
    try reflexivity.
  exact Hf.
Qed.

(** X1: a response written in the format that the summarization prompt
    asks for is taken apart into exactly its summary and its key facts,
    when the summary is non-empty, has no white space around it and no
    [KEY FACTS:] inside (in any letter case), and each fact is a non-empty
    single line without white space around it. *)
Theorem prompt_format_parsed s facts :
  s <> [] -> trim s = s -> includes_i (str "KEY FACTS:") s = false ->
  Forall valid_fact facts ->
  parseSummarizationResponse (prompt_response s facts)
  = {| summary := s; keyFacts := facts |}.
Proof.
  intros Hne Htrim Hfree Hfacts. unfold parseSummarizationResponse.
  rewrite (summary_captured s facts Hne Htrim Hfree).
  rewrite (facts_captured s facts Hfree).
  cbn [default from_option Datatypes.id]. rewrite Htrim. f_equal.
  destruct facts as [|f fs]; [vm_compute; reflexivity|].
  rewrite split_join_lines.
  - rewrite map_map.
    induction Hfacts as [|g gs (Hg & Tg & _) _ IH]; [reflexivity|].
    cbn [map]. rewrite bullet_removed.
    + rewrite Tg, filter_cons_True; [rewrite IH; reflexivity|].
      destruct g; [contradiction | reflexivity].
    + destruct g as [|d g'] eqn:Eg; [exact I|]. rewrite <- Eg in Tg.
      exact (trimmed_head _ _ _ Tg Eg).
  - discriminate.
  - apply Forall_map. eapply Forall_impl; [exact Hfacts|].
    intros g (_ & _ & Hl). cbn beta. rewrite one_line_app, Hl. reflexivity.
Qed.

Lemma prompt_format_parsed_witness :
  parseSummarizationResponse
    (prompt_response (str "The user asked for a dark theme." ++ [LF] ++ str "It was enabled.")
       [str "Prefers dark mode"; str "Uses the desktop app"])
  = {| summary := str "The user asked for a dark theme." ++ [LF] ++ str "It was enabled.";
       keyFacts := [str "Prefers dark mode"; str "Uses the desktop app"] |}.
Proof.
  apply prompt_format_parsed.
  - discriminate.
  - vm_compute. reflexivity.
  - vm_compute. reflexivity.
  - repeat constructor; try discriminate; vm_compute; reflexivity.
Defined.

End PromptFormat.

(** ** What [trim] leaves *)

Section TrimIdempotent.

Lemma drop_while_head p s c r : drop_while p s = c :: r -> p c = false.
Proof.
  induction s as [|a s IH]; cbn [drop_while]; [discriminate|].
  destruct (p a) eqn:Ea; [exact IH|]. intros [= <- _]. exact Ea.
Qed.

Lemma drop_while_suffix p s : exists t, s = t ++ drop_while p s.
Proof.
  induction s as [|a s (t & IH)]; [exists []; reflexivity|]. cbn [drop_while].
  destruct (p a); [|exists []; reflexivity].
  exists (a :: t). cbn [app]. rewrite <- IH. reflexivity.
Qed.

Lemma trimEnd_prefix s : exists t, s = trimEnd s ++ t.
Proof.
  unfold trimEnd. destruct (drop_while_suffix is_white_space (rev s)) as (t & E).
  exists (rev t). rewrite <- rev_app_distr, <- E, rev_involutive. reflexivity.
Qed.

Lemma trim_idempotent s : trim (trim s) = trim s.
Proof.
  apply trimmed_intro.
  - intros c s' E. unfold trim in E.
    destruct (trimEnd_prefix (trimStart s)) as (t & Et). rewrite E in Et.
    exact (drop_while_head _ _ _ _ Et).
  - intros d r E. unfold trim, trimEnd in E. rewrite rev_involutive in E.
    exact (drop_while_head _ _ _ _ E).
Qed.

End TrimIdempotent.

(** ** Invariants of [parseSummarizationResponse] *)

Section SummarizerInvariants.

(** X2: whatever the response, the summary comes back without white
    space around it, and every key fact is non-empty and without white
    space around it. *)
Theorem summarization_result_trimmed response :
  trim (summary (parseSummarizationResponse response))
  = summary (parseSummarizationResponse response) /\
  Forall (fun f => f <> [] /\ trim f = f)
    (keyFacts (parseSummarizationResponse response)).
Proof.
  unfold parseSummarizationResponse. cbn [summary keyFacts]. split.
  - destruct (Regex.exec summary_regex response ≫= Regex.capture 1);
      apply trim_idempotent.
  - apply Forall_forall. intros f Hf.
    apply list_elem_of_filter in Hf as [Hne Hin].
    split; [intros ->; discriminate Hne|].
    apply list_elem_of_In, in_map_iff in Hin as (line & <- & _).
    apply trim_idempotent.
Qed.

End SummarizerInvariants.

(** ** [formatMessagesForPrompt] *)

Section Prompt.

(** X3: when no role and no content holds a line feed, the prompt text
    has exactly one [role: content] line per message, in order. *)
Theorem prompt_lines (messages : list Message) :
  messages <> [] ->
  Forall (fun m => one_line (role m) = true /\ one_line (message_content m) = true) messages ->
  split [LF] (formatMessagesForPrompt messages)
  = map (fun m => role m ++ str ": " ++ message_content m) messages.
Proof.
  intros Hne Hl. unfold formatMessagesForPrompt. apply split_join_lines.
  - destruct messages; [contradiction | discriminate].
  - apply Forall_map. eapply Forall_impl; [exact Hl|].
    intros m [Hr Hc]. cbn beta. rewrite !one_line_app, Hr, Hc. reflexivity.
Qed.

Lemma prompt_lines_witness :
  split [LF] (formatMessagesForPrompt
                [ {| role := str "user"; message_content := str "I prefer dark mode";
                     message_timestamp := None |};
                  {| role := str "assistant"; message_content := str "Noted!";
                     message_timestamp := None |} ])
  = [str "user: I prefer dark mode"; str "assistant: Noted!"].
Proof.
  apply (prompt_lines
           [ {| role := str "user"; message_content := str "I prefer dark mode";
                message_timestamp := None |};
             {| role := str "assistant"; message_content := str "Noted!";
                message_timestamp := None |} ]).
  - discriminate.
  - repeat constructor.
Defined.

(** X4: content is not escaped: a message whose content goes on, after a
    line feed, with [role: text] gives the same prompt text as two
    messages. *)
Theorem prompt_content_not_escaped (r1 c1 r2 c2 : jsstring) (t1 t2 t3 : option jsstring)
  (more : list Message) :
  formatMessagesForPrompt
    ({| role := r1; message_content := c1 ++ LF :: r2 ++ str ": " ++ c2;
        message_timestamp := t1 |} :: more)
  = formatMessagesForPrompt
      ({| role := r1; message_content := c1; message_timestamp := t2 |}
       :: {| role := r2; message_content := c2; message_timestamp := t3 |} :: more).
Proof.
  unfold formatMessagesForPrompt. cbn [map role message_content].
  destruct more as [|m more]; cbn [join map];
    repeat first [rewrite <- app_assoc | progress cbn [app]]; reflexivity.
Qed.

End Prompt.

(** ** More on the footer and on [parseMemoryMarkdown] *)

Section FooterEntries.

(** X5: the last entry for a key wins, and a value may hold colons:
    after any footer text, a further line [key: value] sets the key to
    the trimmed value. *)
Theorem footer_last_entry_wins (fm key v : jsstring) :
  footer_key key -> one_line v = true ->
  parseFrontmatter (fm ++ LF :: key ++ str ": " ++ v) !! key = Some (trim v).
Proof.
  intros (Hne & Ht & Hl & Hc & Hp) Hv. unfold parseFrontmatter.
  rewrite split_snoc_line by (rewrite !one_line_app, Hl, Hv; reflexivity).
  rewrite foldl_app. cbn [foldl].
  rewrite (parseFrontmatter_key_value key v _ Hne Ht Hc).
  unfold set_property. rewrite decide_False by exact Hp.
  apply lookup_insert_eq.
Qed.

Lemma footer_last_entry_wins_witness :
  parseFrontmatter
    ((str "updated: 2024-02-02T11:00:00Z" ++ [LF] ++ str "deleted: false") ++
     LF :: str "updated" ++ str ": " ++ str "2024-03-01T08:15:00Z")
  !! str "updated" = Some (trim (str "2024-03-01T08:15:00Z")).
Proof.
  apply footer_last_entry_wins.
  - repeat split; try reflexivity; discriminate.
  - reflexivity.
Defined.

(** X6: no footer makes an entry named [__proto__], and every key and
    every value that [parseFrontmatter] returns is trimmed. *)
Theorem footer_entries_trimmed (fm k v : jsstring) :
  parseFrontmatter fm !! k = Some v ->
  k <> str "__proto__" /\ trim k = k /\ trim v = v.
Proof.
  unfold parseFrontmatter.
  assert (G : forall ls (m : gmap jsstring jsstring),
             (forall k v, m !! k = Some v ->
                k <> str "__proto__" /\ trim k = k /\ trim v = v) ->
             forall k v, foldl parseFrontmatter_line m ls !! k = Some v ->
                k <> str "__proto__" /\ trim k = k /\ trim v = v).
  { induction ls as [|l ls IH]; intros m Hm; [exact Hm|].
    cbn [foldl]. apply IH. intros k' v'.
    rewrite parseFrontmatter_line_entry. unfold line_entry.
    destruct (indexOf (str ":") l) as [i|]; [|apply Hm].
    destruct (0 <? i)%nat; [|apply Hm].
    unfold set_property. destruct (decide (_ = str "__proto__")) as [|Hk]; [apply Hm|].
    destruct (decide (trim (slice 0 i l) = k')) as [<-|Hne].
    - rewrite lookup_insert_eq. intros [= <-].
      split; [exact Hk|]. split; apply trim_idempotent.
    - rewrite lookup_insert_ne by exact Hne. apply Hm. }
  apply G. intros k' v'. rewrite lookup_empty. discriminate.
Qed.

Lemma footer_entries_trimmed_witness :
  str "tags" <> str "__proto__" /\ trim (str "tags") = str "tags" /\
  trim (str "ui, theme") = str "ui, theme".
Proof.
  apply (footer_entries_trimmed (str "  tags :   ui, theme  ")).
  vm_compute. reflexivity.
Defined.

End FooterEntries.

(** ** More on [parseMemoryMarkdown] *)

Section ParseMore.

Ltac str_differs := let E := fresh in intros E; vm_compute in E; discriminate E.

(** X7: when the text before the first separator begins with a heading
    line [# t], [parseMemoryMarkdown] returns [t] as the title and the
    rest of that text, trimmed, as the content; the optional line feed
    that the second pattern removes after the heading makes no difference. *)
Theorem parse_titled now text id0 t r fm more :
  split separator text = (str "# " ++ t ++ LF :: r) :: fm :: more ->
  t <> [] -> forallb (fun c => negb (is_line_terminator c)) t = true ->
  fm <> [] ->
  exists note,
    parseMemoryMarkdown now text id0 = Ok note /\
    title note = t /\
    content note = trim r.
Proof.
  intros Hs Hne Ht Hf. eexists. split.
  - apply (parse_split now _ id0 _ _ _ Hs); [discriminate | exact Hf].
  - cbn [title content].
    rewrite (title_regex_heading t r Hne Ht), (heading_regex_heading t r Hne Ht).
    split; [reflexivity|].
    destruct r as [|d r']; [reflexivity|].
    destruct (N.eqb_spec LF d) as [<-|]; [|reflexivity].
    symmetry. apply trim_cons_space. reflexivity.
Qed.

Lemma parse_titled_witness :
  exists note,
    parseMemoryMarkdown sample_clock
      (str "# Editor" ++ LF :: str "Uses vim. " ++ separator ++ str "tags: tools")
      (str "memory-1a2b3c4d")
    = Ok note /\
    title note = str "Editor" /\
    content note = trim (str "Uses vim. ").
Proof.
  apply (parse_titled sample_clock _ _ (str "Editor") (str "Uses vim. ")
           (str "tags: tools") []).
  - vm_compute. reflexivity.
  - discriminate.
  - reflexivity.
  - discriminate.
Defined.

Lemma title_capture body t :
  Regex.exec title_regex body ≫= Regex.capture 1 = Some t ->
  t <> [] /\ forallb (fun c => negb (is_line_terminator c)) t = true.
Proof.
  intros H. destruct (Regex.exec title_regex body) as [m|] eqn:E; [|discriminate H].
  destruct (title_regex_sound body m E) as (t' & r & Hne & Ht & ->).
  rewrite <- E, (title_regex_heading t' r Hne Ht) in H.
  apply (inj Some) in H. subst t'. split; assumption.
Qed.

(** X8: whatever text it is given, a note that [parseMemoryMarkdown]
    returns carries the id it was called with, a non-empty title without
    line terminators, a content without white space around it, and no
    empty tag. *)
Theorem parsed_note_shape now text id0 note :
  parseMemoryMarkdown now text id0 = Ok note ->
  id note = id0 /\
  title note <> [] /\
  forallb (fun c => negb (is_line_terminator c)) (title note) = true /\
  trim (content note) = content note /\
  Forall (fun t => t <> []) (tags note).
Proof.
  unfold parseMemoryMarkdown.
  destruct (negb _ || negb _); [discriminate|].
  set (meta := parseFrontmatter _).
  assert (G : forall c u d,
    let note' :=
      {| id := id0;
         title := default (str "Untitled")
                    (Regex.exec title_regex (default [] (split separator text !! 0%nat))
                     ≫= Regex.capture 1);
         content := trim (Regex.replace_first_empty heading_regex
                            (default [] (split separator text !! 0%nat)));
         tags := match meta !! str "tags" with
                 | Some t => filter (fun s => truthy s = true) (split (str ", ") t)
                 | None => []
                 end;
         createdAt := c; updatedAt := u; deleted := d |} in
    id note' = id0 /\
    title note' <> [] /\
    forallb (fun c => negb (is_line_terminator c)) (title note') = true /\
    trim (content note') = content note' /\
    Forall (fun t => t <> []) (tags note')).
  { intros c u d. cbn [id title content tags].
    split; [reflexivity|].
    destruct (Regex.exec title_regex _ ≫= Regex.capture 1) as [t|] eqn:E; cbn [default].
    - apply title_capture in E as [E1 E2].
      split; [exact E1|]. split; [exact E2|]. split; [apply trim_idempotent|].
      destruct (meta !! str "tags"); [|constructor].
      apply Forall_forall. intros x Hx. apply list_elem_of_filter in Hx as [Hx _].
      intros ->. discriminate Hx.
    - split; [discriminate|]. split; [reflexivity|]. split; [apply trim_idempotent|].
      destruct (meta !! str "tags"); [|constructor].
      apply Forall_forall. intros x Hx. apply list_elem_of_filter in Hx as [Hx _].
      intros ->. discriminate Hx. }
  destruct (meta !! str "created"); intros H; injection H as <-; apply G.
Qed.

Lemma parsed_note_shape_witness :
  id sample_note = str "memory-1a2b3c4d" /\
  title sample_note <> [] /\
  forallb (fun c => negb (is_line_terminator c)) (title sample_note) = true /\
  trim (content sample_note) = content sample_note /\
  Forall (fun t => t <> []) (tags sample_note).
Proof.
  apply (parsed_note_shape sample_clock (formatMemoryMarkdown sample_note)).
  vm_compute. reflexivity.
Defined.

(** The footer of a formatted note does not run into a separator that
    follows it. *)
Lemma footer_then_separator n b a1 a2 :
  valid_note n ->
  format_footer n = a1 ++ a2 -> a2 <> [] ->
  startsWith separator (a2 ++ separator ++ b) = false.
Proof.
  intros Hn E Hne.
  destruct (startsWith separator (a2 ++ separator ++ b)) eqn:Es; [exfalso|reflexivity].
  pose proof (footer_has_no_separator n Hn) as Hno. rewrite E in Hno.
  pose proof (occurrence_straddles _ _ _ _ Hno Es) as Hlen.
  destruct a2 as [|c a2]; [contradiction|].
  pose proof (startsWith_head _ _ _ _ Es) as <-.
  destruct (footer_lines n Hn) as (_ & _ & _ & H4).
  assert (Ef : exists pre,
             format_footer n =
             pre ++ (str "deleted" ++ str ": " ++ string_of_bool (deleted n))).
  { exists ((str "tags" ++ str ": " ++ join (str ", ") (tags n)) ++ LF ::
            (str "created" ++ str ": " ++ createdAt n) ++ LF ::
            (str "updated" ++ str ": " ++ updatedAt n) ++ [LF]).
    unfold format_footer.
    repeat first [rewrite <- app_assoc | progress cbn [app]]. reflexivity. }
  destruct Ef as [pre Ef]. rewrite Ef in E. symmetry in E.
  apply app_eq_inv in E as [(k & E1 & E2)|(k & E1 & E2)].
  - rewrite E2, one_line_app in H4. apply andb_prop in H4 as [_ H4]. discriminate H4.
  - apply (f_equal length) in E2. rewrite length_app in E2.
    rewrite !length_app in E2. unfold separator in Hlen.
    change (str "---") with [45%N; 45%N; 45%N] in Hlen.
    change (str "deleted") with (100%N :: str "eleted") in E2.
    change (str ": ") with [58%N; 32%N] in E2.
    destruct (deleted n); cbn in E2, Hlen; lia.
Qed.

(** A text whose first two sections are those of a formatted note. *)
Lemma parse_sections now n text more :
  valid_note n ->
  split separator text = format_body n :: format_footer n :: more ->
  parseMemoryMarkdown now text (id n) = Ok n.
Proof.
  intros Hn Hs.
  rewrite (parse_split now text (id n) _ _ more Hs);
    [| discriminate
     | unfold format_footer; change (str "tags") with (116%N :: str "ags"); discriminate].
  rewrite (footer_parsed n Hn).
  destruct Hn as [Hne Hline Htrim _ Htags _ _].
  unfold format_body.
  rewrite (title_regex_heading _ _ Hne Hline).
  rewrite (heading_regex_heading _ _ Hne Hline).
  rewrite N.eqb_refl, (trim_snoc_space _ LF eq_refl), Htrim.
  repeat first [rewrite lookup_insert_eq | rewrite lookup_insert_ne by str_differs].
  rewrite (split_join_tags _ Htags).
  cbn [default].
  replace (bool_decide (Some (string_of_bool (deleted n)) = Some (str "true")))
    with (deleted n).
  - destruct n; reflexivity.
  - destruct (deleted n); symmetry.
    + apply bool_decide_eq_true_2. reflexivity.
    + apply bool_decide_eq_false_2. str_differs.
Qed.

(** X9: only the first two sections of a file are read: whatever follows
    a further separator after a formatted note is ignored, and the note
    is still read back unchanged. *)
Theorem parse_ignores_later_sections now n junk :
  valid_note n ->
  parseMemoryMarkdown now (formatMemoryMarkdown n ++ separator ++ junk) (id n) = Ok n.
Proof.
  intros Hn. apply (parse_sections now n _ (split separator junk) Hn).
  rewrite format_shape, <- !app_assoc.
  rewrite split_first;
    [| discriminate | intros a1 a2; apply (body_has_no_separator n Hn)].
  rewrite split_first;
    [reflexivity | discriminate | intros a1 a2; apply (footer_then_separator n _ a1 a2 Hn)].
Qed.

Lemma parse_ignores_later_sections_witness :
  parseMemoryMarkdown sample_clock
    (formatMemoryMarkdown sample_note ++ separator ++ str "deleted: true")
    (id sample_note)
  = Ok sample_note.
Proof.
  apply (parse_ignores_later_sections sample_clock sample_note).
  exact sample_note_valid.
Defined.

End ParseMore.

(** ** Identifiers and file paths *)

Section Paths.

(** X10: two generated ids are equal exactly when the two UUIDs agree on
    their first eight code units; the rest of the UUID plays no part. *)
Theorem generateMemoryId_collision (u1 u2 : jsstring) :
  generateMemoryId u1 = generateMemoryId u2 <-> take 8 u1 = take 8 u2.
Proof.
  unfold generateMemoryId, slice. rewrite !drop_0.
  change (8 - 0) with 8. split.
  - apply app_inv_head.
  - intros ->. reflexivity.
Qed.

(** X11: a generated id is [memory-] followed by at most eight code
    units, and by exactly eight when the UUID has that many. *)
Theorem generateMemoryId_length (uuid : jsstring) :
  startsWith (str "memory-") (generateMemoryId uuid) = true /\
  length (generateMemoryId uuid) = 7 + Nat.min 8 (length uuid).
Proof.
  unfold generateMemoryId, slice. split.
  - apply startsWith_app.
  - rewrite length_app, drop_0, length_take. reflexivity.
Qed.

Lemma last_path (x ext : jsstring) c :
  last ext = Some c -> last (x ++ ext) = Some c.
Proof. intros H. rewrite last_app, H. reflexivity. Qed.

(** X12: the three kinds of file never share a path, whatever the
    directories and the ids: a message file ends in [l], a metadata file
    in [n], a memory file in [d]. *)
Theorem file_paths_distinct (b1 i1 b2 i2 b3 i3 : jsstring) :
  getSessionFilePath b1 i1 <> getMetaFilePath b2 i2 /\
  getSessionFilePath b1 i1 <> getMemoryFilePath b3 i3 /\
  getMetaFilePath b2 i2 <> getMemoryFilePath b3 i3.
Proof.
  assert (Hs : last (getSessionFilePath b1 i1) = Some 108%N).
  { unfold getSessionFilePath. rewrite !app_assoc. apply last_path. reflexivity. }
  assert (Hm : last (getMetaFilePath b2 i2) = Some 110%N).
  { unfold getMetaFilePath. rewrite !app_assoc. apply last_path. reflexivity. }
  assert (Hd : last (getMemoryFilePath b3 i3) = Some 100%N).
  { unfold getMemoryFilePath. rewrite !app_assoc. apply last_path. reflexivity. }
  repeat split; intros E; rewrite E in *; congruence.
Qed.

(** X13: within one directory, different ids give different paths. *)
Theorem file_paths_injective (basePath id1 id2 : jsstring) :
  (getSessionFilePath basePath id1 = getSessionFilePath basePath id2 <-> id1 = id2) /\
  (getMetaFilePath basePath id1 = getMetaFilePath basePath id2 <-> id1 = id2) /\
  (getMemoryFilePath basePath id1 = getMemoryFilePath basePath id2 <-> id1 = id2).
Proof.
  unfold getSessionFilePath, getMetaFilePath, getMemoryFilePath.
  repeat split; try (intros ->; reflexivity); intros E;
    apply app_inv_head in E; apply app_inv_head in E; apply app_inv_tail in E; exact E.
Qed.

(** X14: an id is not checked for path separators: an id [dir/name]
    names the file that [name] names in the subdirectory [dir]. *)
Theorem file_path_id_may_leave_directory (basePath dir name : jsstring) :
  getMemoryFilePath basePath (dir ++ str "/" ++ name)
  = getMemoryFilePath (basePath ++ str "/" ++ dir) name /\
  getSessionFilePath basePath (dir ++ str "/" ++ name)
  = getSessionFilePath (basePath ++ str "/" ++ dir) name /\
  getMetaFilePath basePath (dir ++ str "/" ++ name)
  = getMetaFilePath (basePath ++ str "/" ++ dir) name.
Proof.
  unfold getMemoryFilePath, getSessionFilePath, getMetaFilePath.
  rewrite <- !app_assoc. repeat split.
Qed.

Lemma last_slash (x y a b : jsstring) :
  forallb (fun c => negb (c =? 47)%N) y = true ->
  forallb (fun c => negb (c =? 47)%N) b = true ->
  x ++ 47%N :: y = a ++ 47%N :: b -> x = a /\ y = b.
Proof.
  intros Hy Hb E.
  apply app_eq_inv in E as [(k & E1 & E2)|(k & E1 & E2)].
  - destruct k as [|c k]; cbn [app] in E2.
    + injection E2 as <-. rewrite app_nil_r in E1. split; [exact E1 | reflexivity].
    + injection E2 as _ E2. rewrite E2, forallb_app in Hb.
      apply andb_prop in Hb as [_ Hb]. discriminate Hb.
  - destruct k as [|c k]; cbn [app] in E2.
    + injection E2 as <-. rewrite app_nil_r in E1. split; [symmetry; exact E1 | reflexivity].
    + injection E2 as _ E2. rewrite E2, forallb_app in Hy.
      apply andb_prop in Hy as [_ Hy]. discriminate Hy.
Qed.

(** X15: the file of a generated id lies directly in the base directory:
    when the first eight code units of the UUID hold no [/] (they are
    hexadecimal digits), the last [/] of the path is the one after
    [basePath]. *)
Theorem generated_id_path (basePath uuid dir name : jsstring) :
  forallb (fun c => negb (c =? 47)%N) (take 8 uuid) = true ->
  forallb (fun c => negb (c =? 47)%N) name = true ->
  getMemoryFilePath basePath (generateMemoryId uuid) = dir ++ str "/" ++ name ->
  dir = basePath /\ name = generateMemoryId uuid ++ str ".md".
Proof.
  intros Hu Hn E. unfold getMemoryFilePath in E.
  change (str "/") with [47%N] in E. cbn [app] in E.
  apply last_slash in E as [E1 E2]; [split; symmetry; assumption | | exact Hn].
  unfold generateMemoryId, slice. change (8 - 0) with 8.
  rewrite drop_0, !forallb_app, Hu. reflexivity.
Qed.

Lemma generated_id_path_witness :
  str "/data/memories" = str "/data/memories" /\
  str "memory-3f2a9c1e.md"
  = generateMemoryId (str "3f2a9c1e-5b7d-4e2a-9c1e-0a1b2c3d4e5f") ++ str ".md".
Proof.
  apply (generated_id_path (str "/data/memories")
           (str "3f2a9c1e-5b7d-4e2a-9c1e-0a1b2c3d4e5f")
           (str "/data/memories") (str "memory-3f2a9c1e.md")); reflexivity.
Defined.

End Paths.

(** ** [resolvePath] *)

Section ResolvePath.

Lemma get_substitution_plain matched before after h r :
  no_dollar h = true ->
  get_substitution matched before after (h ++ r)
  = h ++ get_substitution matched before after r.
Proof.
  unfold no_dollar. induction h as [|c h IH]; [reflexivity|].
  cbn [forallb app]. intros H. apply andb_prop in H as [Hc Hh].
  apply negb_true_iff in Hc. cbn [get_substitution]. rewrite Hc, (IH Hh). reflexivity.
Qed.

Lemma get_substitution_no_dollar matched before after h :
  no_dollar h = true -> get_substitution matched before after h = h.
Proof.
  intros H. rewrite <- (app_nil_r h) at 1.
  rewrite (get_substitution_plain _ _ _ _ _ H). apply app_nil_r.
Qed.

Lemma resolvePath_cons (homedir : jsstring) c rest :
  no_dollar homedir = true ->
  resolvePath homedir (c :: rest) = if (c =? 126)%N then homedir ++ rest else c :: rest.
Proof.
  intros H. unfold resolvePath.
  change (str "~") with [126%N]. cbn [startsWith]. rewrite andb_true_r, N.eqb_sym.
  destruct (c =? 126)%N; [|reflexivity].
  rewrite (get_substitution_no_dollar _ _ _ _ H). reflexivity.
Qed.

(** X16: with a home directory whose name holds no dollar sign, a
    leading tilde, and only a leading one, is replaced by the home
    directory; every other path is returned as it is. *)
Theorem resolvePath_tilde (homedir path : jsstring) :
  no_dollar homedir = true ->
  resolvePath homedir path =
  match path with
  | c :: rest => if (c =? 126)%N then homedir ++ rest else path
  | [] => path
  end.
Proof.
  intros H. destruct path as [|c rest]; [reflexivity|].
  apply (resolvePath_cons homedir c rest H).
Qed.

Lemma resolvePath_tilde_witness :
  resolvePath (str "/home/agent") (str "~/.agent-memory") =
  match str "~/.agent-memory" with
  | c :: rest => if (c =? 126)%N then str "/home/agent" ++ rest else str "~/.agent-memory"
  | [] => str "~/.agent-memory"
  end.
Proof. apply resolvePath_tilde. reflexivity. Defined.

(** X17: the home directory is used as a replacement pattern, not as
    plain text: in its name [$$] becomes one dollar sign, [$&] becomes
    the tilde again, [$'] becomes the rest of the path, and the pair
    made of a dollar sign and a backquote disappears. *)
Theorem resolvePath_dollar_home (h1 h2 rest : jsstring) :
  no_dollar h1 = true -> no_dollar h2 = true ->
  resolvePath (h1 ++ str "$$" ++ h2) (str "~" ++ rest) = h1 ++ str "$" ++ h2 ++ rest /\
  resolvePath (h1 ++ str "$&" ++ h2) (str "~" ++ rest) = h1 ++ str "~" ++ h2 ++ rest /\
  resolvePath (h1 ++ str "$'" ++ h2) (str "~" ++ rest) = h1 ++ rest ++ h2 ++ rest /\
  resolvePath (h1 ++ str "$`" ++ h2) (str "~" ++ rest) = h1 ++ h2 ++ rest.
Proof.
  intros H1 H2. unfold resolvePath. rewrite startsWith_app.
  change (str "~") with [126%N]. cbn [app drop]. rewrite drop_0.
  rewrite !(get_substitution_plain _ _ _ h1 _ H1).
  change (str "$$") with [36%N; 36%N]. change (str "$&") with [36%N; 38%N].
  change (str "$'") with [36%N; 39%N]. change (str "$`") with [36%N; 96%N].
  change (str "$") with [36%N].
  cbn [app get_substitution N.eqb Pos.eqb].
  rewrite !(get_substitution_no_dollar _ _ _ h2 H2).
  repeat first [rewrite <- app_assoc | progress cbn [app]].
  repeat split.
Qed.

Lemma resolvePath_dollar_home_witness :
  resolvePath (str "/home/a" ++ str "$$" ++ str "b") (str "~" ++ str "/notes")
  = str "/home/a" ++ str "$" ++ str "b" ++ str "/notes" /\
  resolvePath (str "/home/a" ++ str "$&" ++ str "b") (str "~" ++ str "/notes")
  = str "/home/a" ++ str "~" ++ str "b" ++ str "/notes" /\
  resolvePath (str "/home/a" ++ str "$'" ++ str "b") (str "~" ++ str "/notes")
  = str "/home/a" ++ str "/notes" ++ str "b" ++ str "/notes" /\
  resolvePath (str "/home/a" ++ str "$`" ++ str "b") (str "~" ++ str "/notes")
  = str "/home/a" ++ str "b" ++ str "/notes".
Proof. apply resolvePath_dollar_home; reflexivity. Defined.

(** X18: resolving twice is resolving once, when the home directory is
    not empty, has no dollar sign in its name and does not itself begin
    with a tilde. *)
Theorem resolvePath_idempotent (homedir path : jsstring) :
  no_dollar homedir = true -> homedir <> [] ->
  startsWith (str "~") homedir = false ->
  resolvePath homedir (resolvePath homedir path) = resolvePath homedir path.
Proof.
  intros H Hne Ht.
  destruct path as [|c rest]; [reflexivity|].
  rewrite (resolvePath_cons _ c rest H).
  destruct (c =? 126)%N eqn:Ec; [|rewrite (resolvePath_cons _ c rest H), Ec; reflexivity].
  destruct homedir as [|h0 home]; [contradiction|]. cbn [app].
  rewrite (resolvePath_cons _ h0 _ H).
  change (str "~") with [126%N] in Ht. cbn [startsWith] in Ht.
  rewrite andb_true_r, N.eqb_sym in Ht. rewrite Ht. reflexivity.
Qed.

Lemma resolvePath_idempotent_witness :
  resolvePath (str "/home/agent") (resolvePath (str "/home/agent") (str "~/~notes"))
  = resolvePath (str "/home/agent") (str "~/~notes").
Proof. apply resolvePath_idempotent; [reflexivity | discriminate | reflexivity]. Defined.

End ResolvePath.

(** ** More on [validateConfig] *)

Section ConfigMore.

Lemma enum_member options v s : Zod.enum options v = Some s -> s ∈ options.
Proof.
  unfold Zod.enum. destruct v as [| | | |t| |]; try discriminate.
  destruct (bool_decide (t ∈ options)) eqn:E; [|discriminate].
  intros [= <-]. apply bool_decide_eq_true_1 in E. exact E.
Qed.

Lemma EmbeddingsConfigSchema_sound v e :
  EmbeddingsConfigSchema v = Some e ->
  embeddings_provider e ∈ [str "openai"; str "ollama"] /\
  (embeddings_provider e = str "openai" ->
   exists k, embeddings_apiKey e = Some k /\ k <> []) /\
  (embeddings_provider e = str "ollama" ->
   exists u, embeddings_baseUrl e = Some u /\ u <> []).
Proof.
  unfold EmbeddingsConfigSchema, Zod.refine.
  destruct (Zod.object v) as [o|]; [|discriminate]. cbn [mbind option_bind].
  destruct (Zod.enum _ _) as [provider|] eqn:Ep; [|discriminate]. cbn [mbind option_bind].
  destruct (Zod.optional Zod.string (field (str "apiKey") o)) as [apiKey|];
    [|discriminate]. cbn [mbind option_bind].
  destruct (Zod.optional Zod.string (field (str "model") o)) as [model|];
    [|discriminate]. cbn [mbind option_bind].
  destruct (Zod.optional Zod.string (field (str "baseUrl") o)) as [baseUrl|];
    [|discriminate]. cbn [mbind option_bind embeddings_provider embeddings_apiKey].
  destruct (negb (string_eqb provider (str "openai")) || truthy_opt apiKey) eqn:E1;
    [|discriminate]. cbn [mbind option_bind embeddings_provider embeddings_baseUrl].
  destruct (negb (string_eqb provider (str "ollama")) || truthy_opt baseUrl) eqn:E2;
    [|discriminate].
  intros [= <-]. cbn [embeddings_provider embeddings_apiKey embeddings_baseUrl].
  split; [exact (enum_member _ _ _ Ep)|]. unfold string_eqb in *. split; intros ->.
  - rewrite bool_decide_eq_true_2 in E1 by reflexivity. cbn [negb orb] in E1.
    destruct apiKey as [[|c k]|]; try discriminate E1.
    exists (c :: k). split; [reflexivity | discriminate].
  - rewrite bool_decide_eq_true_2 in E2 by reflexivity. cbn [negb orb] in E2.
    destruct baseUrl as [[|c u]|]; try discriminate E2.
    exists (c :: u). split; [reflexivity | discriminate].
Qed.

Lemma SummarizerConfigSchema_sound v s :
  SummarizerConfigSchema v = Some s ->
  summarizer_provider s ∈ [str "openai"; str "anthropic"].
Proof.
  unfold SummarizerConfigSchema.
  destruct (Zod.object v) as [o|]; [|discriminate]. cbn [mbind option_bind].
  destruct (Zod.enum _ _) as [provider|] eqn:Ep; [|discriminate]. cbn [mbind option_bind].
  destruct (Zod.string _); [|discriminate]. cbn [mbind option_bind].
  destruct (Zod.optional _ _); [|discriminate]. cbn [mbind option_bind].
  intros [= <-]. exact (enum_member _ _ _ Ep).
Qed.

Lemma hybridWeight_schema v x :
  Zod.default_to lit_0_7 (Zod.max F64.one (Zod.min F64.zero Zod.number)) v = Some x ->
  F64.leb F64.zero x = true /\ F64.leb x F64.one = true.
Proof.
  assert (G : forall w, Zod.max F64.one (Zod.min F64.zero Zod.number) w = Some x ->
                        F64.leb F64.zero x = true /\ F64.leb x F64.one = true).
  { intros w. unfold Zod.max, Zod.min.
    destruct (Zod.number w) as [y|]; [|discriminate]. cbn [mbind option_bind].
    destruct (F64.leb F64.zero y) eqn:E0; [|discriminate]. cbn [mbind option_bind].
    destruct (F64.leb y F64.one) eqn:E1; [|discriminate].
    intros H. apply (inj Some) in H. subst y. split; assumption. }
  destruct v; cbn [Zod.default_to]; try apply G.
  intros H. apply (inj Some) in H. subst x. split; vm_compute; reflexivity.
Qed.

Lemma defaultLimit_schema v x :
  Zod.default_to lit_10 (Zod.positive Zod.number) v = Some x ->
  F64.ltb F64.zero x = true.
Proof.
  destruct v; cbn [Zod.default_to]; try (intros H; apply positive_number in H as [_ H]; exact H).
  intros H. apply (inj Some) in H. subst x. vm_compute. reflexivity.
Qed.

Lemma SearchConfigSchema_sound v s :
  SearchConfigSchema v = Some s ->
  F64.leb F64.zero (hybridWeight s) = true /\
  F64.leb (hybridWeight s) F64.one = true /\
  F64.ltb F64.zero (defaultLimit s) = true.
Proof.
  unfold SearchConfigSchema.
  destruct (Zod.object _) as [o|]; [|discriminate]. cbn [mbind option_bind].
  destruct (Zod.default_to lit_0_7 _ _) as [hw|] eqn:Eh; [|discriminate].
  cbn [mbind option_bind].
  destruct (Zod.default_to lit_10 _ _) as [dl|] eqn:Ed; [|discriminate].
  cbn [mbind option_bind].
  intros H. apply (inj Some) in H. subst s. cbn [hybridWeight defaultLimit].
  apply hybridWeight_schema in Eh as [H0 H1]. apply defaultLimit_schema in Ed.
  repeat split; assumption.
Qed.

(** What a successful parse of [MemoryConfigSchema] is made of. *)
Lemma MemoryConfigSchema_parts config data :
  MemoryConfigSchema config = Some data ->
  exists o, config = VObject o /\
    Zod.default_to (str "~/.agent-memory") Zod.string (field (str "storagePath") o)
    = Some (storagePath data) /\
    EmbeddingsConfigSchema (field (str "embeddings") o) = Some (embeddings data) /\
    SummarizerConfigSchema (field (str "summarizer") o) = Some (summarizer data) /\
    SearchConfigSchema (field (str "search") o) = Some (search data).
Proof.
  unfold MemoryConfigSchema. destruct config as [| | | | | |o]; try discriminate.
  cbn [Zod.object mbind option_bind]. intros H. exists o. split; [reflexivity|].
  destruct (Zod.default_to (str "~/.agent-memory") _ _); [|discriminate H].
  destruct (EmbeddingsConfigSchema _); [|discriminate H].
  destruct (SummarizerConfigSchema _); [|discriminate H].
  destruct (Zod.default_to lit_50 _ _); [|discriminate H].
  destruct (SearchConfigSchema _); [|discriminate H].
  cbn [mbind option_bind] in H.
  apply (inj Some) in H. subst data. repeat split.
Qed.

(** X19: in every configuration that [validateConfig] accepts, the
    embeddings provider is [openai] or [ollama], an [openai] provider
    comes with a non-empty API key and an [ollama] provider with a
    non-empty base URL, the summarizer provider is [openai] or
    [anthropic], the hybrid weight lies between 0 and 1, and the default
    limit is greater than zero. *)
Theorem validateConfig_accepts (homedir : jsstring) (config : jsvalue) (cfg : MemoryConfig) :
  validateConfig homedir config = Ok cfg ->
  embeddings_provider (embeddings cfg) ∈ [str "openai"; str "ollama"] /\
  (embeddings_provider (embeddings cfg) = str "openai" ->
   exists k, embeddings_apiKey (embeddings cfg) = Some k /\ k <> []) /\
  (embeddings_provider (embeddings cfg) = str "ollama" ->
   exists u, embeddings_baseUrl (embeddings cfg) = Some u /\ u <> []) /\
  summarizer_provider (summarizer cfg) ∈ [str "openai"; str "anthropic"] /\
  F64.leb F64.zero (hybridWeight (search cfg)) = true /\
  F64.leb (hybridWeight (search cfg)) F64.one = true /\
  F64.ltb F64.zero (defaultLimit (search cfg)) = true.
Proof.
  unfold validateConfig.
  destruct (MemoryConfigSchema config) as [data|] eqn:E; [|discriminate].
  intros H. injection H as <-. cbn [embeddings summarizer search].
  apply MemoryConfigSchema_parts in E as (o & _ & _ & He & Hs & Hq).
  apply EmbeddingsConfigSchema_sound in He as (H1 & H2 & H3).
  apply SummarizerConfigSchema_sound in Hs.
  apply SearchConfigSchema_sound in Hq as (H4 & H5 & H6).
  repeat split; assumption.
Qed.

Lemma validateConfig_accepts_witness :
  embeddings_provider (embeddings sample_validated) ∈ [str "openai"; str "ollama"] /\
  (embeddings_provider (embeddings sample_validated) = str "openai" ->
   exists k, embeddings_apiKey (embeddings sample_validated) = Some k /\ k <> []) /\
  (embeddings_provider (embeddings sample_validated) = str "ollama" ->
   exists u, embeddings_baseUrl (embeddings sample_validated) = Some u /\ u <> []) /\
  summarizer_provider (summarizer sample_validated) ∈ [str "openai"; str "anthropic"] /\
  F64.leb F64.zero (hybridWeight (search sample_validated)) = true /\
  F64.leb (hybridWeight (search sample_validated)) F64.one = true /\
  F64.ltb F64.zero (defaultLimit (search sample_validated)) = true.
Proof.
  apply (validateConfig_accepts (str "/home/agent") (VObject sample_config)).
  vm_compute. reflexivity.
Defined.

(** X20: keys that the schema does not name are ignored: adding one to
    a configuration object changes nothing in what [validateConfig]
    returns or throws. *)
Theorem validateConfig_unknown_key (homedir : jsstring) (o : gmap jsstring jsvalue)
    (key : jsstring) (v : jsvalue) :
  key ∉ config_keys ->
  validateConfig homedir (VObject (<[key := v]> o)) = validateConfig homedir (VObject o).
Proof.
  intros Hk. unfold validateConfig, MemoryConfigSchema. cbn [Zod.object mbind option_bind].
  assert (F : forall k, k ∈ config_keys -> field k (<[key := v]> o) = field k o).
  { intros k Hin. unfold field. rewrite lookup_insert_ne; [reflexivity|].
    intros ->. exact (Hk Hin). }
  rewrite !F by (unfold config_keys; set_solver). reflexivity.
Qed.

Lemma validateConfig_unknown_key_witness :
  validateConfig (str "/home/agent")
    (VObject (<[str "verbose" := VBool true]> sample_config))
  = validateConfig (str "/home/agent") (VObject sample_config).
Proof.
  apply validateConfig_unknown_key.
  unfold config_keys. rewrite !not_elem_of_cons.
  repeat split; try (intros E; vm_compute in E; discriminate E).
  apply not_elem_of_nil.
Defined.

(** X21: the storage path of an accepted configuration is the given
    string with its leading tilde resolved, or, when none is given, the
    home directory followed by [/.agent-memory] (for a home directory
    whose name holds no dollar sign). *)
Theorem validateConfig_storagePath (homedir : jsstring) (o : gmap jsstring jsvalue) cfg :
  no_dollar homedir = true ->
  validateConfig homedir (VObject o) = Ok cfg ->
  match field (str "storagePath") o with
  | VUndefined => storagePath cfg = homedir ++ str "/.agent-memory"
  | VString p => storagePath cfg = resolvePath homedir p
  | _ => False
  end.
Proof.
  intros Hh. unfold validateConfig.
  destruct (MemoryConfigSchema (VObject o)) as [data|] eqn:E; [|discriminate].
  intros H. injection H as <-. cbn [storagePath].
  apply MemoryConfigSchema_parts in E as (o' & Ho & Hp & _).
  injection Ho as <-.
  destruct (field (str "storagePath") o); cbn [Zod.default_to Zod.string] in Hp;
    try discriminate Hp; apply (inj Some) in Hp; rewrite <- Hp; [|reflexivity].
  change (str "~/.agent-memory") with (126%N :: str "/.agent-memory").
  rewrite (resolvePath_cons _ _ _ Hh). reflexivity.
Qed.

Lemma validateConfig_storagePath_witness :
  match field (str "storagePath") sample_config with
  | VUndefined => storagePath sample_validated = str "/home/agent" ++ str "/.agent-memory"
  | VString p => storagePath sample_validated = resolvePath (str "/home/agent") p
  | _ => False
  end.
Proof.
  apply (validateConfig_storagePath (str "/home/agent") sample_config sample_validated).
  - reflexivity.
  - vm_compute. reflexivity.
Defined.

(** X22: an input that is not an object, and an object that lacks the
    embeddings section or the summarizer section, is rejected with the
    [ValidationError] [Invalid configuration], before the home directory
    is looked at. *)
Theorem validateConfig_rejects (homedir : jsstring) (config : jsvalue) :
  (forall o, config = VObject o ->
     field (str "embeddings") o = VUndefined \/
     field (str "summarizer") o = VUndefined) ->
  validateConfig homedir config = Throw (ValidationError (str "Invalid configuration")).
Proof.
  intros H. unfold validateConfig.
  destruct (MemoryConfigSchema config) as [data|] eqn:E; [exfalso|reflexivity].
  apply MemoryConfigSchema_parts in E as (o & -> & _ & He & Hs & _).
  destruct (H o eq_refl) as [Hu|Hu]; rewrite Hu in *; discriminate.
Qed.

Lemma validateConfig_rejects_witness :
  validateConfig (str "/home/agent")
    (VObject (<[str "embeddings" := sample_embeddings]> ∅))
  = Throw (ValidationError (str "Invalid configuration")).
Proof.
  apply validateConfig_rejects.
  intros o E. injection E as <-. right. reflexivity.
Defined.

End ConfigMore.

(** ** More on [getChunkCount] and [normalizeScore] *)

Section NumbersMore.
Import F64.
Local Open Scope Z_scope.

Lemma round_ratio_nonneg n d : 0 <= n -> 0 < d -> 0 <= round_ratio n d.
Proof.
  intros Hn Hd. pose proof (round_ratio_mono 0 d n d ltac:(lia) Hd Hd ltac:(nia)) as H.
  rewrite round_ratio_0 in H by exact Hd. exact H.
Qed.

Lemma round_ratio_ge_1 n d : 0 < d -> d <= n -> 1 <= round_ratio n d.
Proof.
  intros Hd Hn. apply Z.le_trans with (round_ratio (1 * d) d).
  - rewrite round_ratio_exact; [lia | exact Hd | reflexivity].
  - apply round_ratio_mono; nia.
Qed.

Lemma ceil_mag_mono K1 K2 : K1 <= K2 -> (K1 + U - 1) / U * U <= (K2 + U - 1) / U * U.
Proof.
  intros H. pose proof U_pos. apply Z.mul_le_mono_nonneg_r; [lia|].
  apply Z.div_le_mono; lia.
Qed.

Lemma ceil_mag_nonneg K : 0 <= K -> 0 <= (K + U - 1) / U * U.
Proof.
  intros H. pose proof U_pos. apply Z.mul_nonneg_nonneg; [|lia].
  apply Z.div_pos; lia.
Qed.

Lemma ceil_mag_0 : (0 + U - 1) / U * U = 0.
Proof. pose proof U_pos. rewrite Z.div_small by lia. reflexivity. Qed.

(** A finite value that is not below zero is a magnitude, with the sign
    bit set only on zero. *)
Lemma nonneg_magnitude s k :
  valid (Fin s k) -> leb zero (Fin s k) = true -> 0 <= k /\ (s = true -> k = 0).
Proof.
  intros [[Hk _] _] Hle. split; [exact Hk|]. intros ->.
  cbn in Hle. apply Z.leb_le in Hle. lia.
Qed.

Lemma positive_magnitude s k :
  valid (Fin s k) -> ltb zero (Fin s k) = true -> 0 < k /\ s = false.
Proof.
  intros [[Hk _] _] Hlt. destruct s; cbn in Hlt; apply Z.ltb_lt in Hlt; [lia|].
  split; [lia | reflexivity].
Qed.

(** [getChunkCount] for a count that is not below zero and a finite
    chunk size above zero. *)
Lemma chunks_of a j k :
  0 <= j -> (a = true -> j = 0) -> 0 < k ->
  getChunkCount (Fin a j) (Fin false k) =
  if round_ratio (j * U) k <? overflow
  then Fin a ((round_ratio (j * U) k + U - 1) / U * U)
  else Inf a.
Proof.
  intros Hj Ha Hk. unfold getChunkCount, div.
  destruct (Z.eqb_spec k 0) as [|_]; [lia|].
  rewrite xorb_false_r. unfold pack.
  destruct (round_ratio (j * U) k <? overflow); [|reflexivity].
  destruct a; [|reflexivity].
  rewrite (Ha eq_refl). change (0 * U) with 0. rewrite round_ratio_0 by exact Hk.
  cbn [ceil]. rewrite ceil_mag_0, Z.div_0_l by (pose proof U_pos; lia). reflexivity.
Qed.

(** X23: the chunk size is not checked: a chunk size of zero gives
    [Infinity] for a count above zero and [NaN] for a count of zero, and
    an infinite chunk size gives zero chunks. *)
Theorem getChunkCount_degenerate_size a j s :
  0 < j ->
  getChunkCount (Fin false j) (Fin s 0) = Inf s /\
  getChunkCount (Fin a 0) (Fin s 0) = NaN /\
  getChunkCount (Fin a j) (Inf false) = Fin a 0.
Proof.
  intros Hj. unfold getChunkCount, div. change (0 =? 0) with true. cbn match.
  destruct (Z.eqb_spec j 0) as [|_]; [lia|].
  split; [reflexivity|]. split; [reflexivity|].
  rewrite xorb_false_r. destruct a; cbn [ceil].
  - rewrite Z.div_0_l by (pose proof U_pos; lia). reflexivity.
  - rewrite ceil_mag_0. reflexivity.
Qed.

Lemma getChunkCount_degenerate_size_witness :
  getChunkCount (Fin false (51 * U)) (Fin true 0) = Inf true /\
  getChunkCount (Fin false 0) (Fin true 0) = NaN /\
  getChunkCount (Fin false (51 * U)) (Inf false) = Fin false 0.
Proof. apply (getChunkCount_degenerate_size false (51 * U) true). reflexivity. Defined.

(** X24: a count of at least one message gives at least one chunk, for
    every finite chunk size above zero, integer or not. *)
Theorem getChunkCount_at_least_one x y :
  valid x -> is_finite x = true -> leb one x = true ->
  valid y -> is_finite y = true -> ltb zero y = true ->
  leb one (getChunkCount x y) = true.
Proof.
  intros Hvx Hfx Hx Hy Hfy Hpos. pose proof U_pos as HU.
  destruct x as [| |a j]; try discriminate.
  destruct y as [| |b k]; try discriminate.
  destruct (positive_magnitude b k Hy Hpos) as [Hk ->].
  assert (Hj : U <= j /\ a = false).
  { destruct a; cbn in Hx; apply Z.leb_le in Hx; [|split; [lia | reflexivity]].
    destruct Hvx as [[Hj0 _] _]. split; [|exfalso]; lia. }
  destruct Hj as [Hj ->].
  rewrite chunks_of by (lia || discriminate).
  assert (Hr : 1 <= round_ratio (j * U) k).
  { apply round_ratio_ge_1; [exact Hk|].
    destruct Hy as [[_ Hk'] _].
    assert (overflow <= U * U) by (vm_compute; discriminate). nia. }
  destruct (round_ratio (j * U) k <? overflow); [|reflexivity].
  cbn [leb one signed]. apply Z.leb_le.
  pose proof (ceil_mag_mono 1 _ Hr) as H.
  replace ((1 + U - 1) / U * U) with U in H; [exact H|].
  replace (1 + U - 1) with (1 * U) by lia. rewrite Z.div_mul by lia. lia.
Qed.

Lemma getChunkCount_at_least_one_witness :
  leb one (getChunkCount (of_Z 3) (div (of_Z 5) (of_Z 2))) = true.
Proof.
  apply getChunkCount_at_least_one.
  - vm_compute. repeat split; congruence.
  - reflexivity.
  - vm_compute. reflexivity.
  - vm_compute. repeat split; congruence.
  - vm_compute. reflexivity.
  - vm_compute. reflexivity.
Defined.

(** X25: more messages never give fewer chunks: for a fixed finite
    chunk size above zero, [getChunkCount] does not decrease when the
    count grows. *)
Theorem getChunkCount_monotone x1 x2 y :
  valid x1 -> valid x2 -> is_finite x1 = true -> is_finite x2 = true ->
  leb zero x1 = true -> leb x1 x2 = true ->
  valid y -> is_finite y = true -> ltb zero y = true ->
  leb (getChunkCount x1 y) (getChunkCount x2 y) = true.
Proof.
  intros Hv1 Hv2 Hf1 Hf2 H01 H12 Hy Hfy Hpos. pose proof U_pos as HU.
  destruct x1 as [| |a1 j1]; try discriminate.
  destruct x2 as [| |a2 j2]; try discriminate.
  destruct y as [| |b k]; try discriminate.
  destruct (positive_magnitude b k Hy Hpos) as [Hk ->].
  destruct (nonneg_magnitude a1 j1 Hv1 H01) as [Hj1 Ha1].
  assert (H02 : leb zero (Fin a2 j2) = true).
  { cbn in H01, H12 |- *. apply Z.leb_le in H01, H12. apply Z.leb_le. lia. }
  destruct (nonneg_magnitude a2 j2 Hv2 H02) as [Hj2 Ha2].
  assert (Hj : j1 <= j2).
  { cbn in H12. apply Z.leb_le in H12.
    destruct a1, a2; cbn [signed] in H12;
      rewrite ?(Ha1 eq_refl), ?(Ha2 eq_refl) in *; lia. }
  rewrite !chunks_of by assumption.
  assert (Hr : round_ratio (j1 * U) k <= round_ratio (j2 * U) k).
  { apply round_ratio_mono; try nia.
    apply Z.mul_le_mono_nonneg_r; [lia|]. apply Z.mul_le_mono_nonneg_r; lia. }
  pose proof (round_ratio_nonneg (j1 * U) k ltac:(nia) Hk) as Hr1.
  assert (Hz : forall a j, (a = true -> j = 0) -> a = true -> round_ratio (j * U) k = 0).
  { intros a j Ha E. rewrite (Ha E). change (0 * U) with 0. apply round_ratio_0. exact Hk. }
  assert (Ho : 0 < overflow) by (vm_compute; reflexivity).
  destruct (Z.ltb_spec (round_ratio (j1 * U) k) overflow) as [L1|L1];
    destruct (Z.ltb_spec (round_ratio (j2 * U) k) overflow) as [L2|L2]; try lia.
  - cbn [leb]. apply Z.leb_le.
    pose proof (ceil_mag_mono _ _ Hr) as Hc.
    destruct a1, a2; cbn [signed];
      rewrite ?(Hz _ _ Ha1 eq_refl), ?(Hz _ _ Ha2 eq_refl), ?ceil_mag_0 in *;
      try lia; apply ceil_mag_nonneg; lia.
  - cbn [leb]. destruct a2; [|reflexivity].
    rewrite (Hz _ _ Ha2 eq_refl) in L2. lia.
  - cbn [leb]. destruct a2; [|apply orb_true_r].
    rewrite (Hz _ _ Ha2 eq_refl) in L2. lia.
Qed.

Lemma getChunkCount_monotone_witness :
  leb (getChunkCount (of_Z 3) (div (of_Z 5) (of_Z 2)))
      (getChunkCount (of_Z 51) (div (of_Z 5) (of_Z 2))) = true.
Proof.
  apply getChunkCount_monotone.
  - vm_compute. repeat split; congruence.
  - vm_compute. repeat split; congruence.
  - reflexivity.
  - reflexivity.
  - vm_compute. reflexivity.
  - vm_compute. reflexivity.
  - vm_compute. repeat split; congruence.
  - vm_compute. reflexivity.
  - vm_compute. reflexivity.
Defined.

(** X26: for a count that is not below zero and any chunk size above
    zero, the infinite one included, (every chunk size that
    [validateConfig] accepts is one), the chunk count is not [NaN] and
    not below zero. *)
Theorem getChunkCount_not_negative x y :
  valid x -> is_finite x = true -> leb zero x = true ->
  valid y -> ltb zero y = true ->
  leb zero (getChunkCount x y) = true.
Proof.
  intros Hvx Hfx H0 Hy Hpos. pose proof U_pos as HU.
  destruct x as [| |a j]; try discriminate.
  destruct (nonneg_magnitude a j Hvx H0) as [Hj Ha].
  destruct y as [|b|b k]; try discriminate.
  - destruct b; [discriminate|].
    unfold getChunkCount, div. rewrite xorb_false_r.
    destruct a; cbn [ceil leb zero signed];
      rewrite ?ceil_mag_0, ?Z.div_0_l by lia; reflexivity.
  - destruct (positive_magnitude b k Hy Hpos) as [Hk ->].
    rewrite chunks_of by assumption.
    pose proof (round_ratio_nonneg (j * U) k ltac:(nia) Hk) as Hr.
    destruct (Z.ltb_spec (round_ratio (j * U) k) overflow) as [L|L].
    + cbn [leb zero]. apply Z.leb_le. destruct a; cbn [signed].
      * rewrite (Ha eq_refl). change (0 * U) with 0.
        rewrite round_ratio_0, ceil_mag_0 by exact Hk. lia.
      * apply ceil_mag_nonneg. exact Hr.
    + cbn [leb zero]. destruct a; [|reflexivity].
      rewrite (Ha eq_refl) in L. change (0 * U) with 0 in L.
      rewrite round_ratio_0 in L by exact Hk.
      assert (0 < overflow) by (vm_compute; reflexivity). lia.
Qed.

Lemma getChunkCount_not_negative_witness :
  leb zero (getChunkCount (of_Z 51) (Inf false)) = true.
Proof.
  apply getChunkCount_not_negative.
  - vm_compute. repeat split; congruence.
  - reflexivity.
  - vm_compute. reflexivity.
  - exact I.
  - reflexivity.
Defined.

End NumbersMore.

Section ScoreMore.
Import F64.
Local Open Scope Z_scope.

(** X27: outside the range of distances the score leaves the interval
    (0, 1]: a finite distance between -1 and 0 gives a score of at least
    1, the distance -1 gives [Infinity], and a finite distance below -1
    gives a score that is not above zero. *)
Theorem normalizeScore_negative_distance d :
  valid d -> is_finite d = true -> ltb d zero = true ->
  (ltb (Fin true U) d = true -> leb one (normalizeScore d) = true) /\
  (d = Fin true U -> normalizeScore d = Inf false) /\
  (ltb d (Fin true U) = true -> leb (normalizeScore d) zero = true).
Proof.
  intros Hv Hf Hneg. pose proof U_pos as HU.
  destruct d as [| |s k]; try discriminate.
  destruct Hv as [[Hk0 Hko] _].
  assert (Hs : s = true /\ 0 < k).
  { destruct s; cbn in Hneg; apply Z.ltb_lt in Hneg; [split; [reflexivity | lia] | lia]. }
  destruct Hs as [-> Hk].
  assert (HUo : U < overflow) by (vm_compute; reflexivity).
  assert (HUU : round_ratio U 1 <= U) by (vm_compute; discriminate).
  assert (HUg : U mod 2 ^ grid_exp U = 0) by (vm_compute; reflexivity).
  unfold normalizeScore, add, one. cbn [signed].
  split; [|split].
  - intros H. cbn in H. apply Z.ltb_lt in H.
    destruct (Z.eqb_spec (U + - k) 0) as [|_]; [lia|].
    destruct (Z.ltb_spec (U + - k) 0) as [|_]; [lia|].
    rewrite Z.abs_eq by lia.
    set (t := round_ratio (U + - k) 1).
    assert (Ht1 : 1 <= t) by (apply round_ratio_ge_1; lia).
    assert (Ht2 : t <= U).
    { apply Z.le_trans with (round_ratio U 1); [|exact HUU].
      apply round_ratio_mono; lia. }
    rewrite pack_small by lia. unfold div.
    destruct (Z.eqb_spec t 0) as [|_]; [lia|]. cbn [xorb].
    assert (Hr : U <= round_ratio (U * U) t).
    { apply Z.le_trans with (round_ratio (U * t) t).
      - rewrite round_ratio_exact; [lia | lia | exact HUg].
      - apply round_ratio_mono; nia. }
    unfold pack. destruct (round_ratio (U * U) t <? overflow); [|reflexivity].
    cbn [leb signed]. apply Z.leb_le. exact Hr.
  - intros H. injection H as ->.
    replace (U + - U) with 0 by lia. change (0 =? 0) with true. cbn match.
    unfold div. change (0 =? 0) with true. cbn match.
    destruct (Z.eqb_spec U 0) as [|_]; [lia | reflexivity].
  - intros H. cbn in H. apply Z.ltb_lt in H.
    destruct (Z.eqb_spec (U + - k) 0) as [|_]; [lia|].
    destruct (Z.ltb_spec (U + - k) 0) as [_|]; [|lia].
    rewrite Z.abs_neq by lia.
    set (t := round_ratio (- (U + - k)) 1).
    assert (Ht1 : 1 <= t) by (apply round_ratio_ge_1; lia).
    unfold pack. destruct (t <? overflow).
    + unfold div. destruct (Z.eqb_spec t 0) as [|_]; [lia|]. cbn [xorb].
      pose proof (round_ratio_nonneg (U * U) t ltac:(nia) ltac:(lia)) as Hr.
      unfold pack. destruct (round_ratio (U * U) t <? overflow); [|reflexivity].
      cbn [leb zero signed]. apply Z.leb_le. lia.
    + reflexivity.
Qed.

Lemma normalizeScore_negative_distance_witness :
  (ltb (Fin true U) (of_Z (-3)) = true -> leb one (normalizeScore (of_Z (-3))) = true) /\
  (of_Z (-3) = Fin true U -> normalizeScore (of_Z (-3)) = Inf false) /\
  (ltb (of_Z (-3)) (Fin true U) = true -> leb (normalizeScore (of_Z (-3))) zero = true).
Proof.
  apply normalizeScore_negative_distance.
  - vm_compute. repeat split; congruence.
  - reflexivity.
  - vm_compute. reflexivity.
Defined.

End ScoreMore.

(** ** The embeddings providers *)

Section Embeddings.

Lemma listed_768 : lit_768 ∈ [lit_768; lit_1536; lit_3072].
Proof. exact (list_elem_of_here lit_768 [lit_1536; lit_3072]). Qed.

Lemma listed_1536 : lit_1536 ∈ [lit_768; lit_1536; lit_3072].
Proof.
  exact (list_elem_of_further lit_1536 lit_768 [lit_1536; lit_3072]
           (list_elem_of_here lit_1536 [lit_3072])).
Qed.

Lemma listed_3072 : lit_3072 ∈ [lit_768; lit_1536; lit_3072].
Proof.
  exact (list_elem_of_further lit_3072 lit_768 [lit_1536; lit_3072]
           (list_elem_of_further lit_3072 lit_1536 [lit_3072]
              (list_elem_of_here lit_3072 []))).
Qed.

Lemma EMBEDDING_DIMENSIONS_values (model : jsstring) (n : F64.t) :
  EMBEDDING_DIMENSIONS !! model = Some n -> n ∈ [lit_768; lit_1536; lit_3072].
Proof.
  unfold EMBEDDING_DIMENSIONS. intros E.
  apply lookup_insert_Some in E as [[_ <-]|[_ E]]; [exact listed_1536|].
  apply lookup_insert_Some in E as [[_ <-]|[_ E]]; [exact listed_3072|].
  apply lookup_insert_Some in E as [[_ <-]|[_ E]]; [exact listed_1536|].
  apply lookup_insert_Some in E as [[_ <-]|[_ E]]; [exact listed_768|].
  rewrite lookup_empty in E. discriminate E.
Qed.

Lemma default_models_listed :
  EMBEDDING_DIMENSIONS !! DEFAULT_EMBEDDING_MODEL = Some lit_1536 /\
  EMBEDDING_DIMENSIONS !! str "nomic-embed-text" = Some lit_768.
Proof.
  unfold EMBEDDING_DIMENSIONS, DEFAULT_EMBEDDING_MODEL. split.
  - apply lookup_insert_eq.
  - rewrite !lookup_insert_ne by (intros E; vm_compute in E; discriminate E).
    apply lookup_insert_eq.
Qed.

(** X28: unless the model is named like a member of [Object.prototype],
    both providers get 768, 1536 or 3072 dimensions; a model that
    [EMBEDDING_DIMENSIONS] does not list gets 1536 from the OpenAI
    provider and 768 from the Ollama provider, and so does each provider
    when no model is given. *)
Theorem embeddings_dimensions (key url : jsstring) (model : option jsstring) :
  (forall m, model = Some m -> m ∉ object_prototype_names) ->
  (exists n, openai_dimensions (new_OpenAIEmbeddings key model) = Own n /\
             n ∈ [lit_768; lit_1536; lit_3072]) /\
  (exists n, ollama_dimensions (new_OllamaEmbeddings url model) = Own n /\
             n ∈ [lit_768; lit_1536; lit_3072]) /\
  ((model = None \/ exists m, model = Some m /\ EMBEDDING_DIMENSIONS !! m = None) ->
   openai_dimensions (new_OpenAIEmbeddings key model) = Own lit_1536 /\
   ollama_dimensions (new_OllamaEmbeddings url model) = Own lit_768).
Proof.
  intros Hm. destruct default_models_listed as [D1 D2].
  unfold new_OpenAIEmbeddings, new_OllamaEmbeddings.
  cbn [openai_dimensions ollama_dimensions]. unfold get_property.
  destruct model as [m|]; cbn [default from_option Datatypes.id].
  - specialize (Hm m eq_refl).
    rewrite (bool_decide_eq_false_2 _ Hm).
    destruct (EMBEDDING_DIMENSIONS !! m) as [n|] eqn:E; cbn [nullish_or].
    + pose proof (EMBEDDING_DIMENSIONS_values m n E) as Hn.
      split; [exists n; split; [reflexivity | exact Hn]|].
      split; [exists n; split; [reflexivity | exact Hn]|].
      intros [H|(m' & H & H')]; [discriminate H|].
      injection H as <-. rewrite E in H'. discriminate H'.
    + split; [exists lit_1536; split; [reflexivity | exact listed_1536]|].
      split; [exists lit_768; split; [reflexivity | exact listed_768]|].
      intros _. split; reflexivity.
  - rewrite D1, D2. cbn [nullish_or].
    split; [exists lit_1536; split; [reflexivity | exact listed_1536]|].
    split; [exists lit_768; split; [reflexivity | exact listed_768]|].
    intros _. split; reflexivity.
Qed.

Lemma embeddings_dimensions_witness :
  (exists n, openai_dimensions
               (new_OpenAIEmbeddings (str "sk-test") (Some (str "text-embedding-3-large")))
             = Own n /\ n ∈ [lit_768; lit_1536; lit_3072]) /\
  (exists n, ollama_dimensions
               (new_OllamaEmbeddings (str "http://localhost:11434")
                  (Some (str "text-embedding-3-large")))
             = Own n /\ n ∈ [lit_768; lit_1536; lit_3072]) /\
  ((Some (str "text-embedding-3-large") = None \/
    exists m, Some (str "text-embedding-3-large") = Some m /\
              EMBEDDING_DIMENSIONS !! m = None) ->
   openai_dimensions
     (new_OpenAIEmbeddings (str "sk-test") (Some (str "text-embedding-3-large")))
   = Own lit_1536 /\
   ollama_dimensions
     (new_OllamaEmbeddings (str "http://localhost:11434")
        (Some (str "text-embedding-3-large")))
   = Own lit_768).
Proof.
  apply embeddings_dimensions.
  intros m E. injection E as <-. unfold object_prototype_names.
  rewrite !not_elem_of_cons.
  repeat split; try (intros E; vm_compute in E; discriminate E).
  apply not_elem_of_nil.
Defined.

(** X29: the model name is looked up without a check for inherited
    names: a model named like a member of [Object.prototype] leaves both
    providers with that member, not a number, as their dimensions. *)
Theorem embeddings_dimensions_inherited (key url m : jsstring) :
  m ∈ object_prototype_names ->
  openai_dimensions (new_OpenAIEmbeddings key (Some m)) = Inherited m /\
  ollama_dimensions (new_OllamaEmbeddings url (Some m)) = Inherited m.
Proof.
  intros Hm. unfold new_OpenAIEmbeddings, new_OllamaEmbeddings.
  cbn [openai_dimensions ollama_dimensions default from_option Datatypes.id].
  unfold get_property.
  assert (E : EMBEDDING_DIMENSIONS !! m = None).
  { unfold EMBEDDING_DIMENSIONS, object_prototype_names in *.
    rewrite !elem_of_cons in Hm. rewrite elem_of_nil in Hm.
    repeat (destruct Hm as [->|Hm];
            [rewrite !lookup_insert_ne by (intros E; vm_compute in E; discriminate E);
             apply lookup_empty|]).
    contradiction. }
  rewrite E, (bool_decide_eq_true_2 _ Hm). split; reflexivity.
Qed.

Lemma embeddings_dimensions_inherited_witness :
  openai_dimensions (new_OpenAIEmbeddings (str "sk-test") (Some (str "toString")))
  = Inherited (str "toString") /\
  ollama_dimensions (new_OllamaEmbeddings (str "http://localhost:11434")
                       (Some (str "toString")))
  = Inherited (str "toString").
Proof.
  apply embeddings_dimensions_inherited.
  unfold object_prototype_names. rewrite !elem_of_cons. do 6 right. left. reflexivity.
Defined.

End Embeddings.

(** ** What [formatMemoryMarkdown] does not keep *)

Section FormatMore.

(** X30: the file does not hold the id, and it does not mark where one
    tag ends: a note with the single tag [t1, t2] is written exactly as
    a note with the two tags [t1] and [t2], under any two ids. *)
Theorem format_forgets (i1 i2 ti c t1 t2 cr up : jsstring) (ts : list jsstring) (d : bool) :
  formatMemoryMarkdown
    {| id := i1; title := ti; content := c; tags := (t1 ++ str ", " ++ t2) :: ts;
       createdAt := cr; updatedAt := up; deleted := d |}
  = formatMemoryMarkdown
      {| id := i2; title := ti; content := c; tags := t1 :: t2 :: ts;
         createdAt := cr; updatedAt := up; deleted := d |}.
Proof.
  unfold formatMemoryMarkdown.
  cbn [id title content tags createdAt updatedAt deleted].
  assert (E : join (str ", ") ((t1 ++ str ", " ++ t2) :: ts)
              = join (str ", ") (t1 :: t2 :: ts)).
  { rewrite join_cons2. destruct ts as [|t3 ts].
    - reflexivity.
    - rewrite !join_cons2, <- !app_assoc. reflexivity. }
  rewrite E. reflexivity.
Qed.

End FormatMore.
